(** * Directory boilerplate: the persistence layer of the admin surface

    A shallow embedding of [src/utils/dataLoader.ts] (class [DataLoader]),
    [src/utils/dataWriter.ts] (class [DataWriter]) and of the import and
    export handlers of [src/pages/AdminPage.tsx], with the properties the
    specification states about them.

    Conventions of the embedding.
    - A JavaScript string is a [string]: one [ascii] per UTF-16 code unit,
      for the code units 0..255.  [toLowerCase] and the regular expression
      class [\s] are exact on that range.  So is [toUpperCase], sharp s
      included, wherever the upper case is in the range: the upper case
      of the micro sign (181) and of y with diaeresis (255) is not, see
      [capital].
    - A value produced by [JSON.parse] is a [json]; an object is a finite
      map from property names to values.  Numbers are carried as integers:
      the program never computes with a number read from JSON.
    - The browser is a [World]: local storage, what the server answers,
      the clock, the effects observed so far and the admin page's state.
      A method is a function [World -> result A * World].
    - [JSON.parse] and [JSON.stringify] are the platform's: they are the
      methods of the class [JSON], and a reference implementation is given
      in [Module RefJSON]. *)

From Stdlib Require Import ZArith String Ascii List Lia Bool Sorted Permutation.
From stdpp Require Import base option list gmap strings fin_maps pretty.

#[local] Set Warnings "-register-all".


(** ** Strings *)

Module JSString.

Definition code (c : ascii) : nat := nat_of_ascii c.

Definition between (lo hi : nat) (c : ascii) : bool :=
  (lo <=? code c)%nat && (code c <=? hi)%nat.

(** [String.prototype.toLowerCase] on the code units 0..255. *)
Definition lower_char (c : ascii) : ascii :=
  if between 65 90 c || (between 192 222 c && negb (code c =? 215)%nat)
  then ascii_of_nat (code c + 32) else c.

(** [String.prototype.toUpperCase] on one code unit of 0..255.  The upper
    case of sharp s (223) is the two letters SS.  The upper case of the
    micro sign (181) and of y with diaeresis (255) is U+039C and U+0178,
    code units above 255: a [string] has none of these, and [capital]
    has no value there. *)
Definition capital (c : ascii) : option string :=
  if (code c =? 181)%nat || (code c =? 255)%nat then None
  else if (code c =? 223)%nat then Some "SS"
  else if between 97 122 c || (between 224 254 c && negb (code c =? 247)%nat)
  then Some (String (ascii_of_nat (code c - 32)) EmptyString)
  else Some (String c EmptyString).

(** Where [capital] has no value the embedding keeps the code unit; the
    letters of an upper-cased string are characterised only where
    [capital] has a value. *)
Definition upper_unit (c : ascii) : string :=
  default (String c EmptyString) (capital c).

Fixpoint smap (f : ascii -> ascii) (s : string) : string :=
  match s with
  | EmptyString => EmptyString
  | String c s' => String (f c) (smap f s')
  end.

Fixpoint sall (p : ascii -> bool) (s : string) : bool :=
  match s with
  | EmptyString => true
  | String c s' => p c && sall p s'
  end.

Fixpoint sfilter (p : ascii -> bool) (s : string) : string :=
  match s with
  | EmptyString => EmptyString
  | String c s' => if p c then String c (sfilter p s') else sfilter p s'
  end.

Definition toLowerCase (s : string) : string := smap lower_char s.

Fixpoint toUpperCase (s : string) : string :=
  match s with
  | EmptyString => EmptyString
  | String c s' => upper_unit c +:+ toUpperCase s'
  end.

(** The class [\s] of a regular expression, on the code units 0..255:
    tab, line feed, vertical tab, form feed, carriage return, space and
    no-break space. *)
Definition is_space (c : ascii) : bool :=
  between 9 13 c || (code c =? 32)%nat || (code c =? 160)%nat.

(** [s.replace(/\s+/g, '-')]: the scanner emits one hyphen where a match
    of [\s+] starts and drops the rest of the match; [in_run] says that
    the previous code unit belonged to a match. *)
Fixpoint replace_spaces_from (in_run : bool) (s : string) : string :=
  match s with
  | EmptyString => EmptyString
  | String c s' =>
      if is_space c
      then (if in_run then replace_spaces_from true s'
            else String "-" (replace_spaces_from true s'))
      else String c (replace_spaces_from false s')
  end.

Definition replace_spaces (s : string) : string := replace_spaces_from false s.

(** The class [[a-z0-9-]]. *)
Definition is_id_char (c : ascii) : bool :=
  between 97 122 c || between 48 57 c || (code c =? 45)%nat.

(** [s.replace(/[^a-z0-9-]/g, '')]. *)
Definition strip_non_id (s : string) : string := sfilter is_id_char s.

(** [Number.prototype.toString(radix)] on an integer, for a radix of at
    most 36: digits 0-9 then a-z, most significant first, a minus sign
    before the digits of a negative number. *)
Definition digit_char (d : Z) : ascii :=
  if (d <? 10)%Z then ascii_of_nat (48 + Z.to_nat d)
  else ascii_of_nat (87 + Z.to_nat d).

Fixpoint digits_from (fuel : nat) (radix n : Z) (acc : string) : string :=
  match fuel with
  | O => acc
  | S fuel' =>
      let acc' := String (digit_char (n mod radix)) acc in
      if (n <? radix)%Z then acc' else digits_from fuel' radix (n / radix) acc'
  end.

Definition toStringRadix (radix n : Z) : string :=
  let digits m := digits_from (S (Z.to_nat (Z.log2 m))) radix m EmptyString in
  if (n <? 0)%Z then String "-" (digits (- n)%Z) else digits n.

(** [s.split(' ')]: the pieces between the spaces; a string without a
    space is its only piece, the empty string included. *)
Fixpoint split_space (s : string) : list string :=
  match s with
  | EmptyString => [EmptyString]
  | String c s' =>
      if (code c =? 32)%nat then EmptyString :: split_space s'
      else match split_space s' with
           | piece :: pieces => String c piece :: pieces
           | [] => [String c EmptyString]
           end
  end.

(** [s[0]]: [None] is [undefined]. *)
Definition first_unit (s : string) : option ascii :=
  match s with
  | EmptyString => None
  | String c _ => Some c
  end.

(** [units.join('')] on an array of code units and [undefined]s:
    [undefined] joins as the empty string. *)
Fixpoint join_units (units : list (option ascii)) : string :=
  match units with
  | [] => EmptyString
  | Some c :: rest => String c (join_units rest)
  | None :: rest => join_units rest
  end.

(** [s.slice(0, n)]. *)
Fixpoint slice0 (n : nat) (s : string) : string :=
  match n, s with
  | S n', String c s' => String c (slice0 n' s')
  | _, _ => EmptyString
  end.

(** [s.substr(-n)]: the last [n] code units, the whole string when it
    has fewer. *)
Definition substr_last (n : nat) (s : string) : string :=
  let len := String.length s in
  String.substring (len - n) (len - (len - n)) s.

(** Decimal digits, left-padded with zeros to [width]. *)
Definition pad (width : nat) (n : Z) : string :=
  let d := toStringRadix 10 n in
  String.concat EmptyString (replicate (width - String.length d) "0") +:+ d.

(** [s.includes(sub)]. *)
Fixpoint includes (s sub : string) : bool :=
  String.prefix sub s
  || match s with
     | String _ s' => includes s' sub
     | EmptyString => false
     end.

(** [s.trim()]: without the white space at its two ends. *)
Fixpoint trimStart (s : string) : string :=
  match s with
  | String c s' => if is_space c then trimStart s' else s
  | EmptyString => EmptyString
  end.

Fixpoint trimEnd (s : string) : string :=
  match s with
  | EmptyString => EmptyString
  | String c s' =>
      match trimEnd s' with
      | EmptyString => if is_space c then EmptyString else String c EmptyString
      | rest => String c rest
      end
  end.

Definition trim (s : string) : string := trimEnd (trimStart s).

End JSString.

(** ** Dates *)

Module JSDate.
Import JSString.
#[local] Open Scope Z_scope.

(** The proleptic Gregorian date of a day number counted from
    1970-01-01: year, month (1..12) and day of the month (1..31). *)
Definition civil_of_days (days : Z) : Z * Z * Z :=
  let z := days + 719468 in
  let era := z / 146097 in
  let doe := z - era * 146097 in
  let yoe := (doe - doe / 1460 + doe / 36524 - doe / 146096) / 365 in
  let doy := doe - (365 * yoe + yoe / 4 - yoe / 100) in
  let mp := (5 * doy + 2) / 153 in
  let d := doy - (153 * mp + 2) / 5 + 1 in
  let m := if mp <? 10 then mp + 3 else mp - 9 in
  let y := yoe + era * 400 + (if m <=? 2 then 1 else 0) in
  (y, m, d).

(** The year of an ISO-8601 date: four digits for the years 0..9999,
    a sign and six digits otherwise. *)
Definition year_string (y : Z) : string :=
  if (0 <=? y) && (y <=? 9999) then pad 4 y
  else (if y <? 0 then "-" else "+") +:+ pad 6 (Z.abs y).

(** [new Date(t).toISOString()] for a time value [t] in milliseconds
    since the epoch. *)
Definition toISOString (t : Z) : string :=
  let ms := t mod 86400000 in
  let '(y, m, d) := civil_of_days (t / 86400000) in
  year_string y +:+ "-" +:+ pad 2 m +:+ "-" +:+ pad 2 d +:+ "T"
  +:+ pad 2 (ms / 3600000) +:+ ":" +:+ pad 2 (ms / 60000 mod 60) +:+ ":"
  +:+ pad 2 (ms / 1000 mod 60) +:+ "." +:+ pad 3 (ms mod 1000) +:+ "Z".

End JSDate.

(** ** Values *)

(** What [JSON.parse] produces. *)
Inductive json :=
| JNull
| JBool (b : bool)
| JNum (n : Z)
| JStr (s : string)
| JArr (elements : list json)
| JObj (props : gmap string json).

(** A property read or a variable may also hold [undefined]: [None]. *)
Definition typeof (v : option json) : string :=
  match v with
  | None => "undefined"
  | Some (JBool _) => "boolean"
  | Some (JNum _) => "number"
  | Some (JStr _) => "string"
  | Some JNull | Some (JArr _) | Some (JObj _) => "object"
  end.

Definition isArray (v : option json) : bool :=
  match v with
  | Some (JArr _) => true
  | _ => false
  end.

Definition is_null (v : json) : bool :=
  match v with
  | JNull => true
  | _ => false
  end.

(** [v.k] for a value that is not [null] and a property name [k] that is
    neither an index nor [length]: the names the program reads. *)
Definition prop (v : json) (k : string) : option json :=
  match v with
  | JObj m => m !! k
  | _ => None
  end.

(** [v === s] for a string [s]. *)
Definition is_string (v : option json) (s : string) : bool :=
  match v with
  | Some (JStr s') => String.eqb s' s
  | _ => false
  end.

(** The own enumerable properties an object spread [{...v}] copies:
    those of an object, the indexed elements of an array, the indexed
    code units of a string, none of any other value. *)
Definition indexed {A} (f : A -> json) (l : list A) : gmap string json :=
  list_to_map (imap (fun i x => (pretty i, f x)) l).

Definition spread (v : option json) : gmap string json :=
  match v with
  | Some (JObj m) => m
  | Some (JArr l) => indexed id l
  | Some (JStr s) => indexed (fun c => JStr (String c EmptyString)) (list_ascii_of_string s)
  | _ => ∅
  end.

(** ** Exceptions and the browser *)

Inductive exn :=
| Error (message : string)
| TypeError
| SyntaxError
| NetworkError
| QuotaExceededError.

Inductive result (A : Type) :=
| Ok (a : A)
| Throw (e : exn).
Arguments Ok {A} a.
Arguments Throw {A} e.

(** What the server answers to [fetch]. *)
Record Response := mkResponse {
  status : nat;
  statusText : string;
  body : string }.

(** [response.ok]. *)
Definition ok (r : Response) : bool :=
  (200 <=? status r)%nat && (status r <=? 299)%nat.

Inductive effect :=
| Fetched (url : string)
| Downloaded (fileName content : string)
| Alerted (message : string).

Record World := mkWorld {
  (** [window.localStorage]. *)
  localStorage : gmap string string;
  (** The longest value [setItem] accepts. *)
  quota : nat;
  (** The answer to the next [fetch]; [None]: the request fails. *)
  server : option Response;
  (** The successive readings of the clock, in milliseconds. *)
  clock : nat -> Z;
  (** How many readings were taken. *)
  ticks : nat;
  (** The requests, downloads and alerts so far, latest last. *)
  effects : list effect;
  (** The [items] state of the admin page; [None] is [undefined]. *)
  admin_items : option json }.

Definition with_localStorage (s : gmap string string) (w : World) : World :=
  mkWorld s (quota w) (server w) (clock w) (ticks w) (effects w) (admin_items w).

Definition with_ticks (n : nat) (w : World) : World :=
  mkWorld (localStorage w) (quota w) (server w) (clock w) n (effects w) (admin_items w).

Definition with_effect (e : effect) (w : World) : World :=
  mkWorld (localStorage w) (quota w) (server w) (clock w) (ticks w)
    (effects w ++ [e]) (admin_items w).

Definition with_admin_items (v : option json) (w : World) : World :=
  mkWorld (localStorage w) (quota w) (server w) (clock w) (ticks w) (effects w) v.

(** A method: it runs in a world, returns or throws, and leaves a world. *)
Definition M (A : Type) : Type := World -> result A * World.

#[export] Instance M_ret : MRet M := fun A a w => (Ok a, w).

#[export] Instance M_bind : MBind M := fun A B f m w =>
  match m w with
  | (Ok a, w') => f a w'
  | (Throw e, w') => (Throw e, w')
  end.

Definition throw {A} (e : exn) : M A := fun w => (Throw e, w).

(** [try { m } catch (error) { handler }]. *)
Definition try_catch {A} (m : M A) (handler : exn -> M A) : M A := fun w =>
  match m w with
  | (Ok a, w') => (Ok a, w')
  | (Throw e, w') => handler e w'
  end.

Definition lift {A} (r : result A) : M A := fun w => (r, w).

Definition getItem (key : string) : M (option string) := fun w =>
  (Ok (localStorage w !! key), w).

Definition setItem (key value : string) : M unit := fun w =>
  if (String.length value <=? quota w)%nat
  then (Ok tt, with_localStorage (<[key := value]> (localStorage w)) w)
  else (Throw QuotaExceededError, w).

Definition fetch (url : string) : M Response := fun w =>
  match server w with
  | Some r => (Ok r, with_effect (Fetched url) w)
  | None => (Throw NetworkError, with_effect (Fetched url) w)
  end.

(** [Date.now()]. *)
Definition Date_now : M Z := fun w =>
  (Ok (clock w (ticks w)), with_ticks (S (ticks w)) w).

(** [new Date().toISOString()]. *)
Definition Date_toISOString : M string :=
  t ← Date_now; mret (JSDate.toISOString t).

Definition alert (message : string) : M unit := fun w =>
  (Ok tt, with_effect (Alerted message) w).

(** A string is truthy when it is not empty. *)
Definition truthy (s : string) : bool := negb (String.eqb s EmptyString).

(** The platform's codec.  [JSON_parse] is [None] where [JSON.parse]
    throws; [JSON_stringify_indent] is [JSON.stringify(v, null, 2)]. *)
Class JSON := {
  JSON_parse : string -> option json;
  JSON_stringify : json -> string;
  JSON_stringify_indent : json -> string }.

Definition parse `{JSON} (text : string) : M json :=
  match JSON_parse text with
  | Some v => mret v
  | None => throw SyntaxError
  end.

(** ** Conversions and array methods *)

(** [String(v)]: how a value converts to a string. *)
Fixpoint toString (v : json) : string :=
  match v with
  | JNull => "null"
  | JBool true => "true"
  | JBool false => "false"
  | JNum n => JSString.toStringRadix 10 n
  | JStr s => s
  | JArr l =>
      String.concat ","
        (map (fun x => match x with JNull => EmptyString | _ => toString x end) l)
  | JObj _ => "[object Object]"
  end.

(** [a === b] for two values read from JSON at different places: numbers,
    strings, booleans and [null] are compared by value, an array or an
    object is equal to itself only. *)
Definition strict_equal (a b : json) : bool :=
  match a, b with
  | JNull, JNull => true
  | JBool x, JBool y => Bool.eqb x y
  | JNum x, JNum y => Z.eqb x y
  | JStr x, JStr y => String.eqb x y
  | _, _ => false
  end.

(** Whether a value is truthy; [None] is [undefined]. *)
Definition truthy_value (v : option json) : bool :=
  match v with
  | None | Some JNull => false
  | Some (JBool b) => b
  | Some (JNum n) => negb (n =? 0)%Z
  | Some (JStr s) => truthy s
  | Some (JArr _) | Some (JObj _) => true
  end.

(** [localStorage.removeItem(key)]. *)
Definition removeItem (key : string) : M unit := fun w =>
  (Ok tt, with_localStorage (delete key (localStorage w)) w).

(** [Array.prototype.slice(start, end)]: a negative index counts from
    the end. *)
Definition relative_index (len i : Z) : Z :=
  if (i <? 0)%Z then Z.max (len + i) 0 else Z.min i len.

Definition slice {A} (start finish : Z) (l : list A) : list A :=
  let len := Z.of_nat (length l) in
  let k := relative_index len start in
  let final := relative_index len finish in
  take (Z.to_nat (final - k)) (drop (Z.to_nat k) l).

(** [Math.ceil(n / d)] for two integers, [d] positive. *)
Definition ceil_div (n d : Z) : Z := (- ((- n) / d))%Z.

(** [items.filter(predicate)] for a predicate that may throw. *)
Fixpoint filter_with (predicate : json -> result bool) (items : list json)
    : result (list json) :=
  match items with
  | [] => Ok []
  | item :: rest =>
      match predicate item with
      | Throw e => Throw e
      | Ok keep =>
          match filter_with predicate rest with
          | Throw e => Throw e
          | Ok kept => Ok (if keep then item :: kept else kept)
          end
      end
  end.

(** [item[k].toLowerCase()]. *)
Definition lower_of (item : json) (k : string) : result string :=
  match item with
  | JNull => Throw TypeError
  | _ => match prop item k with
         | Some (JStr s) => Ok (JSString.toLowerCase s)
         | _ => Throw TypeError
         end
  end.

(** ** The data loader: [src/utils/dataLoader.ts] *)

Module DataLoader.
Section with_json.
Context `{JSON}.

Definition DATA_URL : string := "/data/navigation.json".
Definition LOCAL_STORAGE_KEY : string := "navigation_data".

Definition isValidNavigationData (data : json) : bool :=
  String.eqb (typeof (Some data)) "object"
  && negb (is_null data)
  && isArray (prop data "items")
  && String.eqb (typeof (prop data "lastUpdated")) "string".

(** The first [try] block of [loadNavigationData]: [Some] is its
    [return parsedData], [None] is falling out of the block. *)
Definition readLocal : M (option json) :=
  try_catch
    (localData ← getItem LOCAL_STORAGE_KEY;
     match localData with
     | Some text =>
         if truthy text then
           parsedData ← parse text;
           if isValidNavigationData parsedData then mret (Some parsedData)
           else mret None
         else mret None
     | None => mret None
     end)
    (fun _ => mret None).

(** The second [try] block: the request for the bundled file. *)
Definition fetchBundled : M json :=
  try_catch
    (response ← fetch DATA_URL;
     if negb (ok response) then
       throw (Error ("Failed to fetch navigation data: " +:+ pretty (status response)
                     +:+ " " +:+ statusText response))
     else
       data ← parse (body response);
       if negb (isValidNavigationData data) then
         throw (Error "Invalid navigation data structure")
       else mret data)
    (fun error => throw error).

Definition loadNavigationData : M json :=
  localData ← readLocal;
  match localData with
  | Some parsedData => mret parsedData
  | None => fetchBundled
  end.

Definition loadNavigationItems : M (option json) :=
  data ← loadNavigationData;
  mret (prop data "items").

(** [item.category], where [forEach] is called on it. *)
Definition category_of (item : json) : result (list json) :=
  match item with
  | JNull => Throw TypeError
  | _ => match prop item "category" with
         | Some (JArr categories) => Ok categories
         | _ => Throw TypeError
         end
  end.

(** [categoriesSet.add(category)]: a [Set] keeps its values in the order
    they were first added. *)
Definition set_add (set : list json) (category : json) : list json :=
  if existsb (strict_equal category) set then set else set ++ [category].

(** The outer [forEach]. *)
Fixpoint add_categories (set : list json) (items : list json) : result (list json) :=
  match items with
  | [] => Ok set
  | item :: rest =>
      match category_of item with
      | Ok categories => add_categories (fold_left set_add categories set) rest
      | Throw e => Throw e
      end
  end.

(** [array.sort()]: the values in the order of their strings, compared
    code unit by code unit; values with equal strings keep their order.
    There is one such arrangement, and insertion gives it. *)
Fixpoint insert_sorted (x : json) (sorted : list json) : list json :=
  match sorted with
  | [] => [x]
  | y :: rest =>
      if String.leb (toString x) (toString y) then x :: sorted
      else y :: insert_sorted x rest
  end.

Definition sort (array : list json) : list json := foldr insert_sorted [] array.

Definition getUniqueCategories (items : list json) : result (list json) :=
  match add_categories [] items with
  | Ok categoriesSet => Ok (sort categoriesSet)
  | Throw e => Throw e
  end.

End with_json.
End DataLoader.

(** ** Records *)

(** Modelled from the spec: the declaration of the type [Agent]
    ([src/types/agent.ts] is not among the sources).  [AgentInput] is
    [Omit<Agent, 'id' | 'logo' | 'lastUpdated'>]: the required fields
    and the three optional ones of section 3 of the specification. *)
Record AgentInput := mkAgentInput {
  name : string;
  website : string;
  description : string;
  category : list string;
  isOpenSource : bool;
  github : option string;
  twitter : option string;
  discord : option string }.

Definition optional (k : string) (v : option string) : list (string * json) :=
  match v with
  | Some s => [(k, JStr s)]
  | None => []
  end.

(** The properties of the object [itemData]. *)
Definition input_props (i : AgentInput) : gmap string json :=
  list_to_map
    ([("name", JStr (name i)); ("website", JStr (website i));
      ("description", JStr (description i));
      ("category", JArr (JStr <$> category i));
      ("isOpenSource", JBool (isOpenSource i))]
     ++ optional "github" (github i) ++ optional "twitter" (twitter i)
     ++ optional "discord" (discord i)).

(** ** The data writer: [src/utils/dataWriter.ts] *)

(** A [File] as [FileReader.readAsText] sees it: its text, or [None] when
    reading it fails. *)
Record File := mkFile { file_text : option string }.

Module DataWriter.
Section with_json.
Context `{JSON}.

Definition LOCAL_STORAGE_KEY : string := "navigation_data".
Definition DATA_FILE_NAME : string := "navigation.json".

Definition isValidNavigationData (data : json) : bool :=
  String.eqb (typeof (Some data)) "object"
  && negb (is_null data)
  && isArray (prop data "items")
  && String.eqb (typeof (prop data "lastUpdated")) "string".

(** [item.category.every(cat => typeof cat === 'string')], read after
    [Array.isArray(item.category)]. *)
Definition every_string (v : option json) : bool :=
  match v with
  | Some (JArr cats) => forallb (fun cat => String.eqb (typeof (Some cat)) "string") cats
  | _ => false
  end.

Definition isValidItem (item : json) : bool :=
  String.eqb (typeof (Some item)) "object"
  && negb (is_null item)
  && String.eqb (typeof (prop item "id")) "string"
  && String.eqb (typeof (prop item "name")) "string"
  && String.eqb (typeof (prop item "website")) "string"
  && String.eqb (typeof (prop item "description")) "string"
  && isArray (prop item "category")
  && every_string (prop item "category")
  && String.eqb (typeof (prop item "isOpenSource")) "boolean"
  && String.eqb (typeof (prop item "lastUpdated")) "string".

Definition saveToLocalStorage (data : json) : M unit :=
  try_catch (setItem LOCAL_STORAGE_KEY (JSON_stringify data))
    (fun error => throw error).

Definition loadFromLocalStorage : M (option json) :=
  try_catch
    (data ← getItem LOCAL_STORAGE_KEY;
     match data with
     | Some text =>
         if truthy text then
           parsedData ← parse text;
           if isValidNavigationData parsedData then mret (Some parsedData)
           else mret None
         else mret None
     | None => mret None
     end)
    (fun _ => mret None).

Definition loadData : M json :=
  localData ← loadFromLocalStorage;
  match localData with
  | Some data => mret data
  | None =>
      try_catch DataLoader.loadNavigationData
        (fun _ =>
           now ← Date_toISOString;
           mret (JObj (<["lastUpdated" := JStr now]> (<["items" := JArr []]> ∅))))
  end.

Definition downloadAsJsonFile (data : json) : M unit :=
  try_catch
    (fun w => (Ok tt, with_effect (Downloaded DATA_FILE_NAME (JSON_stringify_indent data)) w))
    (fun error => throw error).

(** The promise [uploadFromJsonFile] returns: [Ok] where it resolves,
    [Throw] where it rejects. *)
Definition uploadFromJsonFile (file : File) : result json :=
  match file_text file with
  | Some text =>
      match JSON_parse text with
      | Some data =>
          if isValidNavigationData data then Ok data
          else Throw (Error "Invalid navigation data structure in uploaded file")
      | None => Throw (Error "Error parsing uploaded JSON file")
      end
  | None => Throw (Error "Error reading uploaded file")
  end.

Definition generateId (name : string) : M string :=
  now ← Date_now;
  mret (JSString.strip_non_id (JSString.replace_spaces (JSString.toLowerCase name))
        +:+ "-" +:+ JSString.toStringRadix 36 now).

(** [ToInt32] on an integer. *)
Definition toInt32 (n : Z) : Z := ((n + 2 ^ 31) mod 2 ^ 32 - 2 ^ 31)%Z.

(** The first loop of [stringToColor]: [hash << 5] is a 32-bit shift,
    the subtraction and the addition are those of numbers. *)
Fixpoint hash_from (hash : Z) (str : string) : Z :=
  match str with
  | EmptyString => hash
  | String c str' =>
      hash_from (Z.of_nat (JSString.code c) + (toInt32 (Z.shiftl (toInt32 hash) 5) - hash))%Z str'
  end.

Definition color_byte (hash : Z) (i : Z) : string :=
  let value := Z.land (Z.shiftr (toInt32 hash) (i * 8)) 255 in
  JSString.substr_last 2 ("00" +:+ JSString.toStringRadix 16 value).

Definition stringToColor (str : string) : string :=
  let hash := hash_from 0 str in
  "#" +:+ color_byte hash 0 +:+ color_byte hash 1 +:+ color_byte hash 2.

Definition getInitials (name : string) : string :=
  JSString.slice0 2
    (JSString.toUpperCase
       (JSString.join_units (JSString.first_unit <$> JSString.split_space name))).

Definition generateDefaultLogo (name : string) : json :=
  JObj (<["bgColor" := JStr (stringToColor name)]>
        (<["text" := JStr (getInitials name)]> ∅)).

(** [data.items] where an array method is called on it. *)
Definition items_of (data : json) : result (list json) :=
  match data with
  | JNull => Throw TypeError
  | _ => match prop data "items" with
         | Some (JArr items) => Ok items
         | _ => Throw TypeError
         end
  end.

(** [item.id === id]; reading a property of [null] throws. *)
Definition has_id (id : string) (item : json) : result bool :=
  match item with
  | JNull => Throw TypeError
  | _ => Ok (is_string (prop item "id") id)
  end.

(** [items.some(existingItem => existingItem.id === id)]. *)
Fixpoint some_has_id (id : string) (items : list json) : result bool :=
  match items with
  | [] => Ok false
  | item :: rest =>
      match has_id id item with
      | Ok true => Ok true
      | Ok false => some_has_id id rest
      | Throw e => Throw e
      end
  end.

(** [items.findIndex(item => item.id === itemId)]; [None] is [-1].  An
    index it returns is below the length of [items], where the assignment
    [updatedItems[itemIndex] = updatedItem] is the list update. *)
Fixpoint findIndex_id (itemId : string) (items : list json) : result (option nat) :=
  match items with
  | [] => Ok None
  | item :: rest =>
      match has_id itemId item with
      | Ok true => Ok (Some 0%nat)
      | Ok false =>
          match findIndex_id itemId rest with
          | Ok index => Ok (S <$> index)
          | Throw e => Throw e
          end
      | Throw e => Throw e
      end
  end.

(** [items.filter(item => item.id !== itemId)]. *)
Fixpoint filter_not_id (itemId : string) (items : list json) : result (list json) :=
  match items with
  | [] => Ok []
  | item :: rest =>
      match has_id itemId item with
      | Ok found =>
          match filter_not_id itemId rest with
          | Ok kept => Ok (if found then kept else item :: kept)
          | Throw e => Throw e
          end
      | Throw e => Throw e
      end
  end.

(** The object literal [{...currentData, items, lastUpdated}] of the three
    mutations. *)
Definition updatedData (currentData : json) (items : list json) (now : string) : json :=
  JObj (<["lastUpdated" := JStr now]> (<["items" := JArr items]> (spread (Some currentData)))).

(** The object literal [{...itemData, id, logo, lastUpdated}] of
    [addItem]. *)
Definition newItem (itemData : AgentInput) (id : string) (logo : json) (now : string) : json :=
  JObj (<["lastUpdated" := JStr now]>
        (<["logo" := logo]> (<["id" := JStr id]> (input_props itemData)))).

(** The object literal [{...existingItem, ...updatedItemData, lastUpdated}]
    of [updateItem]. *)
Definition updatedItem (existingItem : option json) (updatedItemData : AgentInput)
    (now : string) : json :=
  JObj (<["lastUpdated" := JStr now]> (input_props updatedItemData ∪ spread existingItem)).

(** The double quote of the messages. *)
Definition dq : string := String (ascii_of_nat 34) EmptyString.

Definition addItem (itemData : AgentInput) : M (list json) :=
  try_catch
    (currentData ← loadData;
     id ← generateId (name itemData);
     let logo := generateDefaultLogo (name itemData) in
     now ← Date_toISOString;
     let item := newItem itemData id logo now in
     items ← lift (items_of currentData);
     exists_ ← lift (some_has_id id items);
     if (exists_ : bool) then
       throw (Error ("Item with id " +:+ dq +:+ id +:+ dq +:+ " already exists"))
     else
       now' ← Date_toISOString;
       let updated := updatedData currentData (items ++ [item]) now' in
       saveToLocalStorage updated;;
       mret (items ++ [item]))
    (fun error => throw error).

Definition updateItem (itemId : string) (updatedItemData : AgentInput) : M (list json) :=
  try_catch
    (currentData ← loadData;
     items ← lift (items_of currentData);
     itemIndex ← lift (findIndex_id itemId items);
     match itemIndex with
     | None =>
         throw (Error ("Item with id " +:+ dq +:+ itemId +:+ dq +:+ " not found"))
     | Some i =>
         let existingItem := items !! i in
         now ← Date_toISOString;
         let item := updatedItem existingItem updatedItemData now in
         let updatedItems := <[i := item]> items in
         now' ← Date_toISOString;
         let updated := updatedData currentData updatedItems now' in
         saveToLocalStorage updated;;
         mret updatedItems
     end)
    (fun error => throw error).

Definition deleteItem (itemId : string) : M (list json) :=
  try_catch
    (currentData ← loadData;
     items ← lift (items_of currentData);
     updatedItems ← lift (filter_not_id itemId items);
     if (length updatedItems =? length items)%nat then
       throw (Error ("Item with id " +:+ dq +:+ itemId +:+ dq +:+ " not found"))
     else
       now ← Date_toISOString;
       let updated := updatedData currentData updatedItems now in
       saveToLocalStorage updated;;
       mret updatedItems)
    (fun error => throw error).

End with_json.
End DataWriter.

(** ** The admin session: [AuthUtils], which the pages import from
    [utils/auth] *)

Module AuthUtils.
Section with_platform.
Context `{JSON}.
(** [import.meta.env.VITE_ADMIN_PASSWORD]; [None] when it is not set. *)
Variable VITE_ADMIN_PASSWORD : option string.
(** The platform's [now > Number(text)] for a text that is not known to
    be a number. *)
Variable later_than_text : Z -> string -> bool.

Definition STORAGE_KEY : string := "admin_auth_state".
Definition TOKEN_EXPIRY : Z := (24 * 60 * 60 * 1000)%Z.

Definition ADMIN_PASSWORD : string :=
  match VITE_ADMIN_PASSWORD with
  | Some password => if truthy password then password else "default_password"
  | None => "default_password"
  end.

Definition base64_digits : list ascii :=
  list_ascii_of_string "ABCDEFGHIJKLMNOPQRSTUVWXYZabcdefghijklmnopqrstuvwxyz0123456789+/".

Definition base64_digit (n : nat) : ascii := nth (n mod 64) base64_digits "="%char.

(** [btoa(s)] on the code units of [s]. *)
Fixpoint btoa_units (units : list nat) : string :=
  match units with
  | a :: b :: c :: rest =>
      String (base64_digit (a / 4))
        (String (base64_digit (a mod 4 * 16 + b / 16))
           (String (base64_digit (b mod 16 * 4 + c / 64))
              (String (base64_digit (c mod 64)) (btoa_units rest))))
  | [a; b] =>
      String (base64_digit (a / 4))
        (String (base64_digit (a mod 4 * 16 + b / 16))
           (String (base64_digit (b mod 16 * 4)) "="))
  | [a] =>
      String (base64_digit (a / 4)) (String (base64_digit (a mod 4 * 16)) "==")
  | [] => EmptyString
  end.

Definition btoa (s : string) : string :=
  btoa_units (JSString.code <$> list_ascii_of_string s).

(** [generateToken]: [randomBytes] is what [crypto.getRandomValues] has
    written into the array of 32 bytes. *)
Definition generateToken (randomBytes : list ascii) : string :=
  btoa (string_of_list_ascii randomBytes).

Definition login (randomBytes : list ascii) (password : string) : M bool :=
  if String.eqb password ADMIN_PASSWORD then
    let token := generateToken randomBytes in
    now ← Date_now;
    let expiresAt := (now + TOKEN_EXPIRY)%Z in
    let authState :=
      JObj (<["isAuthenticated" := JBool true]>
            (<["token" := JStr token]> (<["expiresAt" := JNum expiresAt]> ∅))) in
    setItem STORAGE_KEY (JSON_stringify authState);;
    mret true
  else mret false.

Definition logout : M unit := removeItem STORAGE_KEY.

(** [null] is [JNull]. *)
Definition getAuthState : M json :=
  try_catch
    (stored ← getItem STORAGE_KEY;
     match stored with
     | Some text => if truthy text then parse text else mret JNull
     | None => mret JNull
     end)
    (fun _ => mret JNull).

(** [Date.now() > v]: the value is converted to a number. *)
Definition later_than (now : Z) (v : option json) : bool :=
  match v with
  | None => false
  | Some JNull => (0 <? now)%Z
  | Some (JBool b) => ((if b then 1 else 0) <? now)%Z
  | Some (JNum n) => (n <? now)%Z
  | Some (JStr s) => later_than_text now s
  | Some (JArr l) => later_than_text now (toString (JArr l))
  | Some (JObj _) => false
  end.

Definition isAuthenticated : M bool :=
  authState ← getAuthState;
  if negb (truthy_value (prop authState "isAuthenticated"))
     || negb (truthy_value (prop authState "token"))
  then mret false
  else if truthy_value (prop authState "expiresAt") then
    now ← Date_now;
    if later_than now (prop authState "expiresAt") then logout;; mret false
    else mret true
  else mret true.

Definition isPasswordConfigured : bool :=
  negb (String.eqb ADMIN_PASSWORD "default_password").

End with_platform.
End AuthUtils.

(** ** The guard of the admin route: [src/components/AuthGuard.tsx] *)

(** What a route element renders. *)
Inductive element (A : Type) :=
| Navigate (to : string)
| Children (children : A)
| Outlet.
Arguments Navigate {A} to.
Arguments Children {A} children.
Arguments Outlet {A}.

(** [children] is [None] when the guard has none, or a falsy one. *)
Definition AuthGuard `{JSON} (later_than_text : Z -> string -> bool) {A}
    (children : option A) : M (element A) :=
  isAuthenticated ← AuthUtils.isAuthenticated later_than_text;
  if negb isAuthenticated then mret (Navigate "/login")
  else mret (match children with Some c => Children c | None => Outlet end).

(** ** The admin page: [src/pages/AdminPage.tsx] *)

Module AdminPage.
Section with_json.
Context `{JSON}.

(** [setItems(v)]. *)
Definition setItems (v : option json) : M unit := fun w =>
  (Ok tt, with_admin_items v w).

Definition handleExportData : M unit :=
  try_catch
    (data ← DataLoader.loadNavigationData;
     DataWriter.downloadAsJsonFile data)
    (fun _ => alert "Failed to export data. Please try again.").

(** [file] is [e.target.files?.[0]]. *)
Definition handleImportData (file : option File) : M unit :=
  match file with
  | Some f =>
      try_catch
        (data ← lift (DataWriter.uploadFromJsonFile f);
         setItems (prop data "items");;
         alert "Data imported successfully!")
        (fun _ =>
           alert "Failed to import data. Please check the file format and try again.")
  | None => mret tt
  end.

Definition itemsPerPage : Z := 10.

(** The effect that follows [searchTerm] and [items]: its predicate. *)
Definition matchesSearch (searchTerm : string) (item : json) : result bool :=
  match lower_of item "name" with
  | Throw e => Throw e
  | Ok name =>
      if JSString.includes name (JSString.toLowerCase searchTerm) then Ok true
      else match lower_of item "description" with
           | Throw e => Throw e
           | Ok description =>
               if JSString.includes description (JSString.toLowerCase searchTerm) then Ok true
               else match lower_of item "id" with
                    | Throw e => Throw e
                    | Ok id => Ok (JSString.includes id (JSString.toLowerCase searchTerm))
                    end
           end
  end.

(** What the effect passes to [setFilteredItems] and to
    [setCurrentPage]. *)
Definition filterEffect (searchTerm : string) : M (list json * Z) := fun w =>
  match admin_items w with
  | Some (JArr items) =>
      match filter_with (matchesSearch searchTerm) items with
      | Ok result => (Ok (result, 1%Z), w)
      | Throw e => (Throw e, w)
      end
  | _ => (Throw TypeError, w)
  end.

(** The items of the page shown, from [filteredItems] and [currentPage]. *)
Definition currentItems (currentPage : Z) (filteredItems : list json) : list json :=
  let indexOfLastItem := (currentPage * itemsPerPage)%Z in
  let indexOfFirstItem := (indexOfLastItem - itemsPerPage)%Z in
  slice indexOfFirstItem indexOfLastItem filteredItems.

Definition totalPages (filteredItems : list json) : Z :=
  ceil_div (Z.of_nat (length filteredItems)) itemsPerPage.

(** The page the three kinds of pagination buttons ask for. *)
Definition previousPage (currentPage : Z) : Z := Z.max 1 (currentPage - 1).
Definition nextPage (filteredItems : list json) (currentPage : Z) : Z :=
  Z.min (totalPages filteredItems) (currentPage + 1).
Definition pageNumbers (filteredItems : list json) : list Z :=
  (fun i => Z.of_nat i + 1)%Z <$> seq 0 (Z.to_nat (totalPages filteredItems)).

(** The dialogs of the page: the form and the confirmation.  The item
    that is edited or about to be deleted is kept by its [id], a string
    by the item's declared type; [None] is [undefined] or [null]. *)
Record Dialogs := mkDialogs {
  showForm : bool;
  editingItem : option string;
  showDeleteConfirm : bool;
  selectedItem : option string }.

Definition handleDeleteItem (item : string) (d : Dialogs) : Dialogs :=
  mkDialogs (showForm d) (editingItem d) true (Some item).

Definition handleFormCancel (d : Dialogs) : Dialogs :=
  mkDialogs false None (showDeleteConfirm d) (selectedItem d).

Definition handleFormSubmit (formData : AgentInput) (d : Dialogs) : M Dialogs :=
  try_catch
    (updatedItems ← match editingItem d with
                    | Some id => DataWriter.updateItem id formData
                    | None => DataWriter.addItem formData
                    end;
     setItems (Some (JArr updatedItems));;
     alert "Operation successful!";;
     mret (mkDialogs false None (showDeleteConfirm d) (selectedItem d)))
    (fun _ =>
       alert "Failed to save item. Please try again.";;
       mret d).

Definition confirmDeleteItem (d : Dialogs) : M Dialogs :=
  match selectedItem d with
  | Some id =>
      try_catch
        (updatedItems ← DataWriter.deleteItem id;
         setItems (Some (JArr updatedItems));;
         alert "Item deleted successfully!";;
         mret (mkDialogs (showForm d) (editingItem d) false None))
        (fun _ =>
           alert "Failed to delete item. Please try again.";;
           mret d)
  | None => mret d
  end.

End with_json.
End AdminPage.

(** ** The home page: [src/pages/HomePage.tsx] *)

Module HomePage.

(** [agent.category.includes(selectedCategory)]: the method of an array,
    or that of a string. *)
Definition category_includes (agent : json) (selectedCategory : string) : result bool :=
  match agent with
  | JNull => Throw TypeError
  | _ => match prop agent "category" with
         | Some (JArr categories) => Ok (existsb (strict_equal (JStr selectedCategory)) categories)
         | Some (JStr s) => Ok (JSString.includes s selectedCategory)
         | _ => Throw TypeError
         end
  end.

(** The predicate of [filteredAgents]; [selectedCategory] is [None] when
    it is [null]. *)
Definition matches (selectedCategory : option string) (searchTerm : string) (agent : json)
    : result bool :=
  let matchesCategory :=
    match selectedCategory with
    | Some category =>
        if truthy category then category_includes agent category else Ok true
    | None => Ok true
    end in
  match matchesCategory with
  | Throw e => Throw e
  | Ok matchesCategory =>
      let matchesSearch :=
        if negb (truthy searchTerm) then Ok true
        else match lower_of agent "name" with
             | Throw e => Throw e
             | Ok name =>
                 if JSString.includes name (JSString.toLowerCase searchTerm) then Ok true
                 else match lower_of agent "description" with
                      | Throw e => Throw e
                      | Ok description =>
                          Ok (JSString.includes description (JSString.toLowerCase searchTerm))
                      end
             end in
      match matchesSearch with
      | Throw e => Throw e
      | Ok matchesSearch => Ok (matchesCategory && matchesSearch)
      end
  end.

Definition filteredAgents (selectedCategory : option string) (searchTerm : string)
    (agents : list json) : result (list json) :=
  filter_with (matches selectedCategory searchTerm) agents.

End HomePage.

(** ** The form: [src/components/NavigationForm.tsx]

    [formData] is the object the form keeps; a handler is run on the
    state that was rendered. *)

Module NavigationForm.
Section with_platform.
(** Whether [new URL(text)] returns. *)
Variable URL_parses : string -> bool.

(** [formData.category?.includes(category)]; [None] is [undefined]. *)
Definition category_includes (formData : gmap string json) (category : string)
    : result (option bool) :=
  match formData !! "category" with
  | None | Some JNull => Ok None
  | Some (JArr categories) => Ok (Some (existsb (strict_equal (JStr category)) categories))
  | Some (JStr s) => Ok (Some (JSString.includes s category))
  | Some _ => Throw TypeError
  end.

(** [[...(prev.category || [])]]. *)
Definition category_elements (prev : gmap string json) : result (list json) :=
  match prev !! "category" with
  | Some (JArr categories) => Ok categories
  | Some (JStr s) =>
      Ok ((fun c => JStr (String c EmptyString)) <$> list_ascii_of_string s)
  | Some v => if truthy_value (Some v) then Throw TypeError else Ok []
  | None => Ok []
  end.

(** The state the handler leaves: [formData] and [newCategory]. *)
Definition handleAddCategory (newCategory : string) (formData : gmap string json)
    : result (gmap string json * string) :=
  if truthy (JSString.trim newCategory) then
    match category_includes formData (JSString.trim newCategory) with
    | Throw e => Throw e
    | Ok (Some true) => Ok (formData, newCategory)
    | Ok _ =>
        match category_elements formData with
        | Throw e => Throw e
        | Ok categories =>
            Ok (<["category" := JArr (categories ++ [JStr (JSString.trim newCategory)])]> formData,
                EmptyString)
        end
    end
  else Ok (formData, newCategory).

Definition handleRemoveCategory (categoryToRemove : string) (prev : gmap string json)
    : result (gmap string json) :=
  match prev !! "category" with
  | None | Some JNull => Ok (<["category" := JArr []]> prev)
  | Some (JArr categories) =>
      Ok (<["category" :=
              JArr (List.filter (fun category => negb (strict_equal category (JStr categoryToRemove)))
                      categories)]> prev)
  | Some _ => Throw TypeError
  end.

(** [formData[k]?.trim()], as the condition reads it: whether it is
    truthy. *)
Definition trimmed_truthy (formData : gmap string json) (k : string) : result bool :=
  match formData !! k with
  | None | Some JNull => Ok false
  | Some (JStr s) => Ok (truthy (JSString.trim s))
  | Some _ => Throw TypeError
  end.

(** [!formData.category || formData.category.length === 0]. *)
Definition category_missing (formData : gmap string json) : bool :=
  match formData !! "category" with
  | Some (JArr categories) => (length categories =? 0)%nat
  | Some (JStr s) => negb (truthy s)
  | Some (JObj m) => match m !! "length" with Some (JNum 0) => true | _ => false end
  | v => negb (truthy_value v)
  end.

(** The keys of [newErrors]. *)
Definition validationErrors (formData : gmap string json) : result (list string) :=
  match trimmed_truthy formData "name" with
  | Throw e => Throw e
  | Ok name =>
      match trimmed_truthy formData "website" with
      | Throw e => Throw e
      | Ok website =>
          let websiteError :=
            if website
            then match formData !! "website" with
                 | Some (JStr text) => negb (URL_parses text)
                 | _ => true
                 end
            else true in
          match trimmed_truthy formData "description" with
          | Throw e => Throw e
          | Ok description =>
              Ok ((if name then [] else ["name"])
                  ++ (if websiteError then ["website"] else [])
                  ++ (if description then [] else ["description"])
                  ++ (if category_missing formData then ["category"] else []))
          end
      end
  end.

Definition validateForm (formData : gmap string json) : result bool :=
  match validationErrors formData with
  | Ok errors => Ok (length errors =? 0)%nat
  | Throw e => Throw e
  end.

(** What [handleSubmit] passes to [onSubmit]; [None] when it does not
    call it. *)
Definition handleSubmit (formData : gmap string json) : result (option (gmap string json)) :=
  match validateForm formData with
  | Throw e => Throw e
  | Ok true => Ok (Some (delete "logo" (delete "id" formData)))
  | Ok false => Ok None
  end.

End with_platform.
End NavigationForm.

(** ** A reference codec

    A printer and a parser for [json], to run the model on concrete
    worlds.  Numbers are integers in decimal notation. *)

Module RefJSON.
Import JSString.

Definition bs : string := String (ascii_of_nat 92) EmptyString.
Definition dq : string := String (ascii_of_nat 34) EmptyString.
Definition nl : string := String (ascii_of_nat 10) EmptyString.

Definition escape_unit (c : ascii) : string :=
  let n := code c in
  if (n =? 34)%nat then bs +:+ dq
  else if (n =? 92)%nat then bs +:+ bs
  else if (n =? 8)%nat then bs +:+ "b"
  else if (n =? 9)%nat then bs +:+ "t"
  else if (n =? 10)%nat then bs +:+ "n"
  else if (n =? 12)%nat then bs +:+ "f"
  else if (n =? 13)%nat then bs +:+ "r"
  else if (n <? 32)%nat then
    bs +:+ "u00" +:+ substr_last 2 ("00" +:+ toStringRadix 16 (Z.of_nat n))
  else String c EmptyString.

Fixpoint escape (s : string) : string :=
  match s with
  | EmptyString => EmptyString
  | String c s' => escape_unit c +:+ escape s'
  end.

Definition quote (s : string) : string := dq +:+ escape s +:+ dq.

Definition join (sep : string) (parts : list string) : string :=
  String.concat sep parts.

(** [JSON.stringify(v)]. *)
Fixpoint stringify (v : json) : string :=
  match v with
  | JNull => "null"
  | JBool true => "true"
  | JBool false => "false"
  | JNum n => toStringRadix 10 n
  | JStr s => quote s
  | JArr l => "[" +:+ join "," (map stringify l) +:+ "]"
  | JObj m =>
      "{" +:+ join "," (map_fold (fun k x acc => (quote k +:+ ":" +:+ stringify x) :: acc) [] m)
      +:+ "}"
  end.

Definition spaces (n : nat) : string :=
  String.concat EmptyString (replicate n " ").

Definition block (opening closing : string) (depth : nat) (parts : list string) : string :=
  match parts with
  | [] => opening +:+ closing
  | _ =>
      opening +:+ nl +:+ spaces (2 * S depth)
      +:+ join ("," +:+ nl +:+ spaces (2 * S depth)) parts
      +:+ nl +:+ spaces (2 * depth) +:+ closing
  end.

(** [JSON.stringify(v, null, 2)] at nesting [depth]. *)
Fixpoint stringify_at (depth : nat) (v : json) : string :=
  match v with
  | JArr l => block "[" "]" depth (map (stringify_at (S depth)) l)
  | JObj m =>
      block "{" "}" depth
        (map_fold (fun k x acc => (quote k +:+ ": " +:+ stringify_at (S depth) x) :: acc) [] m)
  | _ => stringify v
  end.

Definition is_char (c : ascii) (s : string) : bool :=
  String.eqb (String c EmptyString) s.

Fixpoint skip_ws (s : string) : string :=
  match s with
  | String c s' =>
      if is_char c " " || (code c =? 9)%nat || (code c =? 10)%nat || (code c =? 13)%nat
      then skip_ws s' else s
  | EmptyString => EmptyString
  end.

Fixpoint strip_prefix (p s : string) : option string :=
  match p, s with
  | EmptyString, _ => Some s
  | String a p', String b s' => if Ascii.eqb a b then strip_prefix p' s' else None
  | _, _ => None
  end.

Definition hex_value (c : ascii) : option nat :=
  if between 48 57 c then Some (code c - 48)
  else if between 97 102 c then Some (code c - 87)
  else if between 65 70 c then Some (code c - 55)
  else None.

Definition unescape (c : ascii) : option ascii :=
  if is_char c "b" then Some (ascii_of_nat 8)
  else if is_char c "t" then Some (ascii_of_nat 9)
  else if is_char c "n" then Some (ascii_of_nat 10)
  else if is_char c "f" then Some (ascii_of_nat 12)
  else if is_char c "r" then Some (ascii_of_nat 13)
  else if is_char c "/" || (code c =? 34)%nat || (code c =? 92)%nat then Some c
  else None.

(** The code units of a string literal after its opening quote, and what
    follows its closing quote. *)
Fixpoint parse_units (s : string) : option (string * string) :=
  match s with
  | EmptyString => None
  | String c s' =>
      if (code c =? 34)%nat then Some (EmptyString, s')
      else if (code c =? 92)%nat then
        match s' with
        | String e s'' =>
            if is_char e "u" then
              match s'' with
              | String h1 (String h2 (String h3 (String h4 rest))) =>
                  match hex_value h1, hex_value h2, hex_value h3, hex_value h4, parse_units rest with
                  | Some 0%nat, Some 0%nat, Some a, Some b, Some (units, rest') =>
                      Some (String (ascii_of_nat (16 * a + b)) units, rest')
                  | _, _, _, _, _ => None
                  end
              | _ => None
              end
            else
              match unescape e, parse_units s'' with
              | Some u, Some (units, rest') => Some (String u units, rest')
              | _, _ => None
              end
        | EmptyString => None
        end
      else if (code c <? 32)%nat then None
      else
        match parse_units s' with
        | Some (units, rest') => Some (String c units, rest')
        | None => None
        end
  end.

Fixpoint parse_digits (acc : Z) (s : string) : Z * string :=
  match s with
  | String c s' =>
      if between 48 57 c then parse_digits (acc * 10 + Z.of_nat (code c - 48)) s'
      else (acc, s)
  | EmptyString => (acc, s)
  end.

Definition starts_with_digit (s : string) : bool :=
  match s with
  | String c _ => between 48 57 c
  | EmptyString => false
  end.

Definition next_is (c : string) (s : string) : option string :=
  strip_prefix c (skip_ws s).

(** A value at the head of [s] and what follows it; [fuel] bounds the
    number of values, elements and members read. *)
Fixpoint parse_value (fuel : nat) (s : string) : option (json * string) :=
  match fuel with
  | O => None
  | S fuel' =>
      let s := skip_ws s in
      match strip_prefix "null" s, strip_prefix "true" s, strip_prefix "false" s with
      | Some rest, _, _ => Some (JNull, rest)
      | _, Some rest, _ => Some (JBool true, rest)
      | _, _, Some rest => Some (JBool false, rest)
      | _, _, _ =>
          match strip_prefix dq s, strip_prefix "[" s, strip_prefix "{" s, strip_prefix "-" s with
          | Some rest, _, _, _ =>
              match parse_units rest with
              | Some (units, rest') => Some (JStr units, rest')
              | None => None
              end
          | _, Some rest, _, _ =>
              match next_is "]" rest with
              | Some rest' => Some (JArr [], rest')
              | None =>
                  match parse_elements fuel' rest with
                  | Some (l, rest') => Some (JArr l, rest')
                  | None => None
                  end
              end
          | _, _, Some rest, _ =>
              match next_is "}" rest with
              | Some rest' => Some (JObj ∅, rest')
              | None =>
                  match parse_members fuel' rest with
                  | Some (m, rest') => Some (JObj m, rest')
                  | None => None
                  end
              end
          | _, _, _, Some rest =>
              if starts_with_digit rest
              then let '(n, rest') := parse_digits 0 rest in Some (JNum (- n), rest')
              else None
          | _, _, _, _ =>
              if starts_with_digit s
              then let '(n, rest') := parse_digits 0 s in Some (JNum n, rest')
              else None
          end
      end
  end
with parse_elements (fuel : nat) (s : string) : option (list json * string) :=
  match fuel with
  | O => None
  | S fuel' =>
      match parse_value fuel' s with
      | Some (v, rest) =>
          match next_is "]" rest, next_is "," rest with
          | Some rest', _ => Some ([v], rest')
          | _, Some rest' =>
              match parse_elements fuel' rest' with
              | Some (l, rest'') => Some (v :: l, rest'')
              | None => None
              end
          | _, _ => None
          end
      | None => None
      end
  end
with parse_members (fuel : nat) (s : string) : option (gmap string json * string) :=
  match fuel with
  | O => None
  | S fuel' =>
      match next_is dq s with
      | Some rest =>
          match parse_units rest with
          | Some (k, rest1) =>
              match next_is ":" rest1 with
              | Some rest2 =>
                  match parse_value fuel' rest2 with
                  | Some (v, rest3) =>
                      match next_is "}" rest3, next_is "," rest3 with
                      | Some rest', _ => Some ({[k := v]}, rest')
                      | _, Some rest' =>
                          match parse_members fuel' rest' with
                          | Some (m, rest'') =>
                              Some (match m !! k with Some _ => m | None => <[k := v]> m end, rest'')
                          | None => None
                          end
                      | _, _ => None
                      end
                  | None => None
                  end
              | None => None
              end
          | None => None
          end
      | None => None
      end
  end.

(** [JSON.parse(text)]: one value and nothing but white space after it. *)
Definition parse_text (text : string) : option json :=
  match parse_value (S (String.length text)) text with
  | Some (v, rest) =>
      match skip_ws rest with
      | EmptyString => Some v
      | _ => None
      end
  | None => None
  end.

#[export] Instance codec : JSON := {
  JSON_parse := parse_text;
  JSON_stringify := stringify;
  JSON_stringify_indent := stringify_at 0 }.

End RefJSON.

(** ** The string and date methods on known values *)

Section KnownValues.

Example toISOString_epoch : JSDate.toISOString 0 = "1970-01-01T00:00:00.000Z".
Proof. reflexivity. Qed.

Example toISOString_leap_day :
  JSDate.toISOString 1709251199999 = "2024-02-29T23:59:59.999Z".
Proof. vm_compute. reflexivity. Qed.

Example toISOString_before_epoch :
  JSDate.toISOString (-1) = "1969-12-31T23:59:59.999Z".
Proof. vm_compute. reflexivity. Qed.

Example toString36_known : JSString.toStringRadix 36 1700000000000 = "loyw3v28".
Proof. vm_compute. reflexivity. Qed.

Example replace_and_strip_known :
  JSString.strip_non_id (JSString.replace_spaces (JSString.toLowerCase "Hello   World! 2.0 -x"))
  = "hello-world-20--x".
Proof. vm_compute. reflexivity. Qed.

Example split_space_known : JSString.split_space "a  b" = ["a"; ""; "b"].
Proof. reflexivity. Qed.

Example getInitials_known :
  DataWriter.getInitials "alpha beta gamma" = "AB" /\ DataWriter.getInitials "  x" = "X".
Proof. split; reflexivity. Qed.

Example stringToColor_known :
  DataWriter.stringToColor "Echo" = "#45de20"
  /\ DataWriter.hash_from 0 "Some long name to overflow the hash" = 9093248435%Z
  /\ DataWriter.stringToColor "Some long name to overflow the hash" = "#b3f5ff".
Proof. repeat split; vm_compute; reflexivity. Qed.

End KnownValues.

(** * Properties *)

(** ** How the two readers of the overlay and the request behave *)

Section Reading.
Context `{JSON}.

(** The local overlay of a world: the content of the storage slot when
    it is present, parses, and passes the collection-level check. *)
Definition overlay (w : World) : option json :=
  match localStorage w !! DataLoader.LOCAL_STORAGE_KEY with
  | Some text =>
      if truthy text then
        match JSON_parse text with
        | Some data => if DataLoader.isValidNavigationData data then Some data else None
        | None => None
        end
      else None
  | None => None
  end.

(** The world after the request for the bundled file. *)
Definition requested (w : World) : World :=
  with_effect (Fetched DataLoader.DATA_URL) w.

Lemma readLocal_overlay w : DataLoader.readLocal w = (Ok (overlay w), w).
Proof.
  unfold DataLoader.readLocal, overlay, try_catch, getItem, parse, mbind, M_bind, mret, M_ret, throw.
  destruct (localStorage w !! DataLoader.LOCAL_STORAGE_KEY) as [text|]; [|reflexivity].
  destruct (truthy text); [|reflexivity].
  destruct (JSON_parse text) as [data|]; [|reflexivity].
  destruct (DataLoader.isValidNavigationData data); reflexivity.
Qed.

Lemma loadFromLocalStorage_overlay w :
  DataWriter.loadFromLocalStorage w = (Ok (overlay w), w).
Proof. exact (readLocal_overlay w). Qed.

Lemma overlay_valid w data :
  overlay w = Some data -> DataLoader.isValidNavigationData data = true.
Proof.
  unfold overlay. intros Ho.
  destruct (localStorage w !! DataLoader.LOCAL_STORAGE_KEY) as [text|]; [|discriminate].
  destruct (truthy text); [|discriminate].
  destruct (JSON_parse text) as [d|]; [|discriminate].
  destruct (DataLoader.isValidNavigationData d) eqn:Hv; [|discriminate].
  injection Ho as <-. exact Hv.
Qed.

Lemma overlay_storage w w' :
  localStorage w' = localStorage w -> overlay w' = overlay w.
Proof. unfold overlay. intros ->. reflexivity. Qed.

Lemma loadNavigationData_run w :
  DataLoader.loadNavigationData w =
  match overlay w with
  | Some data => (Ok data, w)
  | None => DataLoader.fetchBundled w
  end.
Proof.
  unfold DataLoader.loadNavigationData, mbind, M_bind.
  rewrite readLocal_overlay. destruct (overlay w); reflexivity.
Qed.

Lemma fetchBundled_world w : snd (DataLoader.fetchBundled w) = requested w.
Proof.
  unfold DataLoader.fetchBundled, try_catch, fetch, parse, mbind, M_bind, mret, M_ret, throw, requested.
  destruct (server w) as [r|]; [|reflexivity].
  destruct (ok r); [|reflexivity]. simpl.
  destruct (JSON_parse (body r)) as [d|]; [|reflexivity].
  destruct (DataLoader.isValidNavigationData d); reflexivity.
Qed.

Lemma fetchBundled_valid w data w' :
  DataLoader.fetchBundled w = (Ok data, w') ->
  DataLoader.isValidNavigationData data = true.
Proof.
  unfold DataLoader.fetchBundled, try_catch, fetch, parse, mbind, M_bind, mret, M_ret, throw.
  destruct (server w) as [r|]; [|discriminate].
  destruct (ok r); [|discriminate]. simpl.
  destruct (JSON_parse (body r)) as [d|]; [|discriminate].
  destruct (DataLoader.isValidNavigationData d) eqn:Hv; [|discriminate].
  simpl. intros [= <- _]. exact Hv.
Qed.

(** The collection [loadData] falls back to. *)
Definition emptyCollection (now : string) : json :=
  JObj (<["lastUpdated" := JStr now]> (<["items" := JArr []]> ∅)).

Lemma loadData_run w :
  DataWriter.loadData w =
  match overlay w with
  | Some data => (Ok data, w)
  | None =>
      match DataLoader.fetchBundled w with
      | (Ok data, w') => (Ok data, w')
      | (Throw _, w') =>
          (Ok (emptyCollection (JSDate.toISOString (clock w' (ticks w')))),
           with_ticks (S (ticks w')) w')
      end
  end.
Proof.
  unfold DataWriter.loadData, mbind, M_bind.
  rewrite loadFromLocalStorage_overlay.
  destruct (overlay w) as [data|] eqn:Ho; [reflexivity|].
  unfold try_catch. rewrite loadNavigationData_run, Ho.
  destruct (DataLoader.fetchBundled w) as [[data|e] w']; reflexivity.
Qed.

End Reading.

(** ** The source reader *)

Section SourceReader.
Context `{JSON}.

(** C1.  [resolveCollection] is [DataLoader.loadNavigationData].  When the
    overlay is present and passes the collection-level check, the call
    returns the overlay content and leaves the world as it found it: no
    request is made, and the same holds in every world with the same
    storage, whatever the server would answer there.  Otherwise the
    bundled file is requested; a response whose status is not a success
    makes the call throw the error built from that status, and a payload
    that fails the check makes it throw the error that says so. *)
Theorem resolveCollection_precedence (w : World) :
  (forall data, overlay w = Some data ->
     forall w', localStorage w' = localStorage w ->
       DataLoader.loadNavigationData w' = (Ok data, w'))
  /\ (overlay w = None ->
      snd (DataLoader.loadNavigationData w) = requested w
      /\ forall r, server w = Some r ->
         (ok r = false ->
            fst (DataLoader.loadNavigationData w) =
            Throw (Error ("Failed to fetch navigation data: " +:+ pretty (status r)
                          +:+ " " +:+ statusText r)))
         /\ (ok r = true -> forall payload, JSON_parse (body r) = Some payload ->
               fst (DataLoader.loadNavigationData w) =
               if DataLoader.isValidNavigationData payload then Ok payload
               else Throw (Error "Invalid navigation data structure"))).
Proof.
  split.
  - intros data Ho w' Hs. rewrite loadNavigationData_run, (overlay_storage _ _ Hs), Ho.
    reflexivity.
  - intros Ho. rewrite loadNavigationData_run, Ho. split; [apply fetchBundled_world|].
    intros r Hr.
    unfold DataLoader.fetchBundled, try_catch, fetch, parse, mbind, M_bind, mret, M_ret, throw.
    rewrite Hr. split.
    + intros ->. reflexivity.
    + intros -> payload ->. simpl.
      destruct (DataLoader.isValidNavigationData payload); reflexivity.
Qed.

End SourceReader.

(** ** The array methods on collections of records *)

(** An item carries [id] when its [id] property is that string. *)
Definition carries (id : string) (item : json) : bool :=
  is_string (prop item "id") id.

(** The items of a collection of records: none of them is [null]. *)
Definition records (items : list json) : Prop :=
  Forall (fun item => item <> JNull) items.

Section ArrayMethods.

Lemma has_id_record id item :
  item <> JNull -> DataWriter.has_id id item = Ok (carries id item).
Proof. destruct item; intros Hn; try reflexivity. contradiction. Qed.

Lemma some_has_id_records id items :
  records items ->
  DataWriter.some_has_id id items = Ok (existsb (carries id) items).
Proof.
  induction 1 as [|item rest Hn _ IH]; [reflexivity|].
  simpl. rewrite (has_id_record _ _ Hn), IH.
  destruct (carries id item); reflexivity.
Qed.

Lemma findIndex_id_records id items :
  records items ->
  DataWriter.findIndex_id id items =
  Ok (fst <$> list_find (fun item => carries id item = true) items).
Proof.
  induction 1 as [|item rest Hn _ IH]; [reflexivity|].
  simpl. rewrite (has_id_record _ _ Hn), IH.
  destruct (carries id item) eqn:Hc.
  - rewrite decide_True by reflexivity. reflexivity.
  - rewrite decide_False by discriminate.
    destruct (list_find _ rest) as [[i x]|]; reflexivity.
Qed.

Lemma filter_not_id_records id items :
  records items ->
  DataWriter.filter_not_id id items =
  Ok (filter (fun item => carries id item = false) items).
Proof.
  induction 1 as [|item rest Hn _ IH]; [reflexivity|].
  simpl. rewrite (has_id_record _ _ Hn), IH, filter_cons.
  destruct (carries id item) eqn:Hc.
  - rewrite decide_False by discriminate. reflexivity.
  - rewrite decide_True by reflexivity. reflexivity.
Qed.

(** Filtering splits a list: what is kept and what is removed. *)
Lemma filter_carries_length id (items : list json) :
  length items =
  (length (filter (fun item => carries id item = false) items)
   + length (filter (fun item => carries id item = true) items))%nat.
Proof.
  induction items as [|item rest IH]; [reflexivity|].
  rewrite !filter_cons. destruct (carries id item) eqn:Hc.
  - rewrite decide_False by discriminate. rewrite decide_True by reflexivity.
    simpl. lia.
  - rewrite decide_True by reflexivity. rewrite decide_False by discriminate.
    simpl. lia.
Qed.

(** A [null] among the items makes the three methods throw where they
    reach it: this is why the contracts below are stated for [records]. *)
Remark null_item_throws id rest :
  DataWriter.some_has_id id (JNull :: rest) = Throw TypeError
  /\ DataWriter.findIndex_id id (JNull :: rest) = Throw TypeError
  /\ DataWriter.filter_not_id id (JNull :: rest) = Throw TypeError.
Proof. repeat split; reflexivity. Qed.

End ArrayMethods.

(** ** How the three mutations run *)

Section Mutations.
Context `{JSON}.

(** The id [generateId] builds from a name at a clock reading. *)
Definition idOf (name : string) (now : Z) : string :=
  JSString.strip_non_id (JSString.replace_spaces (JSString.toLowerCase name))
  +:+ "-" +:+ JSString.toStringRadix 36 now.

(** The [n]-th next reading of the clock, as an ISO date for [now]. *)
Definition reading (w : World) (n : nat) : Z := clock w (n + ticks w)%nat.
Definition now (w : World) (n : nat) : string := JSDate.toISOString (reading w n).

(** The world after [n] readings of the clock. *)
Definition advance (n : nat) (w : World) : World := with_ticks (n + ticks w) w.

(** The world after [data] was written to the overlay. *)
Definition stored (data : json) (w : World) : World :=
  with_localStorage
    (<[DataWriter.LOCAL_STORAGE_KEY := JSON_stringify data]> (localStorage w)) w.

(** The storage accepts the serialisation of [data]. *)
Definition fits (data : json) (w : World) : bool :=
  (String.length (JSON_stringify data) <=? quota w)%nat.

Definition notFound (itemId : string) : exn :=
  Error ("Item with id " +:+ DataWriter.dq +:+ itemId +:+ DataWriter.dq +:+ " not found").

Definition duplicateId (id : string) : exn :=
  Error ("Item with id " +:+ DataWriter.dq +:+ id +:+ DataWriter.dq +:+ " already exists").

Lemma generateId_run name w :
  DataWriter.generateId name w = (Ok (idOf name (reading w 0)), advance 1 w).
Proof. reflexivity. Qed.

Lemma Date_toISOString_run w : Date_toISOString w = (Ok (now w 0), advance 1 w).
Proof. reflexivity. Qed.

Lemma saveToLocalStorage_run data w :
  DataWriter.saveToLocalStorage data w =
  if fits data w then (Ok tt, stored data w) else (Throw QuotaExceededError, w).
Proof.
  unfold DataWriter.saveToLocalStorage, try_catch, setItem, fits, stored.
  destruct (String.length (JSON_stringify data) <=? quota w)%nat; reflexivity.
Qed.

Lemma advance_advance n m w : advance n (advance m w) = advance (n + m) w.
Proof. unfold advance, with_ticks. simpl. f_equal. lia. Qed.

Lemma reading_advance n m w : reading (advance m w) n = reading w (n + m).
Proof. unfold reading, advance. simpl. f_equal. lia. Qed.

Lemma now_advance n m w : now (advance m w) n = now w (n + m).
Proof. unfold now. rewrite reading_advance. reflexivity. Qed.

Lemma fits_advance data n w : fits data (advance n w) = fits data w.
Proof. reflexivity. Qed.

Ltac run := unfold try_catch, lift, throw, mbind, M_bind, mret, M_ret.

Ltac step :=
  first
    [ rewrite generateId_run
    | rewrite Date_toISOString_run
    | rewrite saveToLocalStorage_run ];
  cbv beta iota.

Lemma addItem_steps itemData w cur w1 items :
  DataWriter.loadData w = (Ok cur, w1) ->
  DataWriter.items_of cur = Ok items ->
  let id := idOf (name itemData) (reading w1 0) in
  let item :=
    DataWriter.newItem itemData id (DataWriter.generateDefaultLogo (name itemData)) (now w1 1) in
  let updated := DataWriter.updatedData cur (items ++ [item]) (now w1 2) in
  DataWriter.addItem itemData w =
  match DataWriter.some_has_id id items with
  | Throw e => (Throw e, advance 2 w1)
  | Ok true => (Throw (duplicateId id), advance 2 w1)
  | Ok false =>
      if fits updated w1 then (Ok (items ++ [item]), stored updated (advance 3 w1))
      else (Throw QuotaExceededError, advance 3 w1)
  end.
Proof.
  intros Hload Hitems id item updated.
  unfold DataWriter.addItem. run. rewrite Hload, Hitems. cbv beta iota.
  do 2 step. cbv beta iota zeta.
  rewrite now_advance, advance_advance. simpl Nat.add. fold id.
  destruct (DataWriter.some_has_id id items) as [[]|e]; [reflexivity| |reflexivity].
  step. rewrite advance_advance, now_advance. simpl Nat.add. fold item. fold updated.
  step. rewrite fits_advance. destruct (fits updated w1); reflexivity.
Qed.

Lemma addItem_run itemData w cur w1 items :
  DataWriter.loadData w = (Ok cur, w1) ->
  DataWriter.items_of cur = Ok items ->
  records items ->
  let id := idOf (name itemData) (reading w1 0) in
  let item :=
    DataWriter.newItem itemData id (DataWriter.generateDefaultLogo (name itemData)) (now w1 1) in
  let updated := DataWriter.updatedData cur (items ++ [item]) (now w1 2) in
  DataWriter.addItem itemData w =
  if existsb (carries id) items then (Throw (duplicateId id), advance 2 w1)
  else if fits updated w1 then (Ok (items ++ [item]), stored updated (advance 3 w1))
  else (Throw QuotaExceededError, advance 3 w1).
Proof.
  intros Hload Hitems Hrec id item updated.
  rewrite (addItem_steps itemData _ _ _ _ Hload Hitems).
  rewrite (some_has_id_records _ _ Hrec). fold id.
  destruct (existsb (carries id) items); reflexivity.
Qed.

Lemma updateItem_run itemId input w cur w1 items :
  DataWriter.loadData w = (Ok cur, w1) ->
  DataWriter.items_of cur = Ok items ->
  records items ->
  DataWriter.updateItem itemId input w =
  match list_find (fun item => carries itemId item = true) items with
  | None => (Throw (notFound itemId), w1)
  | Some (i, existingItem) =>
      let item := DataWriter.updatedItem (Some existingItem) input (now w1 0) in
      let updated := DataWriter.updatedData cur (<[i := item]> items) (now w1 1) in
      if fits updated w1 then (Ok (<[i := item]> items), stored updated (advance 2 w1))
      else (Throw QuotaExceededError, advance 2 w1)
  end.
Proof.
  intros Hload Hitems Hrec.
  unfold DataWriter.updateItem. run. rewrite Hload, Hitems. cbv beta iota.
  rewrite (findIndex_id_records _ _ Hrec).
  destruct (list_find _ items) as [[i existingItem]|] eqn:Hfind; [|reflexivity].
  apply list_find_Some in Hfind as (Hi & _ & _).
  change (fst <$> Some (i, existingItem)) with (Some i). cbv beta iota zeta.
  rewrite Hi. do 2 step. rewrite now_advance, advance_advance. simpl Nat.add.
  step. rewrite fits_advance. destruct (fits _ w1); reflexivity.
Qed.

Lemma deleteItem_run itemId w cur w1 items :
  DataWriter.loadData w = (Ok cur, w1) ->
  DataWriter.items_of cur = Ok items ->
  records items ->
  let kept := filter (fun item => carries itemId item = false) items in
  let updated := DataWriter.updatedData cur kept (now w1 0) in
  DataWriter.deleteItem itemId w =
  if (length kept =? length items)%nat then (Throw (notFound itemId), w1)
  else if fits updated w1 then (Ok kept, stored updated (advance 1 w1))
  else (Throw QuotaExceededError, advance 1 w1).
Proof.
  intros Hload Hitems Hrec kept updated.
  unfold DataWriter.deleteItem. run. rewrite Hload, Hitems. cbv beta iota.
  rewrite (filter_not_id_records _ _ Hrec). fold kept. cbv beta iota.
  destruct (length kept =? length items)%nat; [reflexivity|].
  step. fold updated. step. rewrite fits_advance.
  destruct (fits updated w1); reflexivity.
Qed.

End Mutations.

(** ** The specification's words for identifiers and initials

    The definitions of [Module Spec] follow the sentences of the
    specification; the lemmas after it compare them with the string
    methods the program calls. *)

Module Spec.
Import JSString.

(** The maximal runs of a string: each with whether its code units
    satisfy [p]. *)
Fixpoint runs (p : ascii -> bool) (s : string) : list (bool * string) :=
  match s with
  | EmptyString => []
  | String c s' =>
      match runs p s' with
      | (b, run) :: rest =>
          if Bool.eqb (p c) b then (b, String c run) :: rest
          else (p c, String c EmptyString) :: (b, run) :: rest
      | [] => [(p c, String c EmptyString)]
      end
  end.

Definition flatten (parts : list string) : string :=
  foldr String.append EmptyString parts.

(** "Whitespace runs replaced by a single hyphen". *)
Definition hyphenate (s : string) : string :=
  flatten (map (fun r : bool * string => if fst r then "-" else snd r) (runs is_space s)).

(** "A lowercase letter, digit, or hyphen". *)
Definition alphabet : string := "abcdefghijklmnopqrstuvwxyz0123456789-".

Definition in_alphabet (c : ascii) : bool :=
  existsb (Ascii.eqb c) (list_ascii_of_string alphabet).

(** "Non-alphanumeric-non-hyphen characters stripped". *)
Definition strip (s : string) : string := sfilter in_alphabet s.

(** The number a base-36 numeral denotes. *)
Definition digits36 : string := "0123456789abcdefghijklmnopqrstuvwxyz".

Fixpoint index_from (i : Z) (c : ascii) (digits : string) : option Z :=
  match digits with
  | EmptyString => None
  | String d digits' => if Ascii.eqb c d then Some i else index_from (i + 1) c digits'
  end.

Fixpoint value_from (acc : Z) (s : string) : option Z :=
  match s with
  | EmptyString => Some acc
  | String c s' =>
      match index_from 0 c digits36 with
      | Some d => value_from (acc * 36 + d) s'
      | None => None
      end
  end.

Definition of_base36 (s : string) : option Z :=
  match s with
  | EmptyString => None
  | String c s' =>
      if Ascii.eqb c "-" then Z.opp <$> value_from 0 s' else value_from 0 s
  end.

(** The part of a generated id before the time stamp: the name
    "lower-cased, whitespace runs replaced by a single hyphen,
    non-alphanumeric-non-hyphen characters stripped". *)
Definition id_stem (name : string) : string :=
  strip (hyphenate (toLowerCase name)).

(** The "space-separated words" of a name. *)
Definition is_blank (c : ascii) : bool := Ascii.eqb c " ".

Definition words (s : string) : list string :=
  map snd (List.filter (fun r : bool * string => negb (fst r)) (runs is_blank s)).

(** "Upper-cased": the capital of a letter of the alphabet 0..255, from
    the table of the small letters and their capitals.  The capital of
    sharp s is SS; the capitals of the micro sign and of y with diaeresis
    are not in the alphabet, [None]; what is no small letter is its own
    capital. *)
Definition small_letters : list nat := seq 97 26 ++ seq 224 23 ++ seq 248 7.
Definition capital_letters : list nat := seq 65 26 ++ seq 192 23 ++ seq 216 7.

Fixpoint position (n : nat) (l : list nat) : option nat :=
  match l with
  | [] => None
  | m :: l' => if (n =? m)%nat then Some O else S <$> position n l'
  end.

Definition upper_case (c : ascii) : option string :=
  let n := nat_of_ascii c in
  if (n =? 181)%nat || (n =? 255)%nat then None
  else if (n =? 223)%nat then Some "SS"
  else match position n small_letters with
       | Some i => Some (String (ascii_of_nat (nth i capital_letters O)) EmptyString)
       | None => Some (String c EmptyString)
       end.

(** "First letter of up to the first two space-separated words,
    upper-cased"; [None] where a capital is not in the alphabet. *)
Definition initials (name : string) : option string :=
  String.concat EmptyString <$> mapM upper_case (take 2 (omap first_unit (words name))).

End Spec.

Section StringMethods.
Import JSString.

Definition drop_run (b : bool) (rs : list (bool * string)) : list (bool * string) :=
  match rs with
  | (b', _) :: rest => if Bool.eqb b b' then rest else rs
  | [] => []
  end.

Definition render (rs : list (bool * string)) : string :=
  Spec.flatten (map (fun r : bool * string => if fst r then "-" else snd r) rs).

Lemma replace_spaces_from_runs s :
  replace_spaces_from false s = render (Spec.runs is_space s)
  /\ replace_spaces_from true s = render (drop_run true (Spec.runs is_space s)).
Proof.
  induction s as [|c s [IHf IHt]]; [split; reflexivity|].
  simpl. rewrite IHf, IHt. clear IHf IHt.
  destruct (Spec.runs is_space s) as [|[[] run] rest];
    destruct (is_space c); simpl; split; reflexivity.
Qed.

Lemma replace_spaces_hyphenate s : replace_spaces s = Spec.hyphenate s.
Proof. apply replace_spaces_from_runs. Qed.

Lemma is_id_char_alphabet c : is_id_char c = Spec.in_alphabet c.
Proof. destruct c as [[] [] [] [] [] [] [] []]; reflexivity. Qed.

Lemma strip_non_id_strip s : strip_non_id s = Spec.strip s.
Proof.
  induction s as [|c s IH]; [reflexivity|].
  unfold strip_non_id, Spec.strip in *. simpl.
  rewrite is_id_char_alphabet, IH. reflexivity.
Qed.

Lemma digit_char_index d :
  (0 <= d < 36)%Z -> Spec.index_from 0 (digit_char d) Spec.digits36 = Some d.
Proof.
  intros Hd.
  assert (exists k, (k < 36)%nat /\ d = Z.of_nat k) as (k & Hk & ->)
    by (exists (Z.to_nat d); lia).
  do 36 (destruct k as [|k]; [reflexivity|]). lia.
Qed.

Lemma value_from_digits fuel n acc :
  (0 <= n < 2 ^ Z.of_nat fuel)%Z ->
  Spec.value_from 0 (digits_from fuel 36 n acc) = Spec.value_from n acc.
Proof.
  revert n acc. induction fuel as [|fuel IH]; intros n acc Hn.
  - simpl in *. replace n with 0%Z by lia. reflexivity.
  - rewrite Nat2Z.inj_succ, Z.pow_succ_r in Hn by lia.
    cbn [digits_from]. destruct (n <? 36)%Z eqn:Hlt.
    + apply Z.ltb_lt in Hlt. rewrite Z.mod_small by lia.
      cbn [Spec.value_from]. rewrite digit_char_index by lia. reflexivity.
    + apply Z.ltb_ge in Hlt. rewrite IH.
      * cbn [Spec.value_from].
        rewrite digit_char_index by (apply Z.mod_pos_bound; lia).
        f_equal. pose proof (Z.div_mod n 36). lia.
      * split; [apply Z.div_pos; lia|].
        apply Z.div_lt_upper_bound; lia.
Qed.

Lemma digits_from_longer fuel radix n acc :
  (String.length acc < String.length (digits_from (S fuel) radix n acc))%nat.
Proof.
  revert n acc. induction fuel as [|fuel IH]; intros n acc.
  - simpl. destruct (n <? radix)%Z; simpl; lia.
  - change (digits_from (S (S fuel)) radix n acc)
      with (if (n <? radix)%Z then String (digit_char (n mod radix)) acc
            else digits_from (S fuel) radix (n / radix) (String (digit_char (n mod radix)) acc)).
    destruct (n <? radix)%Z; [simpl; lia|].
    specialize (IH (n / radix)%Z (String (digit_char (n mod radix)) acc)).
    simpl String.length in IH at 1. lia.
Qed.

Lemma value_from_of_base36 s n :
  s <> EmptyString -> Spec.value_from 0 s = Some n -> Spec.of_base36 s = Some n.
Proof.
  destruct s as [|c s]; [congruence|]. intros _ Hv.
  unfold Spec.of_base36. destruct (Ascii.eqb c "-") eqn:Hc; [|exact Hv].
  apply Ascii.eqb_eq in Hc. subst c. discriminate.
Qed.

Lemma log2_fuel n :
  (0 <= n)%Z -> (0 <= n < 2 ^ Z.of_nat (S (Z.to_nat (Z.log2 n))))%Z.
Proof.
  intros Hn. split; [exact Hn|].
  rewrite Nat2Z.inj_succ, Z2Nat.id by apply Z.log2_nonneg.
  destruct (Z.eq_dec n 0%Z) as [->|Hz]; [reflexivity|].
  apply Z.log2_spec. lia.
Qed.

(** The suffix of a generated id is a base-36 numeral of the reading. *)
Lemma of_base36_toStringRadix n : Spec.of_base36 (toStringRadix 36 n) = Some n.
Proof.
  unfold toStringRadix. destruct (n <? 0)%Z eqn:Hneg.
  - apply Z.ltb_lt in Hneg. unfold Spec.of_base36.
    change (Ascii.eqb "-" "-") with true. cbv iota.
    rewrite value_from_digits by (apply log2_fuel; lia).
    simpl. f_equal. lia.
  - apply Z.ltb_ge in Hneg. apply value_from_of_base36.
    + intros He. pose proof (digits_from_longer (Z.to_nat (Z.log2 n)) 36 n EmptyString) as Hl.
      rewrite He in Hl. simpl in Hl. lia.
    + rewrite value_from_digits by (apply log2_fuel; lia). reflexivity.
Qed.

(** The first code units of the words, read left to right: [at_start]
    says that the previous code unit, if any, was a space. *)
Fixpoint word_starts (at_start : bool) (s : string) : string :=
  match s with
  | EmptyString => EmptyString
  | String c s' =>
      if Spec.is_blank c then word_starts true s'
      else if at_start then String c (word_starts false s')
      else word_starts false s'
  end.

Lemma code_32_blank c : (code c =? 32)%nat = Spec.is_blank c.
Proof. destruct c as [[] [] [] [] [] [] [] []]; reflexivity. Qed.

Lemma split_space_starts s :
  join_units (first_unit <$> split_space s) = word_starts true s
  /\ join_units (first_unit <$> tail (split_space s)) = word_starts false s.
Proof.
  induction s as [|c s [IHt IHf]]; [split; reflexivity|].
  cbn [split_space word_starts]. rewrite code_32_blank. destruct (Spec.is_blank c).
  - split; exact IHt.
  - destruct (split_space s) as [|piece pieces]; rewrite <- IHf; split; reflexivity.
Qed.

Definition first_units (rs : list (bool * string)) : string :=
  string_of_list_ascii
    (omap first_unit (map snd (List.filter (fun r : bool * string => negb (fst r)) rs))).

Lemma words_starts s :
  first_units (Spec.runs Spec.is_blank s) = word_starts true s
  /\ first_units (drop_run false (Spec.runs Spec.is_blank s)) = word_starts false s.
Proof.
  induction s as [|c s [IHt IHf]]; [split; reflexivity|].
  simpl. rewrite <- IHt, <- IHf. clear IHt IHf.
  destruct (Spec.runs Spec.is_blank s) as [|[[] run] rest];
    destruct (Spec.is_blank c); simpl; split; reflexivity.
Qed.

Lemma slice0_smap f n s : slice0 n (smap f s) = smap f (slice0 n s).
Proof.
  revert s. induction n as [|n IH]; intros [|c s]; simpl; try reflexivity.
  rewrite IH. reflexivity.
Qed.

Lemma slice0_take n l :
  slice0 n (string_of_list_ascii l) = string_of_list_ascii (take n l).
Proof.
  revert l. induction n as [|n IH]; intros [|c l]; simpl; try reflexivity.
  rewrite IH. reflexivity.
Qed.

Lemma capital_upper_case c : capital c = Spec.upper_case c.
Proof. destruct c as [[] [] [] [] [] [] [] []]; reflexivity. Qed.

(** The upper case of a code unit is one code unit or two. *)
Lemma upper_unit_shape c :
  exists x t, upper_unit c = String x t /\ (String.length t <= 1)%nat.
Proof.
  destruct c as [[] [] [] [] [] [] [] []]; eexists _, _; (split; [reflexivity|]);
    simpl; lia.
Qed.

Lemma toUpperCase_empty s : toUpperCase s = EmptyString <-> s = EmptyString.
Proof.
  destruct s as [|c s]; [split; reflexivity|].
  cbn [toUpperCase]. destruct (upper_unit_shape c) as (x & t & -> & _).
  split; discriminate.
Qed.

Lemma append_empty (s : string) : s +:+ EmptyString = s.
Proof.
  induction s as [|c s IH]; [reflexivity|].
  change (String c (s +:+ EmptyString) = String c s). rewrite IH. reflexivity.
Qed.

Lemma toUpperCase_units l :
  toUpperCase (string_of_list_ascii l) = String.concat EmptyString (upper_unit <$> l).
Proof.
  induction l as [|c l IH]; [reflexivity|].
  cbn [string_of_list_ascii toUpperCase]. rewrite IH.
  destruct l as [|d l]; [apply append_empty|reflexivity].
Qed.

Lemma slice0_append_short n a b :
  (n <= String.length a)%nat -> slice0 n (a +:+ b) = slice0 n a.
Proof.
  revert a. induction n as [|n IH]; intros [|c a]; simpl; intros Hn;
    try reflexivity; try lia.
  rewrite IH by lia. reflexivity.
Qed.

(** Two code units of an upper-cased string come from its first two. *)
Lemma slice0_toUpperCase l :
  slice0 2 (toUpperCase (string_of_list_ascii l))
  = slice0 2 (toUpperCase (string_of_list_ascii (take 2 l))).
Proof.
  destruct l as [|a [|b l]]; try reflexivity.
  cbn [take string_of_list_ascii toUpperCase].
  destruct (upper_unit_shape a) as (x & t & -> & Ht).
  destruct (upper_unit_shape b) as (y & u & -> & Hu).
  destruct t as [|z [|? ?]]; simpl in Ht; try lia; reflexivity.
Qed.

Lemma mapM_upper_case l cs :
  mapM Spec.upper_case l = Some cs -> cs = upper_unit <$> l.
Proof.
  revert cs. induction l as [|c l IH]; intros cs; [intros [= <-]; reflexivity|].
  assert (Hc : forall u, Spec.upper_case c = Some u -> u = upper_unit c).
  { intros u Hu. unfold upper_unit. rewrite capital_upper_case, Hu. reflexivity. }
  cbn [mapM]. destruct (Spec.upper_case c) as [u|]; [|discriminate]. cbn.
  destruct (mapM Spec.upper_case l) as [us|]; [|discriminate]. cbn.
  intros [= <-]. rewrite (IH us eq_refl), (Hc u eq_refl). reflexivity.
Qed.

Lemma slice0_short n s : (String.length s <= n)%nat -> slice0 n s = s.
Proof.
  revert s. induction n as [|n IH]; intros [|c s]; simpl; intros Hs;
    try reflexivity; try lia.
  rewrite IH by lia. reflexivity.
Qed.

(** The initials the program computes are the first two code units of
    the upper-cased first letters. *)
Lemma getInitials_initials name capitals :
  Spec.initials name = Some capitals ->
  DataWriter.getInitials name = slice0 2 capitals.
Proof.
  unfold DataWriter.getInitials, Spec.initials. intros Hspec.
  rewrite (proj1 (split_space_starts name)), <- (proj1 (words_starts name)).
  unfold first_units. fold (Spec.words name).
  rewrite slice0_toUpperCase, toUpperCase_units.
  destruct (mapM Spec.upper_case (take 2 (omap first_unit (Spec.words name)))) as [cs|] eqn:Hcs;
    [|discriminate].
  injection Hspec as <-. rewrite (mapM_upper_case _ _ Hcs). reflexivity.
Qed.

End StringMethods.

(** ** The state a mutation starts from *)

Section Resolution.
Context `{JSON}.

(** The bundled dataset of a world: the payload of the response, when the
    request succeeds with a success status and the payload parses and
    passes the collection-level check. *)
Definition bundled (w : World) : option json :=
  match server w with
  | Some r =>
      if ok r then
        match JSON_parse (body r) with
        | Some data => if DataLoader.isValidNavigationData data then Some data else None
        | None => None
        end
      else None
  | None => None
  end.

(** The "current authoritative state": the overlay, else the bundled
    dataset, else an empty collection stamped with the clock. *)
Definition resolved (w : World) : json :=
  match overlay w, bundled w with
  | Some data, _ => data
  | None, Some data => data
  | None, None => emptyCollection (now w 0)
  end.

(** The world [loadData] leaves. *)
Definition loaded (w : World) : World :=
  match overlay w, bundled w with
  | Some _, _ => w
  | None, Some _ => requested w
  | None, None => advance 1 (requested w)
  end.

Lemma fetchBundled_run w :
  match bundled w with
  | Some data => DataLoader.fetchBundled w = (Ok data, requested w)
  | None => exists e, DataLoader.fetchBundled w = (Throw e, requested w)
  end.
Proof.
  unfold bundled, DataLoader.fetchBundled, try_catch, fetch, parse, mbind, M_bind, mret,
    M_ret, throw, requested.
  destruct (server w) as [r|]; [|eexists; reflexivity].
  destruct (ok r); [|eexists; reflexivity]. simpl.
  destruct (JSON_parse (body r)) as [d|]; [|eexists; reflexivity].
  destruct (DataLoader.isValidNavigationData d); [reflexivity|eexists; reflexivity].
Qed.

Lemma loadData_resolved w : DataWriter.loadData w = (Ok (resolved w), loaded w).
Proof.
  rewrite loadData_run. unfold resolved, loaded.
  destruct (overlay w) as [data|]; [reflexivity|].
  pose proof (fetchBundled_run w) as Hf.
  destruct (bundled w) as [data|].
  - rewrite Hf. reflexivity.
  - destruct Hf as [e ->]. reflexivity.
Qed.

Lemma bundled_valid w data :
  bundled w = Some data -> DataLoader.isValidNavigationData data = true.
Proof.
  unfold bundled. intros Hb.
  destruct (server w) as [r|]; [|discriminate].
  destruct (ok r); [|discriminate].
  destruct (JSON_parse (body r)) as [d|]; [|discriminate].
  destruct (DataLoader.isValidNavigationData d) eqn:Hv; [|discriminate].
  injection Hb as <-. exact Hv.
Qed.

Lemma resolved_valid w : DataWriter.isValidNavigationData (resolved w) = true.
Proof.
  unfold resolved. destruct (overlay w) as [data|] eqn:Ho.
  - exact (overlay_valid _ _ Ho).
  - destruct (bundled w) as [data|] eqn:Hb; [exact (bundled_valid _ _ Hb)|reflexivity].
Qed.

Lemma loaded_storage w :
  localStorage (loaded w) = localStorage w /\ quota (loaded w) = quota w.
Proof.
  unfold loaded. destruct (overlay w); [|destruct (bundled w)]; split; reflexivity.
Qed.

(** A collection that passes the check has an array of items. *)
Lemma valid_items data :
  DataWriter.isValidNavigationData data = true ->
  exists items, DataWriter.items_of data = Ok items /\ prop data "items" = Some (JArr items).
Proof.
  unfold DataWriter.isValidNavigationData, DataWriter.items_of.
  destruct data as [| | | | |m]; try discriminate. simpl.
  destruct (m !! "items") as [[| | | |items|]|]; try discriminate.
  intros _. exists items. split; reflexivity.
Qed.

End Resolution.

(** ** The contracts of the mutations *)

(** The items of the current authoritative state. *)
Definition currentItems `{JSON} (w : World) : list json :=
  match prop (resolved w) "items" with
  | Some (JArr items) => items
  | _ => []
  end.

(** The input of the specification's scenario. *)
Definition Echo : AgentInput :=
  mkAgentInput "Echo" "https://echo.ai" "desc" ["chatbots"] true None None None.

(** The initials of a record: [item.logo.text]. *)
Definition logo_text (item : json) : option json :=
  prop item "logo" ≫= fun logo => prop logo "text".

Section Contracts.
Context `{JSON}.

Lemma items_of_resolved w : DataWriter.items_of (resolved w) = Ok (currentItems w).
Proof.
  destruct (valid_items _ (resolved_valid w)) as (items & Hitems & Hprop).
  unfold currentItems. rewrite Hprop. exact Hitems.
Qed.

Lemma idOf_spec name t :
  idOf name t = Spec.id_stem name +:+ "-" +:+ JSString.toStringRadix 36 t.
Proof.
  unfold idOf, Spec.id_stem.
  rewrite strip_non_id_strip, replace_spaces_hyphenate. reflexivity.
Qed.

Lemma newItem_id itemData id logo stamp :
  prop (DataWriter.newItem itemData id logo stamp) "id" = Some (JStr id).
Proof.
  unfold DataWriter.newItem, prop.
  rewrite lookup_insert_ne by discriminate.
  rewrite lookup_insert_ne by discriminate.
  apply lookup_insert_eq.
Qed.

Lemma newItem_logo itemData id logo stamp :
  prop (DataWriter.newItem itemData id logo stamp) "logo" = Some logo.
Proof.
  unfold DataWriter.newItem, prop.
  rewrite lookup_insert_ne by discriminate.
  apply lookup_insert_eq.
Qed.

Lemma newItem_lastUpdated itemData id logo stamp :
  prop (DataWriter.newItem itemData id logo stamp) "lastUpdated" = Some (JStr stamp).
Proof. unfold DataWriter.newItem, prop. apply lookup_insert_eq. Qed.

(** C2.  The generated id is the stem the specification describes, a
    hyphen, and a base-36 numeral of the clock's reading.  When an item
    of the current collection carries that id, [addItem] throws the
    duplicate-id error and the storage is left as it was; otherwise,
    when the storage takes the write, it returns the current items with
    exactly one record appended, which carries the id and the logo
    derived from the name, and that collection is what it stores.  For
    the input [Echo] on a collection without items the result is one
    record whose id is "echo-" followed by the numeral and whose
    initials are "E". *)
Theorem create_contract (itemData : AgentInput) (w : World) :
  records (currentItems w) ->
  let items := currentItems w in
  let stamp := reading (loaded w) 0 in
  let id := idOf (name itemData) stamp in
  let item :=
    DataWriter.newItem itemData id (DataWriter.generateDefaultLogo (name itemData))
      (now (loaded w) 1) in
  let updated := DataWriter.updatedData (resolved w) (items ++ [item]) (now (loaded w) 2) in
  (exists numeral,
     id = Spec.id_stem (name itemData) +:+ "-" +:+ numeral
     /\ Spec.of_base36 numeral = Some stamp)
  /\ (existsb (carries id) items = true ->
      DataWriter.addItem itemData w = (Throw (duplicateId id), advance 2 (loaded w))
      /\ localStorage (advance 2 (loaded w)) = localStorage w)
  /\ (existsb (carries id) items = false -> fits updated (loaded w) = true ->
      DataWriter.addItem itemData w = (Ok (items ++ [item]), stored updated (advance 3 (loaded w)))
      /\ length (items ++ [item]) = S (length items)
      /\ prop item "id" = Some (JStr id)
      /\ prop item "logo" = Some (DataWriter.generateDefaultLogo (name itemData))
      /\ (itemData = Echo -> items = [] ->
          fst (DataWriter.addItem itemData w) = Ok [item]
          /\ prop item "id" = Some (JStr ("echo-" +:+ JSString.toStringRadix 36 stamp))
          /\ logo_text item = Some (JStr "E"))).
Proof.
  intros Hrec items stamp id item updated.
  pose proof (addItem_run itemData w _ _ _ (loadData_resolved w) (items_of_resolved w) Hrec)
    as Hrun.
  cbv zeta in Hrun. fold items stamp id item updated in Hrun.
  split; [|split].
  - exists (JSString.toStringRadix 36 stamp). split.
    + apply idOf_spec.
    + apply of_base36_toStringRadix.
  - intros Hdup. rewrite Hdup in Hrun. split; [exact Hrun|].
    apply (loaded_storage w).
  - intros Hfresh Hfits. rewrite Hfresh, Hfits in Hrun.
    split; [exact Hrun|]. split; [rewrite length_app; simpl; lia|].
    split; [apply newItem_id|]. split; [apply newItem_logo|].
    intros HEcho Hempty. rewrite Hrun, Hempty. split; [reflexivity|].
    split.
    + subst item id. rewrite newItem_id, HEcho. reflexivity.
    + unfold logo_text. subst item. rewrite newItem_logo, HEcho. reflexivity.
Qed.

Lemma input_props_reserved itemData :
  input_props itemData !! "id" = None
  /\ input_props itemData !! "logo" = None
  /\ input_props itemData !! "lastUpdated" = None.
Proof.
  destruct itemData as [n ws d c o [g|] [t|] [dd|]]; repeat split; reflexivity.
Qed.

Lemma carries_object itemId item :
  carries itemId item = true ->
  exists m, item = JObj m /\ m !! "id" = Some (JStr itemId).
Proof.
  unfold carries, is_string, prop.
  destruct item as [| | | | |m]; try discriminate.
  destruct (m !! "id") as [[| | |s| |]|] eqn:Hid; try discriminate.
  intros Heq. apply String.eqb_eq in Heq. subst s. exists m. split; [reflexivity|exact Hid].
Qed.

Lemma list_find_carries_None itemId (items : list json) :
  existsb (carries itemId) items = false ->
  list_find (fun item => carries itemId item = true) items = None.
Proof.
  intros Hex. apply list_find_None, Forall_forall. intros item Hin Hc.
  assert (Ht : existsb (carries itemId) items = true).
  { apply existsb_exists. exists item. split; [|exact Hc].
    apply list_elem_of_In. exact Hin. }
  congruence.
Qed.

(** Where [a] and [b] are ISO dates of the same form, [a] is before [b]
    when it is the smaller string. *)
Definition before (a b : string) : bool := String.ltb a b.

(** C3, as the program has it.  When no item carries the id, [updateItem]
    throws the not-found error and nothing is written.  When an item
    carries it, the first such item is replaced by the merge of the input
    over it: the merge keeps the item's id and logo and every other
    property the input does not carry, takes from the input every property
    the input carries, and is stamped with the clock's reading, as is the
    collection; the other items are unchanged; the result is what is
    stored.  Nothing compares the new stamp with the old one. *)
Theorem update_contract (itemId : string) (itemData : AgentInput) (w : World) :
  records (currentItems w) ->
  let items := currentItems w in
  (existsb (carries itemId) items = false ->
     DataWriter.updateItem itemId itemData w = (Throw (notFound itemId), loaded w)
     /\ localStorage (loaded w) = localStorage w)
  /\ (forall i existing,
        items !! i = Some existing ->
        carries itemId existing = true ->
        (forall j other, items !! j = Some other -> (j < i)%nat -> carries itemId other = false) ->
        let item := DataWriter.updatedItem (Some existing) itemData (now (loaded w) 0) in
        let updated :=
          DataWriter.updatedData (resolved w) (<[i := item]> items) (now (loaded w) 1) in
        fits updated (loaded w) = true ->
        DataWriter.updateItem itemId itemData w =
          (Ok (<[i := item]> items), stored updated (advance 2 (loaded w)))
        /\ prop item "id" = prop existing "id"
        /\ prop item "logo" = prop existing "logo"
        /\ (forall k v, input_props itemData !! k = Some v -> prop item k = Some v)
        /\ (forall k, k <> "lastUpdated" -> input_props itemData !! k = None ->
              prop item k = prop existing k)
        /\ prop item "lastUpdated" = Some (JStr (now (loaded w) 0))
        /\ prop updated "lastUpdated" = Some (JStr (now (loaded w) 1))
        /\ length (<[i := item]> items) = length items
        /\ (forall j, j <> i -> <[i := item]> items !! j = items !! j)).
Proof.
  intros Hrec items.
  pose proof (updateItem_run itemId itemData w _ _ _ (loadData_resolved w)
                (items_of_resolved w) Hrec) as Hrun.
  fold items in Hrun. split.
  - intros Hnone. rewrite (list_find_carries_None _ _ Hnone) in Hrun.
    split; [exact Hrun|apply (loaded_storage w)].
  - intros i existing Hi Hc Hfirst item updated Hfits.
    assert (Hfind : list_find (fun x => carries itemId x = true) items = Some (i, existing)).
    { apply list_find_Some. split; [exact Hi|]. split; [exact Hc|].
      intros j other Hj Hlt. rewrite (Hfirst j other Hj Hlt). discriminate. }
    rewrite Hfind in Hrun. cbv zeta in Hrun. fold item in Hrun. fold updated in Hrun.
    rewrite Hfits in Hrun.
    destruct (carries_object _ _ Hc) as (m & -> & Hid).
    destruct (input_props_reserved itemData) as (Hnid & Hnlogo & Hnstamp).
    assert (Hkeep : forall k, k <> "lastUpdated" -> input_props itemData !! k = None ->
                      prop item k = m !! k).
    { intros k Hk Hnot. unfold item, DataWriter.updatedItem, prop, spread.
      rewrite lookup_insert_ne by congruence.
      rewrite lookup_union_r by exact Hnot. reflexivity. }
    split; [exact Hrun|].
    split; [apply Hkeep; [discriminate|exact Hnid]|].
    split; [apply Hkeep; [discriminate|exact Hnlogo]|].
    split.
    { intros k v Hk. unfold item, DataWriter.updatedItem, prop, spread.
      rewrite lookup_insert_ne by (intros <-; congruence).
      apply lookup_union_Some_l. exact Hk. }
    split; [exact Hkeep|].
    split; [apply lookup_insert_eq|].
    split; [apply lookup_insert_eq|].
    split; [apply length_insert|].
    intros j Hj. apply list_lookup_insert_ne. congruence.
Qed.

Lemma updatedData_valid cur items stamp :
  DataLoader.isValidNavigationData (DataWriter.updatedData cur items stamp) = true.
Proof.
  unfold DataLoader.isValidNavigationData, DataWriter.updatedData, prop.
  rewrite lookup_insert_eq, lookup_insert_ne by discriminate.
  rewrite lookup_insert_eq. reflexivity.
Qed.

(** C4.  Where exactly one item carries the id, the storage takes the
    write and gives back what was written, [deleteItem] returns the items
    without that one, one fewer and otherwise the same in the same
    order; called again at once it throws the not-found error and leaves
    the world, and so the stored items, as they were. *)
Theorem delete_contract (itemId : string) (w : World) :
  records (currentItems w) ->
  let items := currentItems w in
  let kept := filter (fun item => carries itemId item = false) items in
  let updated := DataWriter.updatedData (resolved w) kept (now (loaded w) 0) in
  let w' := stored updated (advance 1 (loaded w)) in
  length (filter (fun item => carries itemId item = true) items) = 1%nat ->
  fits updated (loaded w) = true ->
  truthy (JSON_stringify updated) = true ->
  JSON_parse (JSON_stringify updated) = Some updated ->
  DataWriter.deleteItem itemId w = (Ok kept, w')
  /\ length items = S (length kept)
  /\ currentItems w' = kept
  /\ DataWriter.deleteItem itemId w' = (Throw (notFound itemId), w')
  /\ currentItems (snd (DataWriter.deleteItem itemId w')) = kept.
Proof.
  intros Hrec items kept updated w' Hone Hfits Htruthy Hparse.
  pose proof (deleteItem_run itemId w _ _ _ (loadData_resolved w)
                (items_of_resolved w) Hrec) as Hrun.
  cbv zeta in Hrun. fold items kept updated in Hrun.
  pose proof (filter_carries_length itemId items) as Hlen. fold kept in Hlen.
  rewrite Hone in Hlen.
  assert (Hneq : (length kept =? length items)%nat = false) by (apply Nat.eqb_neq; lia).
  rewrite Hneq, Hfits in Hrun. fold w' in Hrun.
  assert (Ho : overlay w' = Some updated).
  { unfold overlay, w', stored. cbn [localStorage with_localStorage].
    change DataLoader.LOCAL_STORAGE_KEY with DataWriter.LOCAL_STORAGE_KEY.
    rewrite lookup_insert_eq, Htruthy, Hparse.
    unfold updated. rewrite updatedData_valid. reflexivity. }
  assert (Hres : resolved w' = updated) by (unfold resolved; rewrite Ho; reflexivity).
  assert (Hloaded : loaded w' = w') by (unfold loaded; rewrite Ho; reflexivity).
  assert (Hcur : currentItems w' = kept).
  { unfold currentItems. rewrite Hres. unfold updated, DataWriter.updatedData, prop.
    rewrite lookup_insert_ne by discriminate. rewrite lookup_insert_eq. reflexivity. }
  assert (Hrec' : records (currentItems w')).
  { rewrite Hcur. apply Forall_forall. intros x Hx.
    apply list_elem_of_filter in Hx as [_ Hx].
    unfold records in Hrec. rewrite Forall_forall in Hrec. apply Hrec. exact Hx. }
  pose proof (deleteItem_run itemId w' _ _ _ (loadData_resolved w')
                (items_of_resolved w') Hrec') as Hrun'.
  cbv zeta in Hrun'. rewrite Hcur, Hloaded in Hrun'.
  assert (Hidem : filter (fun item => carries itemId item = false) kept = kept).
  { unfold kept. apply list_filter_filter_l. intros x Hx. exact Hx. }
  rewrite Hidem, Nat.eqb_refl in Hrun'.
  split; [exact Hrun|]. split; [lia|]. split; [exact Hcur|].
  split; [exact Hrun'|]. rewrite Hrun'. exact Hcur.
Qed.

(** C10.  [deleteItem] keeps the items that do not carry the id and
    removes all the others: where two or more items carry it, one call
    removes them all and the result is shorter by their number.  Such a
    collection can be the current one: the overlay and an uploaded file
    are accepted whenever [items] is an array and [lastUpdated] a string,
    whatever the ids of the items. *)
Theorem delete_removes_every_match (itemId : string) (w : World) :
  records (currentItems w) ->
  let items := currentItems w in
  let kept := filter (fun item => carries itemId item = false) items in
  let removed := filter (fun item => carries itemId item = true) items in
  let updated := DataWriter.updatedData (resolved w) kept (now (loaded w) 0) in
  (2 <= length removed)%nat ->
  fits updated (loaded w) = true ->
  (DataWriter.deleteItem itemId w = (Ok kept, stored updated (advance 1 (loaded w)))
   /\ Forall (fun item => carries itemId item = false) kept
   /\ length items = (length kept + length removed)%nat
   /\ (length kept + 2 <= length items)%nat)
  /\ (forall m anyItems stamp text,
        m !! "items" = Some (JArr anyItems) ->
        m !! "lastUpdated" = Some (JStr stamp) ->
        JSON_parse text = Some (JObj m) ->
        truthy text = true ->
        DataWriter.uploadFromJsonFile (mkFile (Some text)) = Ok (JObj m)
        /\ forall w0, localStorage w0 !! DataWriter.LOCAL_STORAGE_KEY = Some text ->
             DataWriter.loadFromLocalStorage w0 = (Ok (Some (JObj m)), w0)).
Proof.
  intros Hrec items kept removed updated Htwo Hfits.
  pose proof (deleteItem_run itemId w _ _ _ (loadData_resolved w)
                (items_of_resolved w) Hrec) as Hrun.
  cbv zeta in Hrun. fold items kept updated in Hrun.
  pose proof (filter_carries_length itemId items) as Hlen. fold kept removed in Hlen.
  assert (Hneq : (length kept =? length items)%nat = false) by (apply Nat.eqb_neq; lia).
  rewrite Hneq, Hfits in Hrun. split.
  - split; [exact Hrun|]. split; [|split; lia].
    apply Forall_forall. intros x Hx. apply list_elem_of_filter in Hx as [Hx _]. exact Hx.
  - intros m anyItems stamp text Hitems Hstamp Hparse Htruthy.
    assert (Hvalid : DataWriter.isValidNavigationData (JObj m) = true).
    { unfold DataWriter.isValidNavigationData, prop. rewrite Hitems, Hstamp. reflexivity. }
    split.
    + unfold DataWriter.uploadFromJsonFile. cbn [file_text].
      rewrite Hparse, Hvalid. reflexivity.
    + intros w0 Hslot. rewrite loadFromLocalStorage_overlay. unfold overlay.
      change DataLoader.LOCAL_STORAGE_KEY with DataWriter.LOCAL_STORAGE_KEY.
      rewrite Hslot, Htruthy, Hparse.
      change (DataLoader.isValidNavigationData (JObj m))
        with (DataWriter.isValidNavigationData (JObj m)).
      rewrite Hvalid. reflexivity.
Qed.

(** C8.  Each mutation starts from the collection [loadData] returns,
    and [loadData] always returns: the overlay when it is present and
    valid, else the bundled dataset when the request yields a valid one,
    else the collection without items stamped with the clock's reading.
    What [addItem], [updateItem] and [deleteItem] return, throw and store
    is what their step makes of that collection and of its items, in
    every world.  So when neither source loads they work on no items: a
    creation goes through unless the storage refuses the write, and an
    update or a deletion reports the missing id, not the missing data. *)
Theorem mutation_fallback (w : World) :
  DataWriter.loadData w = (Ok (resolved w), loaded w)
  /\ (forall data, overlay w = Some data -> resolved w = data)
  /\ (forall data, overlay w = None -> bundled w = Some data -> resolved w = data)
  /\ (overlay w = None -> bundled w = None -> resolved w = emptyCollection (now w 0))
  /\ prop (resolved w) "items" = Some (JArr (currentItems w))
  /\ (records (currentItems w) ->
      (forall itemData,
         let id := idOf (name itemData) (reading (loaded w) 0) in
         let item :=
           DataWriter.newItem itemData id (DataWriter.generateDefaultLogo (name itemData))
             (now (loaded w) 1) in
         let updated :=
           DataWriter.updatedData (resolved w) (currentItems w ++ [item]) (now (loaded w) 2) in
         DataWriter.addItem itemData w =
         if existsb (carries id) (currentItems w)
         then (Throw (duplicateId id), advance 2 (loaded w))
         else if fits updated (loaded w)
         then (Ok (currentItems w ++ [item]), stored updated (advance 3 (loaded w)))
         else (Throw QuotaExceededError, advance 3 (loaded w)))
      /\ (forall itemId itemData,
            DataWriter.updateItem itemId itemData w =
            match list_find (fun item => carries itemId item = true) (currentItems w) with
            | None => (Throw (notFound itemId), loaded w)
            | Some (i, existingItem) =>
                let item :=
                  DataWriter.updatedItem (Some existingItem) itemData (now (loaded w) 0) in
                let updated :=
                  DataWriter.updatedData (resolved w) (<[i := item]> (currentItems w))
                    (now (loaded w) 1) in
                if fits updated (loaded w)
                then (Ok (<[i := item]> (currentItems w)), stored updated (advance 2 (loaded w)))
                else (Throw QuotaExceededError, advance 2 (loaded w))
            end)
      /\ (forall itemId,
            let kept := filter (fun item => carries itemId item = false) (currentItems w) in
            let updated := DataWriter.updatedData (resolved w) kept (now (loaded w) 0) in
            DataWriter.deleteItem itemId w =
            if (length kept =? length (currentItems w))%nat
            then (Throw (notFound itemId), loaded w)
            else if fits updated (loaded w)
            then (Ok kept, stored updated (advance 1 (loaded w)))
            else (Throw QuotaExceededError, advance 1 (loaded w))))
  /\ (overlay w = None -> bundled w = None ->
      currentItems w = []
      /\ (forall itemData,
            (exists item, fst (DataWriter.addItem itemData w) = Ok [item])
            \/ fst (DataWriter.addItem itemData w) = Throw QuotaExceededError)
      /\ (forall itemId itemData,
            fst (DataWriter.updateItem itemId itemData w) = Throw (notFound itemId))
      /\ (forall itemId, fst (DataWriter.deleteItem itemId w) = Throw (notFound itemId))).
Proof.
  pose proof (loadData_resolved w) as Hload.
  pose proof (items_of_resolved w) as Hitems.
  split; [exact Hload|].
  split; [intros data Ho; unfold resolved; rewrite Ho; reflexivity|].
  split; [intros data Ho Hb; unfold resolved; rewrite Ho, Hb; reflexivity|].
  split; [intros Ho Hb; unfold resolved; rewrite Ho, Hb; reflexivity|].
  split.
  { destruct (valid_items _ (resolved_valid w)) as (items & _ & Hprop).
    unfold currentItems. rewrite Hprop. reflexivity. }
  split.
  - intros Hrec. split; [|split].
    + intros itemData. exact (addItem_run itemData w _ _ _ Hload Hitems Hrec).
    + intros itemId itemData. exact (updateItem_run itemId itemData w _ _ _ Hload Hitems Hrec).
    + intros itemId. exact (deleteItem_run itemId w _ _ _ Hload Hitems Hrec).
  - intros Ho Hb.
    assert (Hcur : currentItems w = [])
      by (unfold currentItems, resolved; rewrite Ho, Hb; reflexivity).
    assert (Hrec : records (currentItems w)) by (rewrite Hcur; constructor).
    split; [exact Hcur|]. split; [|split].
    + intros itemData. rewrite (addItem_run itemData w _ _ _ Hload Hitems Hrec), Hcur.
      cbn [existsb app]. destruct (fits _ (loaded w)); [left; eexists|right]; reflexivity.
    + intros itemId itemData.
      rewrite (updateItem_run itemId itemData w _ _ _ Hload Hitems Hrec), Hcur. reflexivity.
    + intros itemId. rewrite (deleteItem_run itemId w _ _ _ Hload Hitems Hrec), Hcur.
      reflexivity.
Qed.

End Contracts.

(** ** Export and import *)

Section Exchange.
Context `{JSON}.

Lemma every_string_strings (cats : list string) :
  DataWriter.every_string (Some (JArr (JStr <$> cats))) = true.
Proof. induction cats as [|cat cats IH]; [reflexivity|exact IH]. Qed.

Lemma newItem_valid itemData id logo stamp :
  DataWriter.isValidItem (DataWriter.newItem itemData id logo stamp) = true.
Proof.
  set (item := DataWriter.newItem itemData id logo stamp).
  assert (Hname : prop item "name" = Some (JStr (name itemData)))
    by (destruct itemData as [n ws d c o [g|] [t|] [dd|]]; reflexivity).
  assert (Hweb : prop item "website" = Some (JStr (website itemData)))
    by (destruct itemData as [n ws d c o [g|] [t|] [dd|]]; reflexivity).
  assert (Hdesc : prop item "description" = Some (JStr (description itemData)))
    by (destruct itemData as [n ws d c o [g|] [t|] [dd|]]; reflexivity).
  assert (Hcat : prop item "category" = Some (JArr (JStr <$> category itemData)))
    by (destruct itemData as [n ws d c o [g|] [t|] [dd|]]; reflexivity).
  assert (Hopen : prop item "isOpenSource" = Some (JBool (isOpenSource itemData)))
    by (destruct itemData as [n ws d c o [g|] [t|] [dd|]]; reflexivity).
  unfold DataWriter.isValidItem.
  rewrite Hname, Hweb, Hdesc, Hcat, Hopen. unfold item.
  rewrite newItem_id, newItem_lastUpdated, every_string_strings. reflexivity.
Qed.

(** C6, as the program has it.  What comes from outside is accepted
    exactly when it parses and passes the collection-level check, and
    that check reads [items] and [lastUpdated] and nothing of the items:
    an uploaded file, the overlay and the bundled file are accepted
    whatever their items are, so [isValidItem] is applied to none of
    them.  The items of the collection a creation starts from are all
    stored again, whether they pass [isValidItem] or not.  The record
    [addItem] builds passes [isValidItem]. *)
Theorem external_data_check :
  (forall data,
     DataWriter.isValidNavigationData data = true <->
     exists m items stamp,
       data = JObj m /\ m !! "items" = Some (JArr items)
       /\ m !! "lastUpdated" = Some (JStr stamp))
  /\ (forall file data,
        DataWriter.uploadFromJsonFile file = Ok data <->
        exists text,
          file_text file = Some text /\ JSON_parse text = Some data
          /\ DataWriter.isValidNavigationData data = true)
  /\ (forall w data,
        fst (DataWriter.loadFromLocalStorage w) = Ok (Some data) <->
        exists text,
          localStorage w !! DataWriter.LOCAL_STORAGE_KEY = Some text
          /\ truthy text = true /\ JSON_parse text = Some data
          /\ DataWriter.isValidNavigationData data = true)
  /\ (forall w data,
        overlay w = None ->
        fst (DataLoader.loadNavigationData w) = Ok data <->
        exists r,
          server w = Some r /\ ok r = true /\ JSON_parse (body r) = Some data
          /\ DataLoader.isValidNavigationData data = true)
  /\ (forall w itemData result,
        fst (DataWriter.addItem itemData w) = Ok result ->
        exists updated,
          localStorage (snd (DataWriter.addItem itemData w))
          = <[DataWriter.LOCAL_STORAGE_KEY := JSON_stringify updated]> (localStorage w)
          /\ prop updated "items" = Some (JArr result)
          /\ forall item, item ∈ currentItems w -> item ∈ result)
  /\ (forall itemData id stamp,
        DataWriter.isValidItem
          (DataWriter.newItem itemData id (DataWriter.generateDefaultLogo (name itemData)) stamp)
        = true).
Proof.
  split; [|split; [|split; [|split; [|split]]]].
  - intros data. unfold DataWriter.isValidNavigationData. split.
    + destruct data as [| | | | |m]; try discriminate. unfold prop.
      destruct (m !! "items") as [[| | | |items|]|] eqn:Hitems; try discriminate.
      destruct (m !! "lastUpdated") as [[| | |stamp| |]|] eqn:Hstamp; try discriminate.
      intros _. exists m, items, stamp. split; [reflexivity|]. split; assumption.
    + intros (m & items & stamp & -> & Hitems & Hstamp). unfold prop.
      rewrite Hitems, Hstamp. reflexivity.
  - intros [[text|]] data; unfold DataWriter.uploadFromJsonFile; cbn [file_text].
    + split.
      * destruct (JSON_parse text) as [d|] eqn:Hp; [|discriminate].
        destruct (DataWriter.isValidNavigationData d) eqn:Hv; [|discriminate].
        intros [= <-]. exists text. split; [reflexivity|]. split; assumption.
      * intros (text' & [= <-] & -> & ->). reflexivity.
    + split; [discriminate|]. intros (text & Htext & _). discriminate.
  - intros w data. rewrite loadFromLocalStorage_overlay. cbn [fst]. unfold overlay.
    change DataLoader.LOCAL_STORAGE_KEY with DataWriter.LOCAL_STORAGE_KEY.
    change DataLoader.isValidNavigationData with DataWriter.isValidNavigationData.
    split.
    + destruct (localStorage w !! DataWriter.LOCAL_STORAGE_KEY) as [text|]; [|discriminate].
      destruct (truthy text) eqn:Ht; [|discriminate].
      destruct (JSON_parse text) as [d|] eqn:Hp; [|discriminate].
      destruct (DataWriter.isValidNavigationData d) eqn:Hv; [|discriminate].
      intros [= <-]. exists text. split; [reflexivity|]. repeat split; assumption.
    + intros (text & -> & -> & -> & ->). reflexivity.
  - intros w data Ho. rewrite loadNavigationData_run, Ho.
    pose proof (fetchBundled_run w) as Hf. unfold bundled in Hf. split.
    + destruct (server w) as [r|]; [|destruct Hf as [e ->]; discriminate].
      destruct (ok r) eqn:Hok; [|destruct Hf as [e ->]; discriminate].
      destruct (JSON_parse (body r)) as [d|] eqn:Hp; [|destruct Hf as [e ->]; discriminate].
      destruct (DataLoader.isValidNavigationData d) eqn:Hv;
        [|destruct Hf as [e ->]; discriminate].
      rewrite Hf. intros [= <-]. exists r. split; [reflexivity|]. repeat split; assumption.
    + intros (r & Hr & Hok & Hparse & Hv). rewrite Hr, Hok, Hparse, Hv in Hf.
      rewrite Hf. reflexivity.
  - intros w itemData result.
    rewrite (addItem_steps itemData w _ _ _ (loadData_resolved w) (items_of_resolved w)).
    destruct (DataWriter.some_has_id _ _) as [[]|e]; try discriminate.
    destruct (fits _ _); [|discriminate]. cbn [fst snd]. intros [= <-].
    eexists. split; [|split].
    + rewrite <- (proj1 (loaded_storage w)). reflexivity.
    + unfold DataWriter.updatedData, prop.
      rewrite lookup_insert_ne by discriminate. apply lookup_insert_eq.
    + intros item Hitem. apply elem_of_app. left. exact Hitem.
  - intros itemData id stamp. apply newItem_valid.
Qed.

(** The import handler writes nothing to the storage. *)
Lemma handleImportData_storage file w :
  localStorage (snd (AdminPage.handleImportData file w)) = localStorage w.
Proof.
  unfold AdminPage.handleImportData, try_catch, lift, mbind, M_bind, AdminPage.setItems, alert.
  destruct file as [f|]; [|reflexivity].
  destruct (DataWriter.uploadFromJsonFile f); reflexivity.
Qed.

(** The export handler, where the overlay is valid: it downloads the
    overlay's content. *)
Lemma handleExportData_overlay w data :
  overlay w = Some data ->
  AdminPage.handleExportData w =
  (Ok tt, with_effect (Downloaded DataWriter.DATA_FILE_NAME (JSON_stringify_indent data)) w).
Proof.
  intros Ho. unfold AdminPage.handleExportData, try_catch, mbind, M_bind.
  rewrite loadNavigationData_run, Ho. reflexivity.
Qed.

End Exchange.

(** ** The reference codec reads back what it writes *)

Section ReferenceCodec.
Import JSString RefJSON.

Lemma append_assoc (a b c : string) : (a +:+ b) +:+ c = a +:+ (b +:+ c).
Proof.
  induction a as [|x a IH]; [reflexivity|].
  change (String x ((a +:+ b) +:+ c) = String x (a +:+ (b +:+ c))). rewrite IH. reflexivity.
Qed.

Lemma length_append (a b : string) :
  String.length (a +:+ b) = (String.length a + String.length b)%nat.
Proof.
  induction a as [|x a IH]; [reflexivity|].
  change (S (String.length (a +:+ b)) = S (String.length a + String.length b)).
  rewrite IH. reflexivity.
Qed.

(** *** White space *)

(** A string the parser skips. *)
Definition blank (ws : string) : Prop := forall s, skip_ws (ws +:+ s) = skip_ws s.

Lemma blank_empty : blank EmptyString.
Proof. intros s. reflexivity. Qed.

Lemma blank_app a b : blank a -> blank b -> blank (a +:+ b).
Proof. intros Ha Hb s. rewrite append_assoc, Ha, Hb. reflexivity. Qed.

Lemma blank_nl : blank nl.
Proof. intros s. reflexivity. Qed.

Lemma blank_space : blank " ".
Proof. intros s. reflexivity. Qed.

Lemma spaces_S n : spaces (S n) = " " +:+ spaces n.
Proof. destruct n; reflexivity. Qed.

Lemma blank_spaces n : blank (spaces n).
Proof.
  induction n as [|n IH]; [exact blank_empty|].
  rewrite spaces_S. apply blank_app; [exact blank_space|exact IH].
Qed.

(** The white space before an element or a member, and before the
    closing bracket. *)
Lemma blank_indent n : blank (nl +:+ spaces n).
Proof. apply blank_app; [exact blank_nl|exact (blank_spaces n)]. Qed.

(** *** String literals *)

Lemma parse_units_escape s rest :
  parse_units (escape s +:+ RefJSON.dq +:+ rest) = Some (s, rest).
Proof.
  induction s as [|c s IH]; [reflexivity|].
  cbn [escape]. rewrite append_assoc.
  revert IH. generalize (escape s +:+ RefJSON.dq +:+ rest). intros text IH.
  destruct c as [[] [] [] [] [] [] [] []];
    match goal with
    | |- context [escape_unit ?c] =>
        let e := eval vm_compute in (escape_unit c) in change (escape_unit c) with e
    end;
    cbv beta iota delta [String.append]; simpl; rewrite IH; reflexivity.
Qed.

(** *** Numbers *)

Lemma digit_char_decimal d :
  (0 <= d < 10)%Z ->
  between 48 57 (digit_char d) = true /\ Z.of_nat (code (digit_char d) - 48) = d.
Proof.
  intros Hd.
  assert (exists k, (k < 10)%nat /\ d = Z.of_nat k) as (k & Hk & ->)
    by (exists (Z.to_nat d); lia).
  do 10 (destruct k as [|k]; [split; reflexivity|]). lia.
Qed.

Lemma parse_digits_digits fuel n acc :
  (0 <= n < 2 ^ Z.of_nat fuel)%Z ->
  parse_digits 0 (digits_from fuel 10 n acc) = parse_digits n acc.
Proof.
  revert n acc. induction fuel as [|fuel IH]; intros n acc Hn.
  - simpl in *. replace n with 0%Z by lia. reflexivity.
  - rewrite Nat2Z.inj_succ, Z.pow_succ_r in Hn by lia.
    cbn [digits_from]. destruct (n <? 10)%Z eqn:Hlt.
    + apply Z.ltb_lt in Hlt. rewrite Z.mod_small by lia.
      destruct (digit_char_decimal n) as [Hb Hv]; [lia|].
      cbn [parse_digits]. rewrite Hb, Hv. reflexivity.
    + apply Z.ltb_ge in Hlt. rewrite IH.
      * destruct (digit_char_decimal (n mod 10)) as [Hb Hv];
          [apply Z.mod_pos_bound; lia|].
        cbn [parse_digits]. rewrite Hb, Hv. f_equal.
        pose proof (Z.div_mod n 10). lia.
      * split; [apply Z.div_pos; lia|].
        apply Z.div_lt_upper_bound; lia.
Qed.

Lemma parse_digits_stop n rest :
  starts_with_digit rest = false -> parse_digits n rest = (n, rest).
Proof.
  destruct rest as [|c rest]; [reflexivity|]. cbn [starts_with_digit parse_digits].
  intros ->. reflexivity.
Qed.

Lemma digits_from_app fuel radix n acc rest :
  digits_from fuel radix n acc +:+ rest = digits_from fuel radix n (acc +:+ rest).
Proof.
  revert n acc. induction fuel as [|fuel IH]; intros n acc; [reflexivity|].
  cbn [digits_from]. destruct (n <? radix)%Z; [reflexivity|]. apply IH.
Qed.

Lemma digits_from_head fuel n acc :
  (0 <= n)%Z ->
  exists c t, digits_from (S fuel) 10 n acc = String c t /\ between 48 57 c = true.
Proof.
  revert n acc. induction fuel as [|fuel IH]; intros n acc Hn.
  - cbn [digits_from].
    destruct (digit_char_decimal (n mod 10)) as [Hb _]; [apply Z.mod_pos_bound; lia|].
    destruct (n <? 10)%Z; eauto.
  - change (digits_from (S (S fuel)) 10 n acc)
      with (if (n <? 10)%Z then String (digit_char (n mod 10)) acc
            else digits_from (S fuel) 10 (n / 10) (String (digit_char (n mod 10)) acc)).
    destruct (digit_char_decimal (n mod 10)) as [Hb _]; [apply Z.mod_pos_bound; lia|].
    destruct (n <? 10)%Z; [eauto|]. apply IH. apply Z.div_pos; lia.
Qed.

(** The decimal numeral of a natural number, before a text that does not
    go on with a digit. *)
Lemma numeral_digits n rest :
  (0 <= n)%Z -> starts_with_digit rest = false ->
  exists c t,
    digits_from (S (Z.to_nat (Z.log2 n))) 10 n EmptyString +:+ rest = String c t
    /\ between 48 57 c = true
    /\ parse_digits 0 (String c t) = (n, rest).
Proof.
  intros Hn Hrest. rewrite digits_from_app.
  destruct (digits_from_head (Z.to_nat (Z.log2 n)) n (EmptyString +:+ rest) Hn)
    as (c & t & Heq & Hc).
  exists c, t. split; [exact Heq|]. split; [exact Hc|].
  rewrite <- Heq, parse_digits_digits by (apply log2_fuel; exact Hn).
  apply parse_digits_stop. exact Hrest.
Qed.

(** *** What [parse_value] does, by the code unit after the white space *)

Lemma parse_value_null fuel s rest :
  skip_ws s = "null" +:+ rest -> parse_value (S fuel) s = Some (JNull, rest).
Proof. intros Hs. simpl. rewrite Hs. reflexivity. Qed.

Lemma parse_value_true fuel s rest :
  skip_ws s = "true" +:+ rest -> parse_value (S fuel) s = Some (JBool true, rest).
Proof. intros Hs. simpl. rewrite Hs. reflexivity. Qed.

Lemma parse_value_false fuel s rest :
  skip_ws s = "false" +:+ rest -> parse_value (S fuel) s = Some (JBool false, rest).
Proof. intros Hs. simpl. rewrite Hs. reflexivity. Qed.

Lemma parse_value_string fuel s t :
  skip_ws s = RefJSON.dq +:+ t ->
  parse_value (S fuel) s =
  match parse_units t with
  | Some (units, rest) => Some (JStr units, rest)
  | None => None
  end.
Proof. intros Hs. simpl. rewrite Hs. reflexivity. Qed.

Lemma parse_value_array fuel s t :
  skip_ws s = "[" +:+ t ->
  parse_value (S fuel) s =
  match next_is "]" t with
  | Some rest => Some (JArr [], rest)
  | None =>
      match parse_elements fuel t with
      | Some (l, rest) => Some (JArr l, rest)
      | None => None
      end
  end.
Proof. intros Hs. simpl. rewrite Hs. reflexivity. Qed.

Lemma parse_value_object fuel s t :
  skip_ws s = "{" +:+ t ->
  parse_value (S fuel) s =
  match next_is "}" t with
  | Some rest => Some (JObj ∅, rest)
  | None =>
      match parse_members fuel t with
      | Some (m, rest) => Some (JObj m, rest)
      | None => None
      end
  end.
Proof. intros Hs. simpl. rewrite Hs. reflexivity. Qed.

Lemma parse_value_negative fuel s t :
  skip_ws s = "-" +:+ t ->
  parse_value (S fuel) s =
  if starts_with_digit t
  then let '(n, rest) := parse_digits 0 t in Some (JNum (- n), rest)
  else None.
Proof. intros Hs. simpl. rewrite Hs. reflexivity. Qed.

Lemma parse_value_digit fuel s c t :
  skip_ws s = String c t -> between 48 57 c = true ->
  parse_value (S fuel) s =
  let '(n, rest) := parse_digits 0 (String c t) in Some (JNum n, rest).
Proof.
  intros Hs Hc. simpl. rewrite Hs. clear Hs.
  destruct c as [[] [] [] [] [] [] [] []]; try discriminate Hc; reflexivity.
Qed.


Lemma parse_elements_S fuel s :
  parse_elements (S fuel) s =
  match parse_value fuel s with
  | Some (v, rest) =>
      match next_is "]" rest, next_is "," rest with
      | Some rest', _ => Some ([v], rest')
      | _, Some rest' =>
          match parse_elements fuel rest' with
          | Some (l, rest'') => Some (v :: l, rest'')
          | None => None
          end
      | _, _ => None
      end
  | None => None
  end.
Proof. reflexivity. Qed.

Lemma parse_members_S fuel s :
  parse_members (S fuel) s =
  match next_is RefJSON.dq s with
  | Some rest =>
      match parse_units rest with
      | Some (k, rest1) =>
          match next_is ":" rest1 with
          | Some rest2 =>
              match parse_value fuel rest2 with
              | Some (v, rest3) =>
                  match next_is "}" rest3, next_is "," rest3 with
                  | Some rest', _ => Some ({[k := v]}, rest')
                  | _, Some rest' =>
                      match parse_members fuel rest' with
                      | Some (m, rest'') =>
                          Some (match m !! k with Some _ => m | None => <[k := v]> m end, rest'')
                      | None => None
                      end
                  | _, _ => None
                  end
              | None => None
              end
          | None => None
          end
      | None => None
      end
  | None => None
  end.
Proof. reflexivity. Qed.

(** *** The size of a value *)

Fixpoint weight (v : json) : nat :=
  match v with
  | JArr l => S (foldr (fun x acc => S (weight x) + acc) 0 l)
  | JObj m => S (map_fold (fun _ x acc => S (weight x) + acc) 0 m)
  | _ => 1
  end.

Definition elements_weight (l : list json) : nat :=
  foldr (fun x acc => S (weight x) + acc) 0 l.

Lemma weight_array l : weight (JArr l) = S (elements_weight l).
Proof. reflexivity. Qed.

Lemma weight_object m : weight (JObj m) = S (elements_weight ((map_to_list m).*2)).
Proof.
  cbn [weight]. rewrite map_fold_foldr. f_equal. unfold elements_weight.
  induction (map_to_list m) as [|[k x] l IH]; [reflexivity|].
  cbn [foldr fmap list_fmap uncurry snd]. rewrite IH. reflexivity.
Qed.

Lemma weight_pos v : (1 <= weight v)%nat.
Proof. destruct v; simpl; lia. Qed.

Lemma elements_weight_elem x l : x ∈ l -> (S (weight x) <= elements_weight l)%nat.
Proof.
  induction 1 as [x l|x y l _ IH]; unfold elements_weight in *; cbn [foldr]; lia.
Qed.

Lemma json_induction (P : json -> Prop) :
  P JNull -> (forall b, P (JBool b)) -> (forall n, P (JNum n)) -> (forall s, P (JStr s)) ->
  (forall l, Forall P l -> P (JArr l)) ->
  (forall m, Forall P ((map_to_list m).*2) -> P (JObj m)) ->
  forall v, P v.
Proof.
  intros Hnull Hbool Hnum Hstr Harr Hobj v.
  remember (weight v) as n eqn:Hn. revert v Hn.
  induction n as [n IH] using lt_wf_ind. intros v ->.
  destruct v as [| | | |l|m]; auto.
  - apply Harr, Forall_forall. intros x Hx.
    apply (IH (weight x)); [|reflexivity].
    rewrite weight_array. pose proof (elements_weight_elem x l Hx). lia.
  - apply Hobj, Forall_forall. intros x Hx.
    apply (IH (weight x)); [|reflexivity].
    rewrite weight_object. pose proof (elements_weight_elem x _ Hx). lia.
Qed.

(** *** Values *)

(** A value that is read back: after white space, before a text that
    does not go on with a digit, with fuel for its size. *)
Definition readable (v : json) : Prop :=
  forall depth fuel ws rest,
    blank ws -> starts_with_digit rest = false -> (weight v <= fuel)%nat ->
    parse_value fuel (ws +:+ stringify_at depth v +:+ rest) = Some (v, rest).

Lemma skip_indent n s : skip_ws (nl +:+ spaces n +:+ s) = skip_ws s.
Proof. rewrite <- append_assoc. apply blank_indent. Qed.

Lemma join_cons sep p q ps : join sep (p :: q :: ps) = p +:+ sep +:+ join sep (q :: ps).
Proof. reflexivity. Qed.

(** The text of a value starts with a code unit that is neither white
    space nor a closing bracket. *)
Lemma value_head depth v text :
  skip_ws (stringify_at depth v +:+ text) = stringify_at depth v +:+ text
  /\ strip_prefix "]" (stringify_at depth v +:+ text) = None.
Proof.
  destruct v as [|[]|n|s|l|m]; try (split; reflexivity).
  - cbn [stringify_at stringify]. unfold toStringRadix.
    destruct (n <? 0)%Z eqn:Hneg; [split; reflexivity|].
    apply Z.ltb_ge in Hneg. rewrite digits_from_app.
    destruct (digits_from_head (Z.to_nat (Z.log2 n)) n (EmptyString +:+ text) Hneg)
      as (c & t & -> & Hc).
    destruct c as [[] [] [] [] [] [] [] []]; try discriminate Hc; split; reflexivity.
  - cbn [stringify_at]. destruct (map (stringify_at (S depth)) l); split; reflexivity.
  - cbn [stringify_at]. destruct (map_fold _ _ m); split; reflexivity.
Qed.

Lemma parse_elements_join l :
  l <> [] -> Forall readable l ->
  forall depth k k' fuel ws rest,
    blank ws -> (elements_weight l <= fuel)%nat ->
    parse_elements fuel
      (ws +:+ join ("," +:+ nl +:+ spaces k) (map (stringify_at depth) l)
       +:+ nl +:+ spaces k' +:+ "]" +:+ rest)
    = Some (l, rest).
Proof.
  intros Hne Hall. induction Hall as [|x l Hx Hall IH]; [contradiction|].
  intros depth k k' fuel ws rest Hws Hfuel.
  unfold elements_weight in Hfuel. cbn [foldr] in Hfuel. fold (elements_weight l) in Hfuel.
  destruct fuel as [|fuel]; [lia|]. rewrite parse_elements_S.
  destruct l as [|y l].
  - cbn [map]. unfold join. cbn [String.concat].
    rewrite (Hx depth fuel ws _ Hws); [|reflexivity|lia].
    unfold next_is. rewrite skip_indent. reflexivity.
  - cbn [map]. rewrite join_cons, !append_assoc.
    rewrite (Hx depth fuel ws _ Hws); [|reflexivity|lia].
    change (next_is "]" ("," +:+ ?t)) with (@None string).
    change (next_is "," ("," +:+ ?t)) with (Some t). cbv iota.
    pose proof (IH ltac:(discriminate) depth k k' fuel (nl +:+ spaces k) rest (blank_indent k)
                  ltac:(lia)) as Hrest.
    rewrite append_assoc in Hrest. cbn [map] in Hrest. rewrite Hrest.
    reflexivity.
Qed.


(** The text of a member of an object. *)
Definition member (depth : nat) (kx : string * json) : string :=
  quote kx.1 +:+ ": " +:+ stringify_at depth kx.2.

Lemma member_text depth key x rest :
  member depth (key, x) +:+ rest
  = RefJSON.dq +:+ escape key +:+ RefJSON.dq +:+ ":" +:+ " " +:+ stringify_at depth x +:+ rest.
Proof. unfold member, quote. cbn [fst snd]. rewrite !append_assoc. reflexivity. Qed.

Lemma members_list depth (m : gmap string json) :
  map_fold (fun k x acc => (quote k +:+ ": " +:+ stringify_at depth x) :: acc) [] m
  = member depth <$> map_to_list m.
Proof.
  rewrite map_fold_foldr.
  induction (map_to_list m) as [|[k x] l IH]; [reflexivity|].
  cbn [foldr fmap list_fmap uncurry]. rewrite IH. reflexivity.
Qed.

Lemma next_is_quote ws text : blank ws -> next_is RefJSON.dq (ws +:+ RefJSON.dq +:+ text) = Some text.
Proof. intros Hws. unfold next_is. rewrite Hws. reflexivity. Qed.

Lemma parse_members_join kvs :
  kvs <> [] -> Forall readable kvs.*2 -> NoDup kvs.*1 ->
  forall depth k k' fuel ws rest,
    blank ws -> (elements_weight kvs.*2 <= fuel)%nat ->
    parse_members fuel
      (ws +:+ join ("," +:+ nl +:+ spaces k) (member depth <$> kvs)
       +:+ nl +:+ spaces k' +:+ "}" +:+ rest)
    = Some (list_to_map kvs, rest).
Proof.
  induction kvs as [|[key x] kvs IH]; [contradiction|].
  intros _ Hall Hnd depth k k' fuel ws rest Hws Hfuel.
  cbn [fmap list_fmap snd fst] in Hall, Hnd, Hfuel.
  apply Forall_cons in Hall as [Hx Hall]. apply NoDup_cons in Hnd as [Hkey Hnd].
  unfold elements_weight in Hfuel. cbn [foldr] in Hfuel. fold (elements_weight kvs.*2) in Hfuel.
  destruct fuel as [|fuel]; [lia|]. rewrite parse_members_S.
  destruct kvs as [|kx kvs].
  - cbn [fmap list_fmap]. unfold join. cbn [String.concat].
    rewrite member_text, (next_is_quote _ _ Hws), parse_units_escape.
    change (next_is ":" (":" +:+ ?t)) with (Some t). cbv iota.
    rewrite (Hx depth fuel " " _ blank_space); [|reflexivity|lia].
    unfold next_is. rewrite skip_indent. reflexivity.
  - cbn [fmap list_fmap]. rewrite join_cons, !append_assoc.
    rewrite member_text, (next_is_quote _ _ Hws), parse_units_escape.
    change (next_is ":" (":" +:+ ?t)) with (Some t). cbv iota.
    rewrite (Hx depth fuel " " _ blank_space); [|reflexivity|lia].
    change (next_is "}" ("," +:+ ?t)) with (@None string).
    change (next_is "," ("," +:+ ?t)) with (Some t). cbv iota.
    pose proof (IH ltac:(discriminate) Hall Hnd depth k k' fuel (nl +:+ spaces k) rest
                  (blank_indent k) ltac:(lia)) as Hrest.
    rewrite append_assoc in Hrest. cbn [fmap list_fmap] in Hrest. rewrite Hrest.
    rewrite (not_elem_of_list_to_map_1 _ _ Hkey). reflexivity.
Qed.

Lemma join_head sep p ps text :
  exists text', join sep (p :: ps) +:+ text = p +:+ text'.
Proof.
  destruct ps as [|q ps]; [exists text; reflexivity|].
  rewrite join_cons, !append_assoc. eauto.
Qed.

(** Every value is read back. *)
Lemma readable_all v : readable v.
Proof.
  induction v as [|b|n|s|l IH|m IH] using json_induction;
    intros depth fuel ws rest Hws Hrest Hfuel;
    (destruct fuel as [|fuel];
       [match type of Hfuel with (weight ?v <= _)%nat => pose proof (weight_pos v) end; lia|]).
  - apply parse_value_null. rewrite Hws. reflexivity.
  - destruct b; [apply parse_value_true|apply parse_value_false]; rewrite Hws; reflexivity.
  - cbn [stringify_at stringify]. unfold toStringRadix.
    destruct (n <? 0)%Z eqn:Hneg.
    + apply Z.ltb_lt in Hneg.
      destruct (numeral_digits (- n) rest ltac:(lia) Hrest) as (c & t & Heq & Hc & Hparse).
      rewrite (parse_value_negative fuel _ (String c t)).
      * cbn [starts_with_digit]. rewrite Hc, Hparse. do 2 f_equal. f_equal. lia.
      * rewrite Hws, <- Heq. reflexivity.
    + apply Z.ltb_ge in Hneg.
      destruct (numeral_digits n rest Hneg Hrest) as (c & t & Heq & Hc & Hparse).
      rewrite (parse_value_digit fuel _ c t); [rewrite Hparse; reflexivity| |exact Hc].
      rewrite Hws, Heq. destruct c as [[] [] [] [] [] [] [] []]; try discriminate Hc; reflexivity.
  - cbn [stringify_at stringify]. unfold quote. rewrite !append_assoc.
    rewrite (parse_value_string fuel _ (escape s +:+ RefJSON.dq +:+ rest));
      [rewrite parse_units_escape; reflexivity|].
    rewrite Hws. reflexivity.
  - rewrite weight_array in Hfuel. cbn [stringify_at]. destruct l as [|x l].
    + rewrite (parse_value_array fuel _ ("]" +:+ rest)); [reflexivity|].
      rewrite Hws. reflexivity.
    + unfold block. cbn [map]. rewrite !append_assoc.
      erewrite (parse_value_array fuel); [|rewrite Hws; reflexivity].
      unfold next_is at 1. rewrite skip_indent.
      destruct (join_head ("," +:+ nl +:+ spaces (2 * S depth)) (stringify_at (S depth) x)
                  (map (stringify_at (S depth)) l)
                  (nl +:+ spaces (2 * depth) +:+ "]" +:+ rest)) as (text' & Hhead).
      rewrite Hhead, (proj1 (value_head _ _ _)), (proj2 (value_head _ _ _)).
      pose proof (parse_elements_join (x :: l) ltac:(discriminate) IH (S depth)
                    (2 * S depth) (2 * depth) fuel (nl +:+ spaces (2 * S depth)) rest
                    (blank_indent _) ltac:(lia)) as Helems.
      rewrite append_assoc in Helems. cbn [map] in Helems. rewrite Hhead in Helems.
      rewrite Helems. reflexivity.
  - rewrite weight_object in Hfuel. cbn [stringify_at]. rewrite members_list.
    destruct (map_to_list m) as [|[key x] kvs] eqn:Hkvs.
    + apply map_to_list_empty_iff in Hkvs. subst m.
      rewrite (parse_value_object fuel _ ("}" +:+ rest)); [reflexivity|].
      rewrite Hws. reflexivity.
    + unfold block. cbn [fmap list_fmap]. rewrite !append_assoc.
      erewrite (parse_value_object fuel); [|rewrite Hws; reflexivity].
      unfold next_is at 1. rewrite skip_indent.
      destruct (join_head ("," +:+ nl +:+ spaces (2 * S depth)) (member (S depth) (key, x))
                  (member (S depth) <$> kvs)
                  (nl +:+ spaces (2 * depth) +:+ "}" +:+ rest)) as (text' & Hhead).
      rewrite Hhead, member_text.
      change (strip_prefix "}" (skip_ws (RefJSON.dq +:+ ?t))) with (@None string).
      pose proof (parse_members_join ((key, x) :: kvs) ltac:(discriminate) IH
                    ltac:(rewrite <- Hkvs; apply NoDup_fst_map_to_list) (S depth)
                    (2 * S depth) (2 * depth) fuel (nl +:+ spaces (2 * S depth)) rest
                    (blank_indent _) ltac:(lia)) as Hmembers.
      rewrite append_assoc in Hmembers. cbn [fmap list_fmap] in Hmembers.
      rewrite Hhead, member_text in Hmembers. rewrite Hmembers.
      rewrite <- Hkvs, list_to_map_to_list. reflexivity.
Qed.

(** *** Fuel *)

Definition parts_length (parts : list string) : nat :=
  foldr (fun p acc => S (String.length p) + acc) 0 parts.

Lemma join_length sep parts :
  parts <> [] -> (1 <= String.length sep)%nat ->
  (parts_length parts <= S (String.length (join sep parts)))%nat.
Proof.
  intros Hne Hsep. induction parts as [|p parts IH]; [contradiction|].
  destruct parts as [|q parts].
  - unfold parts_length, join. simpl. lia.
  - rewrite join_cons, !length_append. specialize (IH ltac:(discriminate)).
    unfold parts_length in *. cbn [foldr] in *. lia.
Qed.

Lemma block_length opening closing depth parts :
  parts <> [] ->
  (S (parts_length parts) <= String.length (block opening closing depth parts))%nat.
Proof.
  intros Hne. unfold block. destruct parts as [|p parts]; [contradiction|].
  assert (Hsep : (1 <= String.length ("," +:+ nl +:+ spaces (2 * S depth)))%nat).
  { change (1 <= S (String.length (nl +:+ spaces (2 * S depth))))%nat. lia. }
  pose proof (join_length _ (p :: parts) Hne Hsep) as Hj.
  rewrite !length_append. change (String.length nl) with 1%nat. lia.
Qed.

Lemma numeral_length n : (1 <= String.length (toStringRadix 10 n))%nat.
Proof.
  unfold toStringRadix.
  destruct (n <? 0)%Z; [simpl; lia|].
  pose proof (digits_from_longer (Z.to_nat (Z.log2 n)) 10 n EmptyString). lia.
Qed.

Lemma weight_length v : forall depth, (weight v <= String.length (stringify_at depth v))%nat.
Proof.
  induction v as [|b|n|s|l IH|m IH] using json_induction; intros depth.
  - simpl. lia.
  - destruct b; simpl; lia.
  - apply numeral_length.
  - cbn [stringify_at stringify weight]. unfold quote. rewrite length_append. simpl. lia.
  - rewrite weight_array. cbn [stringify_at]. destruct l as [|x l]; [simpl; lia|].
    pose proof (block_length "[" "]" depth (map (stringify_at (S depth)) (x :: l))
                  ltac:(discriminate)) as Hb.
    assert (Hparts : (elements_weight (x :: l)
                      <= parts_length (map (stringify_at (S depth)) (x :: l)))%nat).
    { clear Hb. induction IH as [|y l' Hy _ IHl]; [reflexivity|].
      unfold elements_weight, parts_length in *. cbn [foldr map].
      specialize (Hy (S depth)). lia. }
    lia.
  - rewrite weight_object. cbn [stringify_at]. rewrite members_list.
    destruct (map_to_list m) as [|kx kvs]; [simpl; lia|].
    assert (Hne : member (S depth) <$> kx :: kvs <> []) by (intros Heq; discriminate Heq).
    pose proof (block_length "{" "}" depth _ Hne) as Hb.
    assert (Hparts : (elements_weight (kx :: kvs).*2
                      <= parts_length (member (S depth) <$> kx :: kvs))%nat).
    { clear Hb. revert IH. generalize (kx :: kvs). intros l IH.
      induction l as [|[key y] l' IHl]; [reflexivity|].
      cbn [fmap list_fmap snd] in IH. apply Forall_cons_1 in IH as [Hy IH].
      specialize (Hy (S depth)). specialize (IHl IH).
      unfold elements_weight, parts_length in *. cbn [foldr fmap list_fmap snd].
      unfold member at 1. cbn [fst snd]. rewrite !length_append. lia. }
    lia.
Qed.

(** [JSON.parse(JSON.stringify(v, null, 2))] is [v], for every value. *)
Lemma parse_stringify_indent v : parse_text (stringify_at 0 v) = Some v.
Proof.
  unfold parse_text.
  pose proof (readable_all v 0 (S (String.length (stringify_at 0 v))) EmptyString EmptyString
                blank_empty eq_refl) as Hread.
  rewrite append_empty in Hread.
  change (EmptyString +:+ stringify_at 0 v) with (stringify_at 0 v) in Hread.
  rewrite Hread; [reflexivity|]. pose proof (weight_length v 0). lia.
Qed.

(** *** The export is imported as exported *)

Lemma before_irreflexive s : before s s = false.
Proof.
  unfold before, String.ltb.
  pose proof (String.compare_antisym s s) as Ha.
  destruct (String.compare s s); [reflexivity|discriminate|reflexivity].
Qed.

(** C5.  For every collection that passes the collection-level check,
    the export downloads its indented serialisation under the fixed file
    name, and the import of a file with that text resolves with a
    collection that has the same items, in the same order, and a
    [lastUpdated] that is not before the original's: it is the same
    collection.  The codec is the reference one, which reads back what it
    writes ([parse_stringify_indent]). *)
Theorem export_import_roundtrip (data : json) (w : World) :
  DataWriter.isValidNavigationData data = true ->
  let text := RefJSON.stringify_at 0 data in
  @DataWriter.downloadAsJsonFile RefJSON.codec data w =
    (Ok tt, with_effect (Downloaded DataWriter.DATA_FILE_NAME text) w)
  /\ exists imported,
       @DataWriter.uploadFromJsonFile RefJSON.codec (mkFile (Some text)) = Ok imported
       /\ imported = data
       /\ prop imported "items" = prop data "items"
       /\ forall a b, prop data "lastUpdated" = Some (JStr a) ->
                      prop imported "lastUpdated" = Some (JStr b) ->
                      before b a = false.
Proof.
  intros Hvalid text. split; [reflexivity|].
  exists data. unfold DataWriter.uploadFromJsonFile. cbn [file_text].
  change (JSON_parse text) with (parse_text (stringify_at 0 data)).
  rewrite parse_stringify_indent, Hvalid.
  split; [reflexivity|]. split; [reflexivity|]. split; [reflexivity|].
  intros a b Ha Hb. rewrite Ha in Hb. injection Hb as <-. apply before_irreflexive.
Qed.

End ReferenceCodec.


(** ** The logo *)

(** The colour of a record: [item.logo.bgColor]. *)
Definition logo_color (item : json) : option json :=
  prop item "logo" ≫= fun logo => prop logo "bgColor".

Section Logo.
Context `{JSON}.

Lemma addItem_result itemData w result :
  fst (DataWriter.addItem itemData w) = Ok result ->
  exists items id stamp,
    result =
    items ++ [DataWriter.newItem itemData id (DataWriter.generateDefaultLogo (name itemData)) stamp].
Proof.
  rewrite (addItem_steps itemData w _ _ _ (loadData_resolved w) (items_of_resolved w)).
  destruct (DataWriter.some_has_id _ _) as [[]|e]; try discriminate.
  destruct (fits _ _); [|discriminate].
  cbn [fst]. intros [= <-]. eauto.
Qed.

(** C9, as the program has it.  The record a successful [addItem]
    appends has the logo [generateDefaultLogo] derives from the name
    alone: two creations with the same name, in any two worlds and so at
    any two times, give records with the same colour and the same
    initials.  The initials are the first two code units of the
    upper-cased first letters of the first two space-separated words:
    these letters themselves unless, upper-cased, they are more than two
    code units, as they are with a sharp s, whose upper case is SS. *)
Theorem logo_pure_function (a b : AgentInput) (wa wb : World) (ra rb : list json) :
  name a = name b ->
  fst (DataWriter.addItem a wa) = Ok ra ->
  fst (DataWriter.addItem b wb) = Ok rb ->
  exists ia ib,
    last ra = Some ia /\ last rb = Some ib
    /\ logo_color ia = logo_color ib
    /\ logo_text ia = logo_text ib
    /\ logo_color ia = Some (JStr (DataWriter.stringToColor (name a)))
    /\ forall capitals,
         Spec.initials (name a) = Some capitals ->
         logo_text ia = Some (JStr (JSString.slice0 2 capitals))
         /\ ((String.length capitals <= 2)%nat -> logo_text ia = Some (JStr capitals)).
Proof.
  intros Hname Ha Hb.
  apply addItem_result in Ha as (itemsa & ida & stampa & ->).
  apply addItem_result in Hb as (itemsb & idb & stampb & ->).
  rewrite <- Hname. eexists _, _.
  split; [apply last_snoc|]. split; [apply last_snoc|].
  unfold logo_color, logo_text. rewrite !newItem_logo.
  split; [reflexivity|]. split; [reflexivity|]. split; [reflexivity|].
  intros capitals Hspec.
  assert (Htext : prop (DataWriter.generateDefaultLogo (name a)) "text"
                  = Some (JStr (JSString.slice0 2 capitals))).
  { rewrite <- (getInitials_initials _ _ Hspec). reflexivity. }
  split; [exact Htext|].
  intros Hshort. cbn [mbind option_bind]. rewrite Htext, (slice0_short _ _ Hshort). reflexivity.
Qed.

End Logo.


(** * More of the program

    Properties of the functions the contracts above do not reach: the
    category list, the generated strings, what a mutation may leave in
    the storage, the admin session, the admin page's search and pages,
    the home page's filter, and the form. *)

(** ** The category list *)

Section Categories.
Import DataLoader.

Definition sadd (set : list string) (c : string) : list string :=
  if existsb (String.eqb c) set then set else set ++ [c].

Definition sadd_all (set : list string) (cs : list string) : list string :=
  fold_left sadd cs set.

Fixpoint sinsert (x : string) (sorted : list string) : list string :=
  match sorted with
  | [] => [x]
  | y :: rest => if String.leb x y then x :: sorted else y :: sinsert x rest
  end.

(** An item whose [category] is the array of the strings [cats]. *)
Definition has_categories (item : json) (cats : list string) : Prop :=
  item <> JNull /\ prop item "category" = Some (JArr (JStr <$> cats)).

Definition leb_true (a b : string) : Prop := String.leb a b = true.

Lemma existsb_strict_equal_strings c (set : list string) :
  existsb (strict_equal (JStr c)) (JStr <$> set) = existsb (String.eqb c) set.
Proof.
  induction set as [|x set IH]; [reflexivity|].
  change (String.eqb c x || existsb (strict_equal (JStr c)) (JStr <$> set)
          = String.eqb c x || existsb (String.eqb c) set).
  rewrite IH. reflexivity.
Qed.

Lemma set_add_strings set c : set_add (JStr <$> set) (JStr c) = JStr <$> sadd set c.
Proof.
  unfold set_add, sadd. rewrite existsb_strict_equal_strings.
  destruct (existsb (String.eqb c) set); [reflexivity|].
  rewrite fmap_app. reflexivity.
Qed.

Lemma fold_set_add_strings cs set :
  fold_left set_add (JStr <$> cs) (JStr <$> set) = JStr <$> fold_left sadd cs set.
Proof.
  revert set. induction cs as [|c cs IH]; intros set; [reflexivity|].
  change (fold_left set_add (JStr <$> c :: cs) (JStr <$> set))
    with (fold_left set_add (JStr <$> cs) (set_add (JStr <$> set) (JStr c))).
  rewrite set_add_strings. apply IH.
Qed.

Lemma add_categories_strings items cats set :
  Forall2 has_categories items cats ->
  add_categories (JStr <$> set) items =
  Ok (JStr <$> fold_left sadd_all cats set).
Proof.
  intros Hall. revert set. induction Hall as [|item cs items cats [Hn Hc] _ IH]; intros set.
  - reflexivity.
  - simpl. unfold category_of. rewrite Hc. destruct item; try contradiction;
      rewrite fold_set_add_strings; apply IH.
Qed.

Lemma insert_sorted_strings x l :
  insert_sorted (JStr x) (JStr <$> l) = JStr <$> sinsert x l.
Proof.
  induction l as [|y l IH]; [reflexivity|].
  change (insert_sorted (JStr x) (JStr <$> y :: l))
    with (if String.leb x y then JStr x :: JStr y :: (JStr <$> l)
          else JStr y :: insert_sorted (JStr x) (JStr <$> l)).
  rewrite IH. simpl. destruct (String.leb x y); reflexivity.
Qed.

Lemma sort_strings l : sort (JStr <$> l) = JStr <$> foldr sinsert [] l.
Proof.
  induction l as [|x l IH]; [reflexivity|].
  change (sort (JStr <$> x :: l)) with (insert_sorted (JStr x) (sort (JStr <$> l))).
  rewrite IH. apply insert_sorted_strings.
Qed.

Lemma getUniqueCategories_strings items cats :
  Forall2 has_categories items cats ->
  getUniqueCategories items = Ok (JStr <$> foldr sinsert [] (fold_left sadd_all cats [])).
Proof.
  intros Hall. unfold getUniqueCategories.
  change (add_categories [] items) with (add_categories (JStr <$> []) items).
  rewrite (add_categories_strings items cats [] Hall). rewrite sort_strings. reflexivity.
Qed.

Lemma sinsert_Permutation x l : Permutation (x :: l) (sinsert x l).
Proof.
  induction l as [|y l IH]; [reflexivity|].
  simpl. destruct (String.leb x y); [reflexivity|].
  rewrite perm_swap. apply perm_skip. exact IH.
Qed.

Lemma ssort_Permutation l : Permutation l (foldr sinsert [] l).
Proof.
  induction l as [|x l IH]; [reflexivity|].
  simpl. rewrite <- sinsert_Permutation. apply perm_skip. exact IH.
Qed.

Lemma sinsert_Sorted x l : Sorted leb_true l -> Sorted leb_true (sinsert x l).
Proof.
  induction 1 as [|y l Hs IH Hhd]; [repeat constructor|].
  simpl. destruct (String.leb x y) eqn:Hxy.
  - constructor; [constructor; assumption|]. constructor. exact Hxy.
  - constructor; [exact IH|].
    assert (Hyx : leb_true y x)
      by (destruct (String.leb_total x y) as [Ht|Ht]; [congruence|exact Ht]).
    destruct l as [|z l]; simpl.
    + constructor. exact Hyx.
    + destruct (String.leb x z); constructor; [exact Hyx|].
      inversion Hhd. assumption.
Qed.

Lemma ssort_Sorted l : Sorted leb_true (foldr sinsert [] l).
Proof. induction l as [|x l IH]; [constructor|]. simpl. apply sinsert_Sorted, IH. Qed.

Lemma sadd_NoDup set c : NoDup set -> NoDup (sadd set c).
Proof.
  intros Hnd. unfold sadd. destruct (existsb (String.eqb c) set) eqn:Hex; [exact Hnd|].
  apply NoDup_app. split; [exact Hnd|]. split; [|apply NoDup_singleton].
  intros x Hx Hc. apply list_elem_of_singleton in Hc. subst x.
  assert (Ht : existsb (String.eqb c) set = true).
  { apply existsb_exists. exists c. split; [apply list_elem_of_In, Hx|apply String.eqb_refl]. }
  congruence.
Qed.

Lemma sadd_elem set c x : x ∈ sadd set c <-> x ∈ set \/ x = c.
Proof.
  unfold sadd. destruct (existsb (String.eqb c) set) eqn:Hex.
  - split; [auto|]. intros [Hx| ->]; [exact Hx|].
    apply existsb_exists in Hex as (y & Hy & Heq).
    apply String.eqb_eq in Heq. subst y. apply list_elem_of_In, Hy.
  - rewrite elem_of_app, list_elem_of_singleton. reflexivity.
Qed.

Lemma fold_sadd_NoDup cs set : NoDup set -> NoDup (fold_left sadd cs set).
Proof.
  revert set. induction cs as [|c cs IH]; intros set Hnd; [exact Hnd|].
  simpl. apply IH, sadd_NoDup, Hnd.
Qed.

Lemma fold_sadd_elem cs set x : x ∈ fold_left sadd cs set <-> x ∈ set \/ x ∈ cs.
Proof.
  revert set. induction cs as [|c cs IH]; intros set; simpl.
  - rewrite elem_of_nil. tauto.
  - rewrite IH, sadd_elem, elem_of_cons. tauto.
Qed.

Lemma fold_fold_sadd_NoDup cats set :
  NoDup set -> NoDup (fold_left sadd_all cats set).
Proof.
  revert set. induction cats as [|cs cats IH]; intros set Hnd; [exact Hnd|].
  simpl. apply IH. unfold sadd_all. apply fold_sadd_NoDup, Hnd.
Qed.

Lemma fold_fold_sadd_elem cats set x :
  x ∈ fold_left sadd_all cats set <-> x ∈ set \/ exists cs, cs ∈ cats /\ x ∈ cs.
Proof.
  revert set. induction cats as [|cs cats IH]; intros set; simpl.
  - split; [auto|]. intros [Hx|(cs & Hcs & _)]; [exact Hx|]. inversion Hcs.
  - rewrite IH. unfold sadd_all. rewrite fold_sadd_elem. split.
    + intros [[Hx|Hx]|(cs' & Hcs' & Hx)]; [left; exact Hx| |].
      * right. exists cs. split; [left|exact Hx].
      * right. exists cs'. split; [right; exact Hcs'|exact Hx].
    + intros [Hx|(cs' & Hcs' & Hx)]; [left; left; exact Hx|].
      apply elem_of_cons in Hcs' as [->|Hcs']; [left; right; exact Hx|].
      right. exists cs'. split; assumption.
Qed.

Lemma listed_categories cats c :
  c ∈ foldr sinsert [] (fold_left sadd_all cats []) <-> exists cs, cs ∈ cats /\ c ∈ cs.
Proof. rewrite <- ssort_Permutation, fold_fold_sadd_elem, elem_of_nil. tauto. Qed.

Lemma leb_ne_ltb a b : String.leb a b = true -> a <> b -> String.ltb a b = true.
Proof.
  unfold String.leb, String.ltb. intros Hle Hne.
  destruct (String.compare a b) eqn:Hc; [|reflexivity|discriminate].
  apply String.compare_eq_iff in Hc. contradiction.
Qed.

Lemma Sorted_NoDup_strict l :
  Sorted leb_true l -> NoDup l -> Sorted (fun a b => String.ltb a b = true) l.
Proof.
  induction 1 as [|x l Hs IH Hhd]; intros Hnd; [constructor|].
  apply NoDup_cons in Hnd as [Hx Hnd]. constructor; [apply IH, Hnd|].
  destruct Hhd as [|y l Hxy]; constructor.
  apply leb_ne_ltb; [exact Hxy|]. intros ->. apply Hx. left.
Qed.

(** X1.  On items each of which has an array of strings as its
    [category], [getUniqueCategories] returns the strings that occur in
    some item's array, each once, in strictly ascending order of their
    code units. *)
Theorem getUniqueCategories_sorted_set (items : list json) (cats : list (list string)) :
  Forall2 has_categories items cats ->
  exists result,
    DataLoader.getUniqueCategories items = Ok (JStr <$> result)
    /\ Sorted (fun a b => String.ltb a b = true) result
    /\ NoDup result
    /\ forall c, c ∈ result <-> exists cs, cs ∈ cats /\ c ∈ cs.
Proof.
  intros Hall. exists (foldr sinsert [] (fold_left sadd_all cats [])).
  assert (Hnd : NoDup (fold_left sadd_all cats [])) by apply fold_fold_sadd_NoDup, NoDup_nil_2.
  assert (Hnd' : NoDup (foldr sinsert [] (fold_left sadd_all cats [])))
    by (rewrite <- ssort_Permutation; exact Hnd).
  split; [apply getUniqueCategories_strings, Hall|].
  split; [apply Sorted_NoDup_strict; [apply ssort_Sorted|exact Hnd']|].
  split; [exact Hnd'|]. apply listed_categories.
Qed.

Lemma add_categories_throws set items :
  Exists (fun item => category_of item = Throw TypeError) items ->
  add_categories set items = Throw TypeError.
Proof.
  intros Hex. revert set. induction Hex as [item items Hbad|item items _ IH]; intros set.
  - simpl. rewrite Hbad. reflexivity.
  - simpl. destruct (category_of item) as [cats|e] eqn:Hc; [apply IH|].
    unfold category_of in Hc.
    destruct item; try (injection Hc as <-; reflexivity);
      destruct (prop _ "category") as [[| | | | |]|]; try discriminate;
      injection Hc as <-; reflexivity.
Qed.

(** X2.  The check of the loaders looks at the collection, not at its
    items: an object with an [items] array and a [lastUpdated] string
    passes it even when an item has no [category] array, and on such
    items [getUniqueCategories] throws a [TypeError]. *)
Theorem accepted_collection_without_categories (m : gmap string json) (items : list json)
    (stamp : string) :
  m !! "items" = Some (JArr items) ->
  m !! "lastUpdated" = Some (JStr stamp) ->
  Exists (fun item => DataLoader.category_of item = Throw TypeError) items ->
  DataLoader.isValidNavigationData (JObj m) = true
  /\ DataLoader.getUniqueCategories items = Throw TypeError.
Proof.
  intros Hitems Hstamp Hex. split.
  - unfold DataLoader.isValidNavigationData, prop. rewrite Hitems, Hstamp. reflexivity.
  - unfold getUniqueCategories. rewrite (add_categories_throws [] items Hex). reflexivity.
Qed.

End Categories.

Section Items.
Context `{JSON}.

(** X3.  [loadNavigationItems] returns where [loadNavigationData]
    returns, throws what it throws, and leaves the world it leaves; what
    it returns is an array, the [items] of the collection. *)
Theorem loadNavigationItems_array (w : World) :
  match DataLoader.loadNavigationData w with
  | (Ok data, w') =>
      exists items,
        DataLoader.loadNavigationItems w = (Ok (Some (JArr items)), w')
        /\ prop data "items" = Some (JArr items)
  | (Throw e, w') => DataLoader.loadNavigationItems w = (Throw e, w')
  end.
Proof.
  unfold DataLoader.loadNavigationItems, mbind, M_bind.
  destruct (DataLoader.loadNavigationData w) as [[data|e] w'] eqn:Hload; [|reflexivity].
  assert (Hv : DataLoader.isValidNavigationData data = true).
  { revert Hload. rewrite loadNavigationData_run.
    destruct (overlay w) as [d|] eqn:Ho; [intros [= <- _]; exact (overlay_valid _ _ Ho)|].
    apply fetchBundled_valid. }
  destruct (valid_items data Hv) as (items & _ & Hitems).
  exists items. rewrite Hitems. split; reflexivity.
Qed.

End Items.

(** ** The generated strings *)

Section Shapes.
Context `{JSON}.
Import JSString.

Definition is_hex (c : ascii) : bool := between 48 57 c || between 97 102 c.

(** Two hexadecimal digits. *)
Definition two_hex (s : string) : bool :=
  match s with
  | String a (String b EmptyString) => is_hex a && is_hex b
  | _ => false
  end.

Lemma color_bytes_checked :
  forallb (fun k => two_hex (substr_last 2 ("00" +:+ toStringRadix 16 (Z.of_nat k)))) (seq 0 256)
  = true.
Proof. vm_compute. reflexivity. Qed.

Lemma color_byte_two_hex hash i : two_hex (DataWriter.color_byte hash i) = true.
Proof.
  unfold DataWriter.color_byte.
  set (value := Z.land _ 255).
  assert (Hv : (0 <= value < 256)%Z).
  { unfold value. split; [apply Z.land_nonneg; right; lia|].
    change 255%Z with (Z.ones 8). rewrite Z.land_ones by lia.
    apply Z.mod_pos_bound. lia. }
  pose proof color_bytes_checked as Hall. rewrite forallb_forall in Hall.
  specialize (Hall (Z.to_nat value)). rewrite Z2Nat.id in Hall by lia.
  apply Hall, in_seq. lia.
Qed.

(** X4.  Whatever the string, [stringToColor] returns a number sign
    followed by six hexadecimal digits in lower case. *)
Theorem stringToColor_shape (str : string) :
  exists r1 r2 g1 g2 b1 b2,
    DataWriter.stringToColor str
    = String "#" (String r1 (String r2 (String g1 (String g2 (String b1 (String b2 EmptyString))))))
    /\ forallb is_hex [r1; r2; g1; g2; b1; b2] = true.
Proof.
  unfold DataWriter.stringToColor.
  pose proof (color_byte_two_hex (DataWriter.hash_from 0 str) 0) as H0.
  pose proof (color_byte_two_hex (DataWriter.hash_from 0 str) 1) as H1.
  pose proof (color_byte_two_hex (DataWriter.hash_from 0 str) 2) as H2.
  destruct (DataWriter.color_byte _ 0) as [|r1 [|r2 [|]]]; try discriminate.
  destruct (DataWriter.color_byte _ 1) as [|g1 [|g2 [|]]]; try discriminate.
  destruct (DataWriter.color_byte _ 2) as [|b1 [|b2 [|]]]; try discriminate.
  exists r1, r2, g1, g2, b1, b2. split; [reflexivity|].
  cbn [two_hex] in H0, H1, H2.
  apply andb_prop in H0 as [Hr1 Hr2]. apply andb_prop in H1 as [Hg1 Hg2].
  apply andb_prop in H2 as [Hb1 Hb2].
  cbn [forallb]. rewrite Hr1, Hr2, Hg1, Hg2, Hb1, Hb2. reflexivity.
Qed.


(** *** The initials *)

Lemma slice0_length n s : (String.length (slice0 n s) <= n)%nat.
Proof.
  revert s. induction n as [|n IH]; intros [|c s]; simpl; try lia.
  specialize (IH s). lia.
Qed.

Lemma word_starts_empty at_start s :
  word_starts at_start s = EmptyString -> at_start = true -> sall Spec.is_blank s = true.
Proof.
  revert at_start. induction s as [|c s IH]; intros at_start; [reflexivity|].
  simpl. destruct (Spec.is_blank c); [intros Hw _; apply (IH true Hw eq_refl)|].
  intros Hw ->. discriminate.
Qed.

Lemma word_starts_blank s : sall Spec.is_blank s = true -> word_starts true s = EmptyString.
Proof.
  induction s as [|c s IH]; [reflexivity|].
  simpl. destruct (Spec.is_blank c); [exact IH|discriminate].
Qed.

Lemma slice0_empty n s : slice0 (S n) s = EmptyString <-> s = EmptyString.
Proof. destruct s; simpl; split; congruence. Qed.

(** X5.  [getInitials] returns at most two code units, and returns the
    empty string exactly for a name that holds nothing but spaces. *)
Theorem getInitials_length_blank (name : string) :
  (String.length (DataWriter.getInitials name) <= 2)%nat
  /\ (DataWriter.getInitials name = EmptyString <-> sall Spec.is_blank name = true).
Proof.
  split; [apply slice0_length|].
  unfold DataWriter.getInitials.
  rewrite slice0_empty, toUpperCase_empty, (proj1 (split_space_starts name)). split.
  - intros Hw. exact (word_starts_empty true name Hw eq_refl).
  - apply word_starts_blank.
Qed.

(** *** The generated id *)

Lemma sall_sfilter p s : sall p (sfilter p s) = true.
Proof.
  induction s as [|c s IH]; [reflexivity|].
  simpl. destruct (p c) eqn:Hp; [simpl; rewrite Hp|]; exact IH.
Qed.

Lemma sall_append p a b : sall p (a +:+ b) = sall p a && sall p b.
Proof.
  induction a as [|c a IH]; [reflexivity|].
  simpl. rewrite IH. apply andb_assoc.
Qed.

Lemma digit_char_id d : (0 <= d < 36)%Z -> is_id_char (digit_char d) = true.
Proof.
  intros Hd.
  assert (exists k, (k < 36)%nat /\ d = Z.of_nat k) as (k & Hk & ->)
    by (exists (Z.to_nat d); lia).
  do 36 (destruct k as [|k]; [reflexivity|]). lia.
Qed.

Lemma digits_from_id fuel n acc :
  sall is_id_char acc = true -> sall is_id_char (digits_from fuel 36 n acc) = true.
Proof.
  revert n acc. induction fuel as [|fuel IH]; intros n acc Hacc; [exact Hacc|].
  cbn [digits_from].
  assert (Hacc' : sall is_id_char (String (digit_char (n mod 36)) acc) = true).
  { cbn [sall]. rewrite digit_char_id by (apply Z.mod_pos_bound; lia). exact Hacc. }
  destruct (n <? 36)%Z; [exact Hacc'|apply IH, Hacc'].
Qed.

Lemma toStringRadix36_id n : sall is_id_char (toStringRadix 36 n) = true.
Proof.
  unfold toStringRadix. destruct (n <? 0)%Z.
  - cbn [sall]. rewrite digits_from_id by reflexivity. reflexivity.
  - apply digits_from_id. reflexivity.
Qed.

Lemma append_cancel (p a b : string) : p +:+ a = p +:+ b -> a = b.
Proof. induction p as [|c p IH]; simpl; [auto|]. intros [= Heq]. auto. Qed.

Lemma idOf_shape (name : string) (t t' : Z) :
  sall is_id_char (idOf name t) = true
  /\ (idOf name t = idOf name t' -> t = t').
Proof.
  split.
  - unfold idOf, strip_non_id. rewrite !sall_append, sall_sfilter, toStringRadix36_id.
    reflexivity.
  - unfold idOf. intros Heq. apply append_cancel, append_cancel in Heq.
    pose proof (of_base36_toStringRadix t) as Ht. rewrite Heq in Ht.
    rewrite of_base36_toStringRadix in Ht. congruence.
Qed.

(** X6.  [generateId] always returns, and its id holds nothing but the
    lower-case letters, the digits and the hyphen; for one name, two
    calls give the same id exactly when the clock reads the same
    millisecond at both. *)
Theorem generateId_shape (name : string) (w w' : World) :
  exists id id',
    fst (DataWriter.generateId name w) = Ok id
    /\ fst (DataWriter.generateId name w') = Ok id'
    /\ sall is_id_char id = true
    /\ (id = id' <-> reading w 0 = reading w' 0).
Proof.
  exists (idOf name (reading w 0)), (idOf name (reading w' 0)).
  rewrite !generateId_run. split; [reflexivity|]. split; [reflexivity|].
  destruct (idOf_shape name (reading w 0) (reading w' 0)) as [Hchars Hinj].
  split; [exact Hchars|]. split; [exact Hinj|]. intros ->. reflexivity.
Qed.

End Shapes.

(** ** What a mutation leaves *)

Section AllOrNothing.
Context `{JSON}.
Import JSString.

Ltac run := unfold try_catch, lift, throw, mbind, M_bind, mret, M_ret.

Ltac step :=
  first
    [ rewrite generateId_run
    | rewrite Date_toISOString_run
    | rewrite saveToLocalStorage_run ];
  cbv beta iota.

Lemma updateItem_steps itemId itemData w :
  DataWriter.updateItem itemId itemData w =
  match DataWriter.findIndex_id itemId (currentItems w) with
  | Throw e => (Throw e, loaded w)
  | Ok None => (Throw (notFound itemId), loaded w)
  | Ok (Some i) =>
      let item := DataWriter.updatedItem (currentItems w !! i) itemData (now (loaded w) 0) in
      let updated :=
        DataWriter.updatedData (resolved w) (<[i := item]> (currentItems w)) (now (loaded w) 1) in
      if fits updated (loaded w)
      then (Ok (<[i := item]> (currentItems w)), stored updated (advance 2 (loaded w)))
      else (Throw QuotaExceededError, advance 2 (loaded w))
  end.
Proof.
  unfold DataWriter.updateItem. run.
  rewrite loadData_resolved, items_of_resolved. cbv beta iota.
  destruct (DataWriter.findIndex_id itemId (currentItems w)) as [[i|]|e]; try reflexivity.
  cbv beta iota zeta. do 2 step. rewrite now_advance, advance_advance. simpl Nat.add.
  step. rewrite fits_advance. destruct (fits _ (loaded w)); reflexivity.
Qed.

Lemma deleteItem_steps itemId w :
  DataWriter.deleteItem itemId w =
  match DataWriter.filter_not_id itemId (currentItems w) with
  | Throw e => (Throw e, loaded w)
  | Ok kept =>
      let updated := DataWriter.updatedData (resolved w) kept (now (loaded w) 0) in
      if (length kept =? length (currentItems w))%nat then (Throw (notFound itemId), loaded w)
      else if fits updated (loaded w) then (Ok kept, stored updated (advance 1 (loaded w)))
      else (Throw QuotaExceededError, advance 1 (loaded w))
  end.
Proof.
  unfold DataWriter.deleteItem. run.
  rewrite loadData_resolved, items_of_resolved. cbv beta iota.
  destruct (DataWriter.filter_not_id itemId (currentItems w)) as [kept|e]; [|reflexivity].
  cbv beta iota. destruct (length kept =? length (currentItems w))%nat; [reflexivity|].
  step. step. rewrite fits_advance. destruct (fits _ (loaded w)); reflexivity.
Qed.

Lemma addItem_steps' itemData w :
  let id := idOf (name itemData) (reading (loaded w) 0) in
  let item :=
    DataWriter.newItem itemData id (DataWriter.generateDefaultLogo (name itemData))
      (now (loaded w) 1) in
  let updated :=
    DataWriter.updatedData (resolved w) (currentItems w ++ [item]) (now (loaded w) 2) in
  DataWriter.addItem itemData w =
  match DataWriter.some_has_id id (currentItems w) with
  | Throw e => (Throw e, advance 2 (loaded w))
  | Ok true => (Throw (duplicateId id), advance 2 (loaded w))
  | Ok false =>
      if fits updated (loaded w)
      then (Ok (currentItems w ++ [item]), stored updated (advance 3 (loaded w)))
      else (Throw QuotaExceededError, advance 3 (loaded w))
  end.
Proof. exact (addItem_steps itemData w _ _ _ (loadData_resolved w) (items_of_resolved w)). Qed.

(** What a mutation leaves in the storage: nothing new, or the
    serialisation of a collection that passes the check and whose items
    are the ones it returned. *)
Definition all_or_nothing (w : World) (outcome : result (list json) * World) : Prop :=
  match fst outcome with
  | Throw _ => localStorage (snd outcome) = localStorage w
  | Ok items =>
      exists updated,
        localStorage (snd outcome)
        = <[DataWriter.LOCAL_STORAGE_KEY := JSON_stringify updated]> (localStorage w)
        /\ DataWriter.isValidNavigationData updated = true
        /\ prop updated "items" = Some (JArr items)
        /\ (truthy (JSON_stringify updated) = true ->
            JSON_parse (JSON_stringify updated) = Some updated ->
            DataLoader.loadNavigationData (snd outcome) = (Ok updated, snd outcome)
            /\ currentItems (snd outcome) = items)
  end.

Lemma loaded_advance_storage n w : localStorage (advance n (loaded w)) = localStorage w.
Proof. apply (loaded_storage w). Qed.

Lemma updatedData_items cur items stamp :
  prop (DataWriter.updatedData cur items stamp) "items" = Some (JArr items).
Proof.
  unfold DataWriter.updatedData, prop.
  rewrite lookup_insert_ne by discriminate. apply lookup_insert_eq.
Qed.

Lemma stored_overlay data w :
  DataLoader.isValidNavigationData data = true ->
  truthy (JSON_stringify data) = true ->
  JSON_parse (JSON_stringify data) = Some data ->
  overlay (stored data w) = Some data.
Proof.
  intros Hv Ht Hp. unfold overlay, stored. cbn [localStorage with_localStorage].
  change DataLoader.LOCAL_STORAGE_KEY with DataWriter.LOCAL_STORAGE_KEY.
  rewrite lookup_insert_eq, Ht, Hp, Hv. reflexivity.
Qed.

Lemma stored_all_or_nothing w cur items stamp n :
  all_or_nothing w
    (Ok items, stored (DataWriter.updatedData cur items stamp) (advance n (loaded w))).
Proof.
  unfold all_or_nothing. cbn [fst snd].
  exists (DataWriter.updatedData cur items stamp).
  split; [unfold stored; cbn [localStorage with_localStorage]; rewrite loaded_advance_storage;
          reflexivity|].
  split; [apply updatedData_valid|]. split; [apply updatedData_items|].
  intros Ht Hp.
  pose proof (stored_overlay _ (advance n (loaded w)) (updatedData_valid cur items stamp) Ht Hp)
    as Ho.
  split.
  - rewrite loadNavigationData_run, Ho. reflexivity.
  - unfold currentItems, resolved. rewrite Ho, updatedData_items. reflexivity.
Qed.

Ltac unchanged := unfold all_or_nothing; cbn [fst snd]; apply loaded_advance_storage.
Ltac untouched w := unfold all_or_nothing; cbn [fst snd]; apply (loaded_storage w).

Lemma addItem_all_or_nothing w itemData : all_or_nothing w (DataWriter.addItem itemData w).
Proof.
  rewrite addItem_steps'. cbv zeta.
  destruct (DataWriter.some_has_id _ _) as [[]|e]; try unchanged.
  destruct (fits _ _); [apply stored_all_or_nothing|unchanged].
Qed.

Lemma updateItem_all_or_nothing w itemId itemData :
  all_or_nothing w (DataWriter.updateItem itemId itemData w).
Proof.
  rewrite updateItem_steps.
  destruct (DataWriter.findIndex_id _ _) as [[i|]|e]; try untouched w.
  cbv zeta. destruct (fits _ _); [apply stored_all_or_nothing|unchanged].
Qed.

Lemma deleteItem_all_or_nothing w itemId : all_or_nothing w (DataWriter.deleteItem itemId w).
Proof.
  rewrite deleteItem_steps.
  destruct (DataWriter.filter_not_id _ _) as [kept|e]; [|untouched w].
  cbv zeta. destruct (length kept =? _)%nat; [untouched w|].
  destruct (fits _ _); [apply stored_all_or_nothing|unchanged].
Qed.

(** X7.  A mutation that throws, whatever it throws, leaves the storage
    as it found it.  One that returns has replaced the overlay, and
    nothing else, by the serialisation of a collection that passes the
    check and whose items are the ones it returned; when the codec gives
    that collection back, the next read returns it without a request. *)
Theorem mutations_all_or_nothing (w : World) :
  (forall itemData, all_or_nothing w (DataWriter.addItem itemData w))
  /\ (forall itemId itemData, all_or_nothing w (DataWriter.updateItem itemId itemData w))
  /\ (forall itemId, all_or_nothing w (DataWriter.deleteItem itemId w)).
Proof.
  split; [exact (addItem_all_or_nothing w)|].
  split; [exact (updateItem_all_or_nothing w)|exact (deleteItem_all_or_nothing w)].
Qed.

(** *** Unique ids *)

(** The string id of an item, if it has one. *)
Definition string_id (item : json) : option string :=
  match prop item "id" with
  | Some (JStr id) => Some id
  | _ => None
  end.

(** No two items carry the same id. *)
Definition unique_ids (items : list json) : Prop := NoDup (omap string_id items).

Lemma carries_string_id id item : carries id item = true <-> string_id item = Some id.
Proof.
  unfold carries, is_string, string_id.
  destruct (prop item "id") as [[| | |s| |]|]; try (split; discriminate).
  rewrite String.eqb_eq. split; congruence.
Qed.

Lemma has_id_carries id item b : DataWriter.has_id id item = Ok b -> carries id item = b.
Proof. destruct item; simpl; try discriminate; intros [= <-]; reflexivity. Qed.

Lemma some_has_id_fresh id items :
  DataWriter.some_has_id id items = Ok false -> id ∉ omap string_id items.
Proof.
  induction items as [|item items IH]; [intros _; apply not_elem_of_nil|].
  cbn [DataWriter.some_has_id].
  destruct (DataWriter.has_id id item) as [[]|e] eqn:Hh; try discriminate.
  intros Hrest Hin. apply has_id_carries in Hh.
  apply list_elem_of_omap in Hin as (x & Hx & Hid).
  apply elem_of_cons in Hx as [->|Hx].
  - apply carries_string_id in Hid. congruence.
  - apply (IH Hrest). apply list_elem_of_omap. exists x. split; assumption.
Qed.

Lemma findIndex_id_found id items i :
  DataWriter.findIndex_id id items = Ok (Some i) ->
  exists existing, items !! i = Some existing /\ carries id existing = true.
Proof.
  revert i. induction items as [|item items IH]; intros i; [discriminate|].
  cbn [DataWriter.findIndex_id].
  destruct (DataWriter.has_id id item) as [[]|e] eqn:Hh; try discriminate.
  - intros [= <-]. exists item. split; [reflexivity|exact (has_id_carries _ _ _ Hh)].
  - destruct (DataWriter.findIndex_id id items) as [[j|]|e]; try discriminate.
    intros [= <-]. exact (IH j eq_refl).
Qed.

Lemma filter_not_id_ids id items kept :
  DataWriter.filter_not_id id items = Ok kept ->
  sublist (omap string_id kept) (omap string_id items).
Proof.
  revert kept. induction items as [|item items IH]; intros kept.
  - intros [= <-]. constructor.
  - cbn [DataWriter.filter_not_id].
    destruct (DataWriter.has_id id item) as [found|e]; [|discriminate].
    destruct (DataWriter.filter_not_id id items) as [kept'|e]; [|discriminate].
    specialize (IH kept' eq_refl). intros [= <-].
    cbn [omap list_omap]. destruct found.
    + destruct (string_id item); [apply sublist_cons|]; exact IH.
    + cbn [omap list_omap]. destruct (string_id item); [apply sublist_skip|]; exact IH.
Qed.

Lemma newItem_string_id itemData id logo stamp :
  string_id (DataWriter.newItem itemData id logo stamp) = Some id.
Proof. unfold string_id. rewrite newItem_id. reflexivity. Qed.

Lemma updatedItem_string_id m itemData stamp :
  string_id (DataWriter.updatedItem (Some (JObj m)) itemData stamp) = string_id (JObj m).
Proof.
  destruct (input_props_reserved itemData) as (Hid & _ & _).
  unfold string_id, DataWriter.updatedItem, prop, spread.
  rewrite lookup_insert_ne by discriminate.
  rewrite lookup_union_r by exact Hid. reflexivity.
Qed.

Lemma omap_insert_same (items : list json) i x y :
  items !! i = Some y -> string_id x = string_id y ->
  omap string_id (<[i := x]> items) = omap string_id items.
Proof.
  revert i. induction items as [|z items IH]; intros [|i]; try discriminate.
  - intros [= ->] Heq. change (<[0%nat := x]> (y :: items)) with (x :: items).
    cbn [omap list_omap]. rewrite Heq. reflexivity.
  - intros Hi Heq. change (<[S i := x]> (z :: items)) with (z :: <[i := x]> items).
    cbn [omap list_omap]. destruct (string_id z); [f_equal|]; exact (IH i Hi Heq).
Qed.

(** X8.  When no two items of the current collection carry the same
    string id, none of the three mutations returns a collection in which
    two items do. *)
Theorem mutations_keep_ids_unique (w : World) :
  unique_ids (currentItems w) ->
  (forall itemData result,
     fst (DataWriter.addItem itemData w) = Ok result -> unique_ids result)
  /\ (forall itemId itemData result,
        fst (DataWriter.updateItem itemId itemData w) = Ok result -> unique_ids result)
  /\ (forall itemId result,
        fst (DataWriter.deleteItem itemId w) = Ok result -> unique_ids result).
Proof.
  intros Huniq. split; [|split].
  - intros itemData result. rewrite addItem_steps'. cbv zeta.
    destruct (DataWriter.some_has_id _ _) as [[]|e] eqn:Hsome; try discriminate.
    destruct (fits _ _); [|discriminate]. cbn [fst]. intros [= <-].
    unfold unique_ids. rewrite omap_app. cbn [omap list_omap].
    rewrite newItem_string_id. apply NoDup_app. split; [exact Huniq|].
    split; [|apply NoDup_singleton].
    intros x Hx Hin. apply list_elem_of_singleton in Hin. subst x.
    exact (some_has_id_fresh _ _ Hsome Hx).
  - intros itemId itemData result. rewrite updateItem_steps.
    destruct (DataWriter.findIndex_id _ _) as [[i|]|e] eqn:Hfind; try discriminate.
    cbv zeta. destruct (fits _ _); [|discriminate]. cbn [fst]. intros [= <-].
    destruct (findIndex_id_found _ _ _ Hfind) as (existing & Hi & Hc).
    destruct (carries_object _ _ Hc) as (m & -> & _).
    unfold unique_ids. rewrite Hi.
    rewrite (omap_insert_same _ i _ (JObj m) Hi (updatedItem_string_id m itemData _)).
    exact Huniq.
  - intros itemId result. rewrite deleteItem_steps.
    destruct (DataWriter.filter_not_id _ _) as [kept|e] eqn:Hfilter; [|discriminate].
    cbv zeta. destruct (length kept =? _)%nat; [discriminate|].
    destruct (fits _ _); [|discriminate]. cbn [fst]. intros [= <-].
    exact (sublist_NoDup _ _ Huniq (filter_not_id_ids _ _ _ Hfilter)).
Qed.

(** *** What the readers leave behind *)

Lemma fetchBundled_storage w :
  localStorage (snd (DataLoader.fetchBundled w)) = localStorage w.
Proof. rewrite fetchBundled_world. reflexivity. Qed.

(** X9.  The two readers leave the storage as it is.  In particular a
    collection that [loadNavigationData] fetched is not kept: the
    overlay is as absent after the call as before, and each such call
    sends its own request. *)
Theorem readers_never_write (w : World) :
  localStorage (snd (DataLoader.loadNavigationData w)) = localStorage w
  /\ localStorage (snd (DataWriter.loadData w)) = localStorage w
  /\ (overlay w = None ->
      effects (snd (DataLoader.loadNavigationData w))
      = effects w ++ [Fetched DataLoader.DATA_URL]
      /\ overlay (snd (DataLoader.loadNavigationData w)) = None).
Proof.
  assert (Hload : localStorage (snd (DataLoader.loadNavigationData w)) = localStorage w).
  { rewrite loadNavigationData_run. destruct (overlay w); [reflexivity|].
    apply fetchBundled_storage. }
  split; [exact Hload|]. split.
  - rewrite loadData_resolved. apply (loaded_storage w).
  - intros Ho. split.
    + rewrite loadNavigationData_run, Ho, fetchBundled_world. reflexivity.
    + rewrite (overlay_storage _ _ Hload). exact Ho.
Qed.

(** *** Saving and loading *)

(** X10.  When the storage takes the serialisation of [data] and the
    codec gives [data] back, [saveToLocalStorage] followed by
    [loadFromLocalStorage] returns [data] if it passes the check and
    [null] if not; a collection that passes is then what both readers
    return, without a request. *)
Theorem save_then_load (data : json) (w : World) :
  fits data w = true ->
  truthy (JSON_stringify data) = true ->
  JSON_parse (JSON_stringify data) = Some data ->
  let w' := stored data w in
  DataWriter.saveToLocalStorage data w = (Ok tt, w')
  /\ DataWriter.loadFromLocalStorage w'
     = (Ok (if DataWriter.isValidNavigationData data then Some data else None), w')
  /\ (DataWriter.isValidNavigationData data = true ->
      DataLoader.loadNavigationData w' = (Ok data, w')
      /\ DataWriter.loadData w' = (Ok data, w')).
Proof.
  intros Hfits Ht Hp w'. split; [rewrite saveToLocalStorage_run, Hfits; reflexivity|].
  assert (Ho : overlay w' = if DataWriter.isValidNavigationData data then Some data else None).
  { unfold overlay, w', stored. cbn [localStorage with_localStorage].
    change DataLoader.LOCAL_STORAGE_KEY with DataWriter.LOCAL_STORAGE_KEY.
    rewrite lookup_insert_eq, Ht, Hp. reflexivity. }
  split; [rewrite loadFromLocalStorage_overlay, Ho; reflexivity|].
  intros Hv. rewrite Hv in Ho. split.
  - rewrite loadNavigationData_run, Ho. reflexivity.
  - rewrite loadData_run, Ho. reflexivity.
Qed.

(** *** The resolution of the clock *)

Lemma records_app items item : records items -> item <> JNull -> records (items ++ [item]).
Proof. intros Hrec Hn. apply Forall_app. split; [exact Hrec|]. constructor; [exact Hn|constructor]. Qed.

(** X11.  Two items of one name cannot be created in one millisecond:
    when [addItem] has stored a new item and the clock still reads the
    millisecond the id was made from, a second [addItem] for that name
    throws the duplicate-id error and the collection is as the first
    call left it. *)
Theorem create_twice_in_one_millisecond (a b : AgentInput) (w : World) :
  let id := idOf (name a) (reading (loaded w) 0) in
  let item :=
    DataWriter.newItem a id (DataWriter.generateDefaultLogo (name a)) (now (loaded w) 1) in
  let updated :=
    DataWriter.updatedData (resolved w) (currentItems w ++ [item]) (now (loaded w) 2) in
  let w' := stored updated (advance 3 (loaded w)) in
  records (currentItems w) ->
  existsb (carries id) (currentItems w) = false ->
  fits updated (loaded w) = true ->
  truthy (JSON_stringify updated) = true ->
  JSON_parse (JSON_stringify updated) = Some updated ->
  name b = name a ->
  reading w' 0 = reading (loaded w) 0 ->
  DataWriter.addItem a w = (Ok (currentItems w ++ [item]), w')
  /\ DataWriter.addItem b w' = (Throw (duplicateId id), advance 2 w')
  /\ currentItems (advance 2 w') = currentItems w ++ [item].
Proof.
  intros id item updated w' Hrec Hfresh Hfits Ht Hp Hname Hclock.
  pose proof (addItem_run a w _ _ _ (loadData_resolved w) (items_of_resolved w) Hrec) as Hrun.
  cbv zeta in Hrun. fold id item updated in Hrun.
  rewrite Hfresh, Hfits in Hrun. fold w' in Hrun.
  pose proof (stored_overlay updated (advance 3 (loaded w))
                (updatedData_valid _ _ _) Ht Hp) as Ho. fold w' in Ho.
  assert (Hres : resolved w' = updated) by (unfold resolved; rewrite Ho; reflexivity).
  assert (Hloaded : loaded w' = w') by (unfold loaded; rewrite Ho; reflexivity).
  assert (Hcur : currentItems w' = currentItems w ++ [item]).
  { unfold currentItems at 1. rewrite Hres. unfold updated. rewrite updatedData_items.
    reflexivity. }
  assert (Hrec' : records (currentItems w')).
  { rewrite Hcur. apply records_app; [exact Hrec|discriminate]. }
  pose proof (addItem_run b w' _ _ _ (loadData_resolved w') (items_of_resolved w') Hrec')
    as Hrun'.
  cbv zeta in Hrun'. rewrite Hloaded, Hname, Hclock in Hrun'. fold id in Hrun'.
  replace (existsb (carries id) (currentItems w')) with true in Hrun'.
  2:{ rewrite Hcur, existsb_app. cbn [existsb]. unfold carries at 2, item.
      rewrite newItem_id. cbn [is_string]. rewrite String.eqb_refl.
      rewrite orb_true_r. reflexivity. }
  split; [exact Hrun|]. split; [exact Hrun'|].
  rewrite <- Hcur. unfold currentItems, resolved.
  change (overlay (advance 2 w')) with (overlay w'). rewrite Ho. reflexivity.
Qed.

End AllOrNothing.

(** ** The admin session *)

Section Sessions.
Context `{JSON}.
Import JSString.
Variable VITE_ADMIN_PASSWORD : option string.
Variable later_than_text : Z -> string -> bool.

Abbreviation ADMIN_PASSWORD := (AuthUtils.ADMIN_PASSWORD VITE_ADMIN_PASSWORD).
Abbreviation login := (AuthUtils.login VITE_ADMIN_PASSWORD).
Abbreviation isAuthenticated := (AuthUtils.isAuthenticated later_than_text).
Abbreviation later_than := (AuthUtils.later_than later_than_text).

(** The state [login] stores. *)
Definition session (token : string) (expiresAt : Z) : json :=
  JObj (<["isAuthenticated" := JBool true]>
        (<["token" := JStr token]> (<["expiresAt" := JNum expiresAt]> ∅))).

(** What [getAuthState] reads in a world. *)
Definition authState (w : World) : json :=
  match localStorage w !! AuthUtils.STORAGE_KEY with
  | Some text =>
      if truthy text then
        match JSON_parse text with
        | Some state => state
        | None => JNull
        end
      else JNull
  | None => JNull
  end.

(** The world after [logout]. *)
Definition loggedOut (w : World) : World :=
  with_localStorage (delete AuthUtils.STORAGE_KEY (localStorage w)) w.

Lemma getAuthState_run w : AuthUtils.getAuthState w = (Ok (authState w), w).
Proof.
  unfold AuthUtils.getAuthState, authState, try_catch, getItem, parse, mbind, M_bind, mret,
    M_ret, throw.
  destruct (localStorage w !! AuthUtils.STORAGE_KEY) as [text|]; [|reflexivity].
  destruct (truthy text); [|reflexivity].
  destruct (JSON_parse text); reflexivity.
Qed.

Lemma isAuthenticated_run w :
  isAuthenticated w =
  let state := authState w in
  if negb (truthy_value (prop state "isAuthenticated"))
     || negb (truthy_value (prop state "token"))
  then (Ok false, w)
  else if truthy_value (prop state "expiresAt") then
    if later_than (reading w 0) (prop state "expiresAt")
    then (Ok false, loggedOut (advance 1 w))
    else (Ok true, advance 1 w)
  else (Ok true, w).
Proof.
  unfold AuthUtils.isAuthenticated, mbind, M_bind. rewrite getAuthState_run. cbv zeta beta iota.
  destruct (negb _ || negb _); [reflexivity|].
  destruct (truthy_value (prop (authState w) "expiresAt")); [|reflexivity].
  unfold Date_now, reading. simpl Nat.add.
  destruct (later_than _ _); reflexivity.
Qed.

Lemma login_run randomBytes password w :
  login randomBytes password w =
  if String.eqb password ADMIN_PASSWORD then
    let state :=
      session (AuthUtils.generateToken randomBytes) (reading w 0 + AuthUtils.TOKEN_EXPIRY) in
    if fits state w
    then (Ok true,
          with_localStorage
            (<[AuthUtils.STORAGE_KEY := JSON_stringify state]> (localStorage w)) (advance 1 w))
    else (Throw QuotaExceededError, advance 1 w)
  else (Ok false, w).
Proof.
  unfold AuthUtils.login. destruct (String.eqb password ADMIN_PASSWORD); [|reflexivity].
  unfold mbind, M_bind, Date_now, setItem, fits, session, reading. simpl Nat.add.
  cbv beta iota zeta. cbn [quota with_ticks].
  destruct (String.length _ <=? quota w)%nat; reflexivity.
Qed.

Lemma btoa_units_empty units : AuthUtils.btoa_units units = EmptyString -> units = [].
Proof. destruct units as [|a [|b [|c rest]]]; [reflexivity|discriminate..]. Qed.

Lemma generateToken_truthy randomBytes :
  randomBytes <> [] -> truthy (AuthUtils.generateToken randomBytes) = true.
Proof.
  intros Hne. unfold truthy, AuthUtils.generateToken, AuthUtils.btoa.
  rewrite list_ascii_of_string_of_list_ascii.
  destruct randomBytes as [|b bytes]; [contradiction|].
  destruct (AuthUtils.btoa_units _) eqn:Hb; [|reflexivity].
  apply btoa_units_empty in Hb. discriminate.
Qed.

Lemma session_props token expiresAt :
  prop (session token expiresAt) "isAuthenticated" = Some (JBool true)
  /\ prop (session token expiresAt) "token" = Some (JStr token)
  /\ prop (session token expiresAt) "expiresAt" = Some (JNum expiresAt).
Proof.
  unfold session, prop. split; [|split].
  - apply lookup_insert_eq.
  - rewrite lookup_insert_ne by discriminate. apply lookup_insert_eq.
  - rewrite !lookup_insert_ne by discriminate. apply lookup_insert_eq.
Qed.

(** The guard of the admin route, with the page as its child. *)
Abbreviation guard := (AuthGuard later_than_text (Some tt)).

Lemma guard_run (w : World) :
  guard w =
  match isAuthenticated w with
  | (Ok true, w') => (Ok (Children tt), w')
  | (Ok false, w') => (Ok (Navigate "/login"), w')
  | (Throw e, w') => (Throw e, w')
  end.
Proof.
  unfold AuthGuard, mbind, M_bind.
  destruct (isAuthenticated w) as [[[]|e] w']; reflexivity.
Qed.

(** X12.  With a wrong password [login] returns false and leaves the
    world as it is.  With the right one it returns true and stores a
    session that expires 24 hours after the clock's reading; as long as
    that session is what the storage holds, [isAuthenticated] is true
    and the guard renders the page while the clock reads no later than
    the expiry, and after it [isAuthenticated] is false, removes the
    session, and the guard redirects to the login page. *)
Theorem login_session (randomBytes : list ascii) (password : string) (w : World) :
  let state :=
    session (AuthUtils.generateToken randomBytes) (reading w 0 + AuthUtils.TOKEN_EXPIRY) in
  let w1 :=
    with_localStorage
      (<[AuthUtils.STORAGE_KEY := JSON_stringify state]> (localStorage w)) (advance 1 w) in
  randomBytes <> [] ->
  (reading w 0 + AuthUtils.TOKEN_EXPIRY)%Z <> 0%Z ->
  fits state w = true ->
  truthy (JSON_stringify state) = true ->
  JSON_parse (JSON_stringify state) = Some state ->
  (password <> ADMIN_PASSWORD -> login randomBytes password w = (Ok false, w))
  /\ (password = ADMIN_PASSWORD ->
      login randomBytes password w = (Ok true, w1)
      /\ forall w2,
           localStorage w2 !! AuthUtils.STORAGE_KEY = localStorage w1 !! AuthUtils.STORAGE_KEY ->
           if (reading w 0 + AuthUtils.TOKEN_EXPIRY <? reading w2 0)%Z
           then isAuthenticated w2 = (Ok false, loggedOut (advance 1 w2))
                /\ guard w2 = (Ok (Navigate "/login"), loggedOut (advance 1 w2))
                /\ authState (loggedOut (advance 1 w2)) = JNull
           else isAuthenticated w2 = (Ok true, advance 1 w2)
                /\ guard w2 = (Ok (Children tt), advance 1 w2)).
Proof.
  intros state w1 Hbytes Hexp Hfits Ht Hp. split.
  - intros Hne. rewrite login_run.
    destruct (String.eqb password ADMIN_PASSWORD) eqn:Heq; [|reflexivity].
    apply String.eqb_eq in Heq. contradiction.
  - intros ->. split.
    + rewrite login_run, String.eqb_refl. cbv zeta. fold state. rewrite Hfits. reflexivity.
    + intros w2 Hslot.
      assert (Hstate : authState w2 = state).
      { unfold authState. rewrite Hslot. unfold w1. cbn [localStorage with_localStorage].
        rewrite lookup_insert_eq, Ht, Hp. reflexivity. }
      destruct (session_props (AuthUtils.generateToken randomBytes)
                  (reading w 0 + AuthUtils.TOKEN_EXPIRY)) as (Hauth & Htoken & Hexpires).
      fold state in Hauth, Htoken, Hexpires.
      assert (Hrun : isAuthenticated w2 =
                     if (reading w 0 + AuthUtils.TOKEN_EXPIRY <? reading w2 0)%Z
                     then (Ok false, loggedOut (advance 1 w2)) else (Ok true, advance 1 w2)).
      { rewrite isAuthenticated_run. cbv zeta. rewrite Hstate, Hauth, Htoken, Hexpires.
        cbn [truthy_value negb orb]. rewrite (generateToken_truthy _ Hbytes).
        cbn [negb]. apply Z.eqb_neq in Hexp. rewrite Hexp. reflexivity. }
      rewrite guard_run, Hrun.
      destruct (reading w 0 + AuthUtils.TOKEN_EXPIRY <? reading w2 0)%Z.
      * split; [reflexivity|]. split; [reflexivity|].
        unfold authState, loggedOut. cbn [localStorage with_localStorage advance with_ticks].
        rewrite lookup_delete_eq. reflexivity.
      * split; reflexivity.
Qed.


(** X13.  A stored state with a truthy [isAuthenticated], a truthy
    [token] and a missing or falsy [expiresAt] never expires:
    whatever the clock reads, [isAuthenticated] is true, the guard
    renders the page, and the state stays. *)
Theorem session_without_expiry (w : World) :
  truthy_value (prop (authState w) "isAuthenticated") = true ->
  truthy_value (prop (authState w) "token") = true ->
  truthy_value (prop (authState w) "expiresAt") = false ->
  forall w',
    localStorage w' !! AuthUtils.STORAGE_KEY = localStorage w !! AuthUtils.STORAGE_KEY ->
    isAuthenticated w' = (Ok true, w') /\ guard w' = (Ok (Children tt), w').
Proof.
  intros Hauth Htoken Hexp w' Hslot.
  assert (Hstate : authState w' = authState w) by (unfold authState; rewrite Hslot; reflexivity).
  assert (Hrun : isAuthenticated w' = (Ok true, w')).
  { rewrite isAuthenticated_run. cbv zeta. rewrite Hstate, Hauth, Htoken, Hexp. reflexivity. }
  split; [exact Hrun|]. rewrite guard_run, Hrun. reflexivity.
Qed.

Lemma overlay_other_key w storage :
  storage !! DataLoader.LOCAL_STORAGE_KEY = localStorage w !! DataLoader.LOCAL_STORAGE_KEY ->
  overlay (with_localStorage storage w) = overlay w.
Proof. unfold overlay. cbn [localStorage with_localStorage]. intros ->. reflexivity. Qed.

Lemma overlay_advance n w : overlay (advance n w) = overlay w.
Proof. reflexivity. Qed.

(** X14.  After [logout] nobody is authenticated and the guard
    redirects to the login page; the overlay is as it was. *)
Theorem logout_ends_session (w : World) :
  AuthUtils.logout w = (Ok tt, loggedOut w)
  /\ isAuthenticated (loggedOut w) = (Ok false, loggedOut w)
  /\ guard (loggedOut w) = (Ok (Navigate "/login"), loggedOut w)
  /\ overlay (loggedOut w) = overlay w.
Proof.
  assert (Hrun : isAuthenticated (loggedOut w) = (Ok false, loggedOut w)).
  { rewrite isAuthenticated_run. cbv zeta. unfold authState, loggedOut.
    cbn [localStorage with_localStorage]. rewrite lookup_delete_eq. reflexivity. }
  split; [reflexivity|]. split; [exact Hrun|]. split.
  - rewrite guard_run, Hrun. reflexivity.
  - apply overlay_other_key. apply lookup_delete_ne. discriminate.
Qed.

(** X15.  The session and the collection do not touch each other: the
    three mutations leave the stored session as it is, whether they
    return or throw, and [login] and [isAuthenticated] leave the
    overlay as it is. *)
Theorem sessions_and_data_apart (w : World) :
  (forall itemData, authState (snd (DataWriter.addItem itemData w)) = authState w)
  /\ (forall itemId itemData,
        authState (snd (DataWriter.updateItem itemId itemData w)) = authState w)
  /\ (forall itemId, authState (snd (DataWriter.deleteItem itemId w)) = authState w)
  /\ (forall randomBytes password,
        overlay (snd (login randomBytes password w)) = overlay w)
  /\ overlay (snd (isAuthenticated w)) = overlay w.
Proof.
  assert (Hkeep : forall outcome, all_or_nothing w outcome -> authState (snd outcome) = authState w).
  { intros [[items|e] w'] Hall; unfold all_or_nothing in Hall; cbn [fst snd] in *.
    - destruct Hall as (updated & Hs & _). unfold authState. rewrite Hs.
      rewrite lookup_insert_ne by discriminate. reflexivity.
    - unfold authState. rewrite Hall. reflexivity. }
  split; [intros; apply Hkeep, addItem_all_or_nothing|].
  split; [intros; apply Hkeep, updateItem_all_or_nothing|].
  split; [intros; apply Hkeep, deleteItem_all_or_nothing|]. split.
  - intros randomBytes password. rewrite login_run.
    destruct (String.eqb password ADMIN_PASSWORD); [|reflexivity].
    cbv zeta. destruct (fits _ w); [|reflexivity]. cbn [snd].
    rewrite overlay_other_key; [reflexivity|].
    cbn [localStorage advance with_ticks]. apply lookup_insert_ne. discriminate.
  - rewrite isAuthenticated_run. cbv zeta.
    destruct (negb _ || negb _); [reflexivity|].
    destruct (truthy_value (prop (authState w) "expiresAt")); [|reflexivity].
    destruct (later_than _ _); [|reflexivity]. cbn [snd]. unfold loggedOut.
    rewrite overlay_other_key; [reflexivity|].
    cbn [localStorage advance with_ticks]. apply lookup_delete_ne. discriminate.
Qed.

(** X16.  [isPasswordConfigured] is true exactly when the environment
    gives a password that is neither empty nor the default one.  When
    it is false, the password [default_password] logs in: [login]
    returns true unless the storage refuses the write. *)
Theorem default_password_accepted (randomBytes : list ascii) (w : World) :
  (AuthUtils.isPasswordConfigured VITE_ADMIN_PASSWORD = true <->
   exists password,
     VITE_ADMIN_PASSWORD = Some password
     /\ password <> EmptyString /\ password <> "default_password")
  /\ (AuthUtils.isPasswordConfigured VITE_ADMIN_PASSWORD = false ->
      fst (login randomBytes "default_password" w) = Ok true
      \/ fst (login randomBytes "default_password" w) = Throw QuotaExceededError).
Proof.
  unfold AuthUtils.isPasswordConfigured. split.
  - unfold AuthUtils.ADMIN_PASSWORD, truthy.
    destruct VITE_ADMIN_PASSWORD as [password|].
    + destruct (String.eqb password EmptyString) eqn:He; cbn [negb].
      * apply String.eqb_eq in He. split; [discriminate|].
        intros (p & [= <-] & Hne & _). contradiction.
      * apply String.eqb_neq in He. rewrite negb_true_iff, String.eqb_neq. split.
        -- intros Hd. exists password. repeat split; assumption.
        -- intros (p & [= <-] & _ & Hd). exact Hd.
    + split; [discriminate|]. intros (p & Hp & _). discriminate.
  - rewrite negb_false_iff, String.eqb_eq. intros Hd.
    rewrite login_run, Hd, String.eqb_refl. cbv zeta.
    destruct (fits _ w); [left|right]; reflexivity.
Qed.

End Sessions.

(** ** The pages of the admin table *)

Section Pagination.
Import AdminPage.

Lemma currentItems_chunk (p : nat) (l : list json) :
  currentItems (Z.of_nat (S p)) l = take 10 (drop (10 * p) l).
Proof.
  unfold currentItems, slice, relative_index, itemsPerPage.
  set (len := length l).
  destruct (Z.of_nat (S p) * 10 - 10 <? 0)%Z eqn:H1; [apply Z.ltb_lt in H1; lia|].
  destruct (Z.of_nat (S p) * 10 <? 0)%Z eqn:H2; [apply Z.ltb_lt in H2; lia|].
  clear H1 H2.
  destruct (Nat.le_gt_cases len (10 * p)) as [Hge|Hlt].
  - rewrite !Z.min_r by lia. rewrite Z.sub_diag. change (Z.to_nat 0) with 0%nat.
    rewrite take_0, (drop_ge l (10 * p)) by exact Hge. reflexivity.
  - rewrite (Z.min_l (Z.of_nat (S p) * 10 - 10)) by lia.
    replace (Z.to_nat (Z.of_nat (S p) * 10 - 10)) with (10 * p)%nat by lia.
    destruct (Nat.le_gt_cases (10 * S p) len) as [Hfull|Hpart].
    + rewrite Z.min_l by lia. f_equal. lia.
    + rewrite Z.min_r by lia.
      rewrite !take_ge; [reflexivity| |]; rewrite length_drop; fold len; lia.
Qed.

Lemma chunks_concat (n : nat) (l : list json) :
  concat ((fun p => take 10 (drop (10 * p) l)) <$> seq 0 n) = take (10 * n) l.
Proof.
  induction n as [|n IH]; [reflexivity|].
  rewrite seq_S, fmap_app, concat_app, IH. simpl.
  rewrite app_nil_r, take_take_drop. f_equal. lia.
Qed.

Lemma totalPages_spec (l : list json) :
  (0 <= totalPages l)%Z
  /\ (Z.of_nat (length l) <= 10 * totalPages l < Z.of_nat (length l) + 10)%Z.
Proof.
  unfold totalPages, ceil_div, itemsPerPage.
  pose proof (Z.div_mod (- Z.of_nat (length l)) 10 ltac:(lia)) as Hd.
  pose proof (Z.mod_pos_bound (- Z.of_nat (length l)) 10 ltac:(lia)) as Hm.
  lia.
Qed.

(** X17.  The pages of the admin table, for the page numbers the
    buttons offer, put one after the other are the filtered items: no
    item is left out and none is shown twice.  Each such page holds
    between one and ten items, the previous and next buttons ask for a
    page in range, and a page after the last is empty. *)
Theorem pages_partition (filteredItems : list json) :
  concat ((fun page => AdminPage.currentItems page filteredItems)
            <$> AdminPage.pageNumbers filteredItems)
  = filteredItems
  /\ (forall page, (1 <= page <= AdminPage.totalPages filteredItems)%Z ->
        (1 <= length (AdminPage.currentItems page filteredItems) <= 10)%nat
        /\ (1 <= AdminPage.previousPage page <= AdminPage.totalPages filteredItems)%Z
        /\ (1 <= AdminPage.nextPage filteredItems page <= AdminPage.totalPages filteredItems)%Z)
  /\ (forall page, (AdminPage.totalPages filteredItems < page)%Z ->
        AdminPage.currentItems page filteredItems = []).
Proof.
  destruct (totalPages_spec filteredItems) as (Hpos & Hlo & Hhi).
  split; [|split].
  - unfold pageNumbers. rewrite <- list_fmap_compose.
    erewrite list_fmap_ext; [rewrite chunks_concat|].
    + apply take_ge. lia.
    + intros i p _. simpl. replace (Z.of_nat p + 1)%Z with (Z.of_nat (S p)) by lia.
      apply currentItems_chunk.
  - intros page Hpage. split; [|unfold previousPage, nextPage; lia].
    assert (exists p, page = Z.of_nat (S p)) as (p & ->) by (exists (Z.to_nat (page - 1)); lia).
    rewrite currentItems_chunk, length_take, length_drop. lia.
  - intros page Hpage.
    assert (exists p, page = Z.of_nat (S p)) as (p & ->) by (exists (Z.to_nat (page - 1)); lia).
    rewrite currentItems_chunk, drop_ge by lia. reflexivity.
Qed.

End Pagination.

(** ** The search of the admin page and the filter of the home page *)

Section Filters.
Context `{JSON}.
Import JSString.

Lemma includes_empty s : includes s EmptyString = true.
Proof. destruct s; reflexivity. Qed.

Lemma lower_char_idempotent c : lower_char (lower_char c) = lower_char c.
Proof. destruct c as [[] [] [] [] [] [] [] []]; reflexivity. Qed.

Lemma toLowerCase_idempotent s : toLowerCase (toLowerCase s) = toLowerCase s.
Proof.
  unfold toLowerCase. induction s as [|c s IH]; [reflexivity|].
  simpl. rewrite lower_char_idempotent, IH. reflexivity.
Qed.

Lemma filter_with_all predicate items :
  Forall (fun item => predicate item = Ok true) items ->
  filter_with predicate items = Ok items.
Proof.
  induction 1 as [|item items Hp _ IH]; [reflexivity|].
  simpl. rewrite Hp, IH. reflexivity.
Qed.

Lemma filter_with_throws predicate items :
  (forall item e, predicate item = Throw e -> e = TypeError) ->
  Exists (fun item => predicate item = Throw TypeError) items ->
  filter_with predicate items = Throw TypeError.
Proof.
  intros Hte. induction 1 as [item items Hp|item items _ IH].
  - simpl. rewrite Hp. reflexivity.
  - simpl. rewrite IH. destruct (predicate item) as [keep|e] eqn:Hp; [reflexivity|].
    rewrite (Hte _ _ Hp). reflexivity.
Qed.

Lemma filter_with_total predicate decide items :
  Forall (fun item => predicate item = Ok (decide item)) items ->
  filter_with predicate items = Ok (List.filter decide items).
Proof.
  induction 1 as [|item items Hp _ IH]; [reflexivity|].
  simpl. rewrite Hp, IH. reflexivity.
Qed.

Lemma lower_of_TypeError item k e : lower_of item k = Throw e -> e = TypeError.
Proof.
  unfold lower_of. destruct item; try (intros [= <-]; reflexivity);
    destruct (prop _ k) as [[| | |s| |]|]; intros [= <-]; reflexivity.
Qed.

Lemma matchesSearch_TypeError term item e :
  AdminPage.matchesSearch term item = Throw e -> e = TypeError.
Proof.
  unfold AdminPage.matchesSearch.
  destruct (lower_of item "name") as [n|e1] eqn:H1;
    [|intros [= <-]; exact (lower_of_TypeError _ _ _ H1)].
  destruct (includes n _); [discriminate|].
  destruct (lower_of item "description") as [d|e2] eqn:H2;
    [|intros [= <-]; exact (lower_of_TypeError _ _ _ H2)].
  destruct (includes d _); [discriminate|].
  destruct (lower_of item "id") as [i|e3] eqn:H3;
    [discriminate|intros [= <-]; exact (lower_of_TypeError _ _ _ H3)].
Qed.

(** An item whose [name] is a string. *)
Definition named (item : json) : Prop := exists name, lower_of item "name" = Ok name.

(** An item whose [name] is not a string. *)
Definition unnamed (item : json) : Prop := lower_of item "name" = Throw TypeError.

Lemma search_unnamed_throws searchTerm items :
  Exists unnamed items ->
  filter_with (AdminPage.matchesSearch searchTerm) items = Throw TypeError.
Proof.
  intros Hex. apply filter_with_throws; [apply matchesSearch_TypeError|].
  eapply Exists_impl; [exact Hex|]. intros item Hname.
  unfold AdminPage.matchesSearch. rewrite Hname. reflexivity.
Qed.

(** X18.  The search effect of the admin page, on a page whose items are
    the array [items]: with an empty search term it keeps every item, as
    long as each has a string as its name; it asks for page one; the
    case of the search term makes no difference; and when an item has
    no string as its name, it throws a [TypeError], whatever the term. *)
Theorem search_filter (searchTerm : string) (items : list json) (w : World) :
  let page := with_admin_items (Some (JArr items)) w in
  (Forall named items -> AdminPage.filterEffect EmptyString page = (Ok (items, 1%Z), page))
  /\ AdminPage.filterEffect (toLowerCase searchTerm) page
     = AdminPage.filterEffect searchTerm page
  /\ (forall result, fst (AdminPage.filterEffect searchTerm page) = Ok result ->
        snd result = 1%Z)
  /\ (Exists unnamed items ->
      AdminPage.filterEffect searchTerm page = (Throw TypeError, page)).
Proof.
  intros page. unfold AdminPage.filterEffect. cbn [page admin_items with_admin_items].
  split; [|split; [|split]].
  - intros Hall. rewrite filter_with_all; [reflexivity|].
    eapply Forall_impl; [exact Hall|].
    intros item [name Hname]. unfold AdminPage.matchesSearch. rewrite Hname.
    change (toLowerCase EmptyString) with EmptyString. rewrite includes_empty. reflexivity.
  - unfold AdminPage.matchesSearch. rewrite toLowerCase_idempotent. reflexivity.
  - intros result. destruct (filter_with _ items); [|discriminate].
    cbn [fst]. intros [= <-]. reflexivity.
  - intros Hex. rewrite (search_unnamed_throws searchTerm items Hex). reflexivity.
Qed.

(** X19.  The import handler checks the file's collection, not its
    items: when the file holds an item without a string as its name, the
    handler announces success and puts the items on the page, and the
    search effect that follows the new items throws a [TypeError]. *)
Theorem import_of_unnamed_breaks_search (file : File) (data : json) (items : list json)
    (searchTerm : string) (w : World) :
  DataWriter.uploadFromJsonFile file = Ok data ->
  prop data "items" = Some (JArr items) ->
  Exists unnamed items ->
  let w' := snd (AdminPage.handleImportData (Some file) w) in
  admin_items w' = Some (JArr items)
  /\ effects w' = effects w ++ [Alerted "Data imported successfully!"]
  /\ fst (AdminPage.filterEffect searchTerm w') = Throw TypeError.
Proof.
  intros Hup Hitems Hex w'.
  assert (Hw' : w' = with_effect (Alerted "Data imported successfully!")
                       (with_admin_items (Some (JArr items)) w)).
  { unfold w', AdminPage.handleImportData, try_catch, lift, mbind, M_bind,
      AdminPage.setItems, alert. rewrite Hup, Hitems. reflexivity. }
  rewrite Hw'. split; [reflexivity|]. split; [reflexivity|].
  unfold AdminPage.filterEffect. cbn [admin_items with_effect with_admin_items].
  rewrite (search_unnamed_throws searchTerm items Hex). reflexivity.
Qed.

(** An agent one of whose categories is [c]. *)
Definition in_category (c : string) (agent : json) : bool :=
  match prop agent "category" with
  | Some (JArr categories) => existsb (strict_equal (JStr c)) categories
  | _ => false
  end.

Lemma matches_category c agent cs :
  truthy c = true -> has_categories agent cs ->
  HomePage.matches (Some c) EmptyString agent = Ok (in_category c agent).
Proof.
  intros Hc [Hn Hcat]. unfold HomePage.matches, HomePage.category_includes, in_category.
  rewrite Hc, Hcat. destruct agent; try contradiction; cbn [truthy negb String.eqb];
    rewrite andb_true_r; reflexivity.
Qed.

(** X20.  On agents each of which has an array of strings as its
    [category], and without a search term: with no category selected, or
    the empty one, the home page shows every agent; with a category that
    [getUniqueCategories] lists, it shows the agents that have it among
    theirs, in their order, and there is at least one. *)
Theorem category_buttons (agents : list json) (cats : list (list string))
    (buttons : list json) (c : string) :
  Forall2 has_categories agents cats ->
  DataLoader.getUniqueCategories agents = Ok buttons ->
  JStr c ∈ buttons ->
  HomePage.filteredAgents None EmptyString agents = Ok agents
  /\ (c = EmptyString -> HomePage.filteredAgents (Some c) EmptyString agents = Ok agents)
  /\ (c <> EmptyString ->
      HomePage.filteredAgents (Some c) EmptyString agents
      = Ok (List.filter (in_category c) agents)
      /\ List.filter (in_category c) agents <> []).
Proof.
  intros Hall Hbuttons Hc.
  assert (Hany : forall sel, truthy sel = false ->
            HomePage.filteredAgents (Some sel) EmptyString agents = Ok agents).
  { intros sel Hsel. apply filter_with_all, Forall_forall. intros agent _.
    unfold HomePage.matches. rewrite Hsel. reflexivity. }
  split; [apply filter_with_all, Forall_forall; intros agent _; reflexivity|].
  split; [intros ->; apply Hany; reflexivity|].
  intros Hne.
  assert (Ht : truthy c = true) by (unfold truthy; apply negb_true_iff, String.eqb_neq, Hne).
  split.
  - apply filter_with_total. clear Hbuttons Hc Hany.
    induction Hall as [|agent cs agents cats Hcat _ IH]; [constructor|].
    constructor; [exact (matches_category c agent cs Ht Hcat)|exact IH].
  - rewrite (getUniqueCategories_strings agents cats Hall) in Hbuttons.
    injection Hbuttons as <-.
    apply list_elem_of_fmap in Hc as (c' & [= <-] & Hc).
    apply listed_categories in Hc as (cs & Hcs & Hccs).
    apply list_elem_of_lookup in Hcs as (i & Hi).
    destruct (Forall2_lookup_r _ _ _ _ _ Hall Hi) as (agent & Hagent & [Hn Hcat]).
    intros Hnil.
    assert (Hin : In agent (List.filter (in_category c) agents)).
    { apply filter_In. split; [apply list_elem_of_In, list_elem_of_lookup; eauto|].
      unfold in_category. rewrite Hcat, existsb_strict_equal_strings.
      apply existsb_exists. exists c. split; [apply list_elem_of_In, Hccs|apply String.eqb_refl]. }
    rewrite Hnil in Hin. destruct Hin.
Qed.

End Filters.

(** ** The form *)

Section FormProperties.
Import JSString.

Lemma trimEnd_first c s :
  is_space c = false -> exists rest, trimEnd (String c s) = String c rest.
Proof. intros Hc. simpl. rewrite Hc. destruct (trimEnd s); eauto. Qed.

Lemma trimStart_first s :
  trimStart s = EmptyString \/ exists c rest, trimStart s = String c rest /\ is_space c = false.
Proof.
  induction s as [|c s IH]; [left; reflexivity|].
  simpl. destruct (is_space c) eqn:Hc; [exact IH|]. right. eauto.
Qed.

Lemma trimStart_nonspace c s : is_space c = false -> trimStart (String c s) = String c s.
Proof. intros Hc. simpl. rewrite Hc. reflexivity. Qed.

Lemma trimEnd_idempotent s : trimEnd (trimEnd s) = trimEnd s.
Proof.
  induction s as [|c s IH]; [reflexivity|].
  simpl. destruct (trimEnd s) as [|d rest] eqn:Hs.
  - destruct (is_space c) eqn:Hc; [reflexivity|]. simpl. rewrite Hc. reflexivity.
  - cbn [trimEnd]. cbn [trimEnd] in IH. rewrite IH. reflexivity.
Qed.

Lemma trim_idempotent s : trim (trim s) = trim s.
Proof.
  unfold trim. destruct (trimStart_first s) as [->|(c & rest & -> & Hc)]; [reflexivity|].
  destruct (trimEnd_first c rest Hc) as (rest' & Hr). rewrite Hr.
  rewrite (trimStart_nonspace c rest' Hc), <- Hr. apply trimEnd_idempotent.
Qed.

(** Categories as the form keeps them: distinct, not empty, trimmed. *)
Definition tidy (cs : list string) : Prop :=
  NoDup cs /\ Forall (fun c => c <> EmptyString /\ trim c = c) cs.

Lemma existsb_eqb_elem c (cs : list string) : existsb (String.eqb c) cs = true <-> c ∈ cs.
Proof.
  rewrite existsb_exists. split.
  - intros (x & Hx & Heq). apply String.eqb_eq in Heq. subst x. apply list_elem_of_In, Hx.
  - intros Hc. exists c. split; [apply list_elem_of_In, Hc|apply String.eqb_refl].
Qed.

Lemma filter_strings c (cs : list string) :
  List.filter (fun category => negb (strict_equal category (JStr c))) (JStr <$> cs)
  = JStr <$> List.filter (fun x => negb (String.eqb x c)) cs.
Proof.
  induction cs as [|x cs IH]; [reflexivity|].
  change (JStr <$> x :: cs) with (JStr x :: (JStr <$> cs)). cbn [List.filter strict_equal].
  rewrite IH. destruct (String.eqb x c); reflexivity.
Qed.

(** X21.  On a form whose categories are distinct, non-empty, trimmed
    strings: adding appends the trimmed input and clears the input
    field, unless the trimmed input is empty or already there, in which
    case nothing changes; removing takes the named category out and
    leaves the others in their order; and the categories are distinct,
    non-empty and trimmed after either. *)
Theorem form_categories (formData : gmap string json) (cs : list string)
    (newCategory categoryToRemove : string) :
  formData !! "category" = Some (JArr (JStr <$> cs)) ->
  tidy cs ->
  let added := trim newCategory in
  let kept := List.filter (fun c => negb (String.eqb c categoryToRemove)) cs in
  (NavigationForm.handleAddCategory newCategory formData =
   Ok (if (truthy added && negb (existsb (String.eqb added) cs))%bool
       then (<["category" := JArr (JStr <$> (cs ++ [added]))]> formData, EmptyString)
       else (formData, newCategory)))
  /\ ((truthy added && negb (existsb (String.eqb added) cs)) = true -> tidy (cs ++ [added]))
  /\ NavigationForm.handleRemoveCategory categoryToRemove formData
     = Ok (<["category" := JArr (JStr <$> kept)]> formData)
  /\ tidy kept
  /\ (categoryToRemove ∉ kept)
  /\ (forall c, c <> categoryToRemove -> c ∈ kept <-> c ∈ cs).
Proof.
  intros Hcat [Hnd Hclean] added kept. split; [|split; [|split; [|split; [|split]]]].
  - unfold NavigationForm.handleAddCategory, NavigationForm.category_includes,
      NavigationForm.category_elements. fold added. rewrite Hcat.
    destruct (truthy added); [|reflexivity].
    rewrite existsb_strict_equal_strings.
    destruct (existsb (String.eqb added) cs); [reflexivity|].
    cbn [andb negb]. rewrite fmap_app. reflexivity.
  - intros Hadd. apply andb_prop in Hadd as [Ht Hnew]. split.
    + apply NoDup_app. split; [exact Hnd|]. split; [|apply NoDup_singleton].
      intros x Hx Hin. apply list_elem_of_singleton in Hin. subst x.
      apply existsb_eqb_elem in Hx. rewrite Hx in Hnew. discriminate.
    + apply Forall_app. split; [exact Hclean|]. constructor; [|constructor].
      split; [|apply trim_idempotent].
      unfold truthy in Ht. apply negb_true_iff, String.eqb_neq in Ht. exact Ht.
  - unfold NavigationForm.handleRemoveCategory. rewrite Hcat, filter_strings. reflexivity.
  - split.
    + unfold kept. apply NoDup_ListNoDup, List.NoDup_filter, NoDup_ListNoDup, Hnd.
    + apply Forall_forall. intros c Hc. apply list_elem_of_In, filter_In in Hc as [Hc _].
      rewrite Forall_forall in Hclean. apply Hclean, list_elem_of_In, Hc.
  - intros Hin. apply list_elem_of_In, filter_In in Hin as [_ Hne].
    rewrite String.eqb_refl in Hne. discriminate.
  - intros c Hne. unfold kept. rewrite !list_elem_of_In, filter_In.
    split; [tauto|]. intros Hc. split; [exact Hc|].
    apply negb_true_iff, String.eqb_neq, Hne.
Qed.

(** X22.  What the form submits: when [handleSubmit] calls [onSubmit],
    it passes the form data without [id] and [logo] and with every other
    property as the form has it; the name, the website and the
    description are strings that are not only white space, the website
    is one [new URL] accepts, and the category is not missing. *)
Theorem submitted_form (URL_parses : string -> bool) (formData submitted : gmap string json) :
  NavigationForm.handleSubmit URL_parses formData = Ok (Some submitted) ->
  submitted !! "id" = None /\ submitted !! "logo" = None
  /\ (forall k, k <> "id" -> k <> "logo" -> submitted !! k = formData !! k)
  /\ (exists name, formData !! "name" = Some (JStr name) /\ trim name <> EmptyString)
  /\ (exists website,
        formData !! "website" = Some (JStr website)
        /\ trim website <> EmptyString /\ URL_parses website = true)
  /\ (exists description,
        formData !! "description" = Some (JStr description) /\ trim description <> EmptyString)
  /\ NavigationForm.category_missing formData = false.
Proof.
  unfold NavigationForm.handleSubmit, NavigationForm.validateForm,
    NavigationForm.validationErrors, NavigationForm.trimmed_truthy.
  assert (Htruthy : forall s, truthy s = true -> s <> EmptyString)
    by (intros s Hs; apply String.eqb_neq, negb_true_iff, Hs).
  repeat match goal with
    | |- context [match formData !! ?k with _ => _ end] =>
        destruct (formData !! k) as [[| | |?| |]|] eqn:?
    | |- context [truthy (trim ?s)] => destruct (truthy (trim s)) eqn:?
    | |- context [URL_parses ?s] => destruct (URL_parses s) eqn:?
    | |- context [NavigationForm.category_missing formData] =>
        destruct (NavigationForm.category_missing formData) eqn:?
    end; try discriminate.
  cbn. intros [= <-].
  split; [rewrite lookup_delete_ne by discriminate; apply lookup_delete_eq|].
  split; [apply lookup_delete_eq|].
  split; [intros k Hid Hlogo; rewrite !lookup_delete_ne by congruence; reflexivity|].
  repeat split; eauto.
Qed.

End FormProperties.

(** ** Items that pass the item check *)

Section Validity.
Context `{JSON}.
Import JSString.

(** Every item passes [isValidItem]. *)
Definition all_valid (items : list json) : Prop :=
  Forall (fun item => DataWriter.isValidItem item = true) items.

Lemma typeof_string v : String.eqb (typeof v) "string" = true -> exists s, v = Some (JStr s).
Proof. destruct v as [[| | |s| |]|]; try discriminate. eauto. Qed.

Lemma every_string_array v :
  DataWriter.every_string v = true -> exists cats, v = Some (JArr (JStr <$> cats)).
Proof.
  destruct v as [[| | | |l|]|]; try discriminate. simpl. intros Hall.
  induction l as [|x l IH]; [exists []; reflexivity|].
  simpl in Hall. apply andb_prop in Hall as [Hx Hl].
  destruct (typeof_string (Some x) Hx) as (s & [= ->]).
  destruct (IH Hl) as (cats & [= ->]). exists (s :: cats). reflexivity.
Qed.

Lemma valid_fields item :
  DataWriter.isValidItem item = true ->
  item <> JNull
  /\ (exists id, prop item "id" = Some (JStr id))
  /\ (exists name, prop item "name" = Some (JStr name))
  /\ (exists description, prop item "description" = Some (JStr description))
  /\ (exists cats, prop item "category" = Some (JArr (JStr <$> cats))).
Proof.
  unfold DataWriter.isValidItem. intros Hv.
  repeat (apply andb_prop in Hv as [Hv ?]).
  split; [intros ->; discriminate|].
  repeat split; try (apply typeof_string; assumption).
  apply every_string_array. assumption.
Qed.

Lemma updatedItem_valid m id itemData stamp :
  m !! "id" = Some (JStr id) ->
  DataWriter.isValidItem (DataWriter.updatedItem (Some (JObj m)) itemData stamp) = true.
Proof.
  intros Hid.
  set (item := DataWriter.updatedItem (Some (JObj m)) itemData stamp).
  assert (Hfrom : forall k v, k <> "lastUpdated" -> input_props itemData !! k = Some v ->
                    prop item k = Some v).
  { intros k v Hk Hin. unfold item, DataWriter.updatedItem, prop, spread.
    rewrite lookup_insert_ne by congruence. apply lookup_union_Some_l, Hin. }
  assert (Hname : prop item "name" = Some (JStr (name itemData)))
    by (apply Hfrom; [discriminate|destruct itemData as [n ws d c o [g|] [t|] [dd|]]; reflexivity]).
  assert (Hweb : prop item "website" = Some (JStr (website itemData)))
    by (apply Hfrom; [discriminate|destruct itemData as [n ws d c o [g|] [t|] [dd|]]; reflexivity]).
  assert (Hdesc : prop item "description" = Some (JStr (description itemData)))
    by (apply Hfrom; [discriminate|destruct itemData as [n ws d c o [g|] [t|] [dd|]]; reflexivity]).
  assert (Hcat : prop item "category" = Some (JArr (JStr <$> category itemData)))
    by (apply Hfrom; [discriminate|destruct itemData as [n ws d c o [g|] [t|] [dd|]]; reflexivity]).
  assert (Hopen : prop item "isOpenSource" = Some (JBool (isOpenSource itemData)))
    by (apply Hfrom; [discriminate|destruct itemData as [n ws d c o [g|] [t|] [dd|]]; reflexivity]).
  assert (Hid' : prop item "id" = Some (JStr id)).
  { unfold item, DataWriter.updatedItem, prop, spread.
    rewrite lookup_insert_ne by discriminate.
    rewrite lookup_union_r by apply (input_props_reserved itemData). exact Hid. }
  assert (Hstamp : prop item "lastUpdated" = Some (JStr stamp))
    by (unfold item, DataWriter.updatedItem, prop; apply lookup_insert_eq).
  unfold DataWriter.isValidItem.
  rewrite Hname, Hweb, Hdesc, Hcat, Hopen, Hid', Hstamp, every_string_strings. reflexivity.
Qed.

Lemma filter_not_id_Forall (P : json -> Prop) id items kept :
  DataWriter.filter_not_id id items = Ok kept -> Forall P items -> Forall P kept.
Proof.
  revert kept. induction items as [|item items IH]; intros kept.
  - intros [= <-] _. constructor.
  - cbn [DataWriter.filter_not_id].
    destruct (DataWriter.has_id id item) as [found|e]; [|discriminate].
    destruct (DataWriter.filter_not_id id items) as [kept'|e]; [|discriminate].
    intros [= <-] Hall. apply Forall_cons in Hall as [Hitem Hall].
    specialize (IH kept' eq_refl Hall).
    destruct found; cbn [negb]; [exact IH|constructor; assumption].
Qed.

(** X23.  The item check is an invariant of the mutations, although
    none of them calls it: when every item of the current collection
    passes [isValidItem], so does every item of the collection that
    [addItem], [updateItem] or [deleteItem] returns. *)
Theorem mutations_keep_items_valid (w : World) :
  all_valid (currentItems w) ->
  (forall itemData result,
     fst (DataWriter.addItem itemData w) = Ok result -> all_valid result)
  /\ (forall itemId itemData result,
        fst (DataWriter.updateItem itemId itemData w) = Ok result -> all_valid result)
  /\ (forall itemId result,
        fst (DataWriter.deleteItem itemId w) = Ok result -> all_valid result).
Proof.
  intros Hall. split; [|split].
  - intros itemData result. rewrite addItem_steps'. cbv zeta.
    destruct (DataWriter.some_has_id _ _) as [[]|e]; try discriminate.
    destruct (fits _ _); [|discriminate]. cbn [fst]. intros [= <-].
    apply Forall_app. split; [exact Hall|]. constructor; [apply newItem_valid|constructor].
  - intros itemId itemData result. rewrite updateItem_steps.
    destruct (DataWriter.findIndex_id _ _) as [[i|]|e] eqn:Hfind; try discriminate.
    cbv zeta. destruct (fits _ _); [|discriminate]. cbn [fst]. intros [= <-].
    destruct (findIndex_id_found _ _ _ Hfind) as (existing & Hi & Hc).
    destruct (carries_object _ _ Hc) as (m & -> & Hid).
    rewrite Hi. apply Forall_insert; [exact Hall|].
    exact (updatedItem_valid m itemId itemData _ Hid).
  - intros itemId result. rewrite deleteItem_steps.
    destruct (DataWriter.filter_not_id _ _) as [kept|e] eqn:Hfilter; [|discriminate].
    cbv zeta. destruct (length kept =? _)%nat; [discriminate|].
    destruct (fits _ _); [|discriminate]. cbn [fst]. intros [= <-].
    exact (filter_not_id_Forall _ _ _ _ Hfilter Hall).
Qed.

Lemma valid_has_categories items :
  all_valid items -> exists cats, Forall2 has_categories items cats.
Proof.
  induction 1 as [|item items Hv _ (cats & IH)]; [exists []; constructor|].
  destruct (valid_fields item Hv) as (Hn & _ & _ & _ & cs & Hcs).
  exists (cs :: cats). constructor; [split; assumption|exact IH].
Qed.

Lemma filter_with_returns predicate items :
  Forall (fun item => exists keep, predicate item = Ok keep) items ->
  exists kept, filter_with predicate items = Ok kept.
Proof.
  induction 1 as [|item items (keep & Hp) _ (kept & IH)]; [exists []; reflexivity|].
  simpl. rewrite Hp, IH. eauto.
Qed.

Lemma valid_lower_of item :
  DataWriter.isValidItem item = true ->
  (exists id, lower_of item "id" = Ok id)
  /\ (exists name, lower_of item "name" = Ok name)
  /\ (exists description, lower_of item "description" = Ok description).
Proof.
  intros Hv. destruct (valid_fields item Hv)
    as (Hn & (id & Hid) & (name & Hname) & (description & Hdesc) & _).
  unfold lower_of. rewrite Hid, Hname, Hdesc.
  destruct item; try contradiction; repeat split; eauto.
Qed.

(** X24.  Items that pass [isValidItem] are what the pages need: on
    such items the search effect of the admin page, the category list
    and the filter of the home page return, whatever the search term
    and the selected category. *)
Theorem valid_items_never_throw (items : list json) (searchTerm : string)
    (selectedCategory : option string) (w : World) :
  all_valid items ->
  (exists shown,
     AdminPage.filterEffect searchTerm (with_admin_items (Some (JArr items)) w)
     = (Ok (shown, 1%Z), with_admin_items (Some (JArr items)) w))
  /\ (exists categories, DataLoader.getUniqueCategories items = Ok (JStr <$> categories))
  /\ (exists shown, HomePage.filteredAgents selectedCategory searchTerm items = Ok shown).
Proof.
  intros Hall. split; [|split].
  - unfold AdminPage.filterEffect. cbn [admin_items with_admin_items].
    destruct (filter_with_returns (AdminPage.matchesSearch searchTerm) items) as (shown & ->);
      [|eauto].
    eapply Forall_impl; [exact Hall|]. intros item Hv.
    destruct (valid_lower_of item Hv) as ((id & Hid) & (name & Hname) & (description & Hdesc)).
    unfold AdminPage.matchesSearch. rewrite Hname, Hdesc, Hid.
    destruct (includes name _); [eauto|]. destruct (includes description _); eauto.
  - destruct (valid_has_categories items Hall) as (cats & Hcats).
    rewrite (getUniqueCategories_strings items cats Hcats). eauto.
  - apply filter_with_returns. eapply Forall_impl; [exact Hall|]. intros item Hv.
    destruct (valid_lower_of item Hv) as (_ & (name & Hname) & (description & Hdesc)).
    destruct (valid_fields item Hv) as (Hn & _ & _ & _ & cs & Hcs).
    unfold HomePage.matches, HomePage.category_includes. rewrite Hname, Hdesc, Hcs.
    destruct selectedCategory as [category|];
      [destruct (truthy category)|]; destruct item; try contradiction;
      destruct (negb (truthy searchTerm)); try destruct (includes name _); eauto.
Qed.

End Validity.

(** ** The handlers of the admin page *)

Section Handlers.
Context `{JSON}.

(** What a handler around a mutation leaves.  Either it has failed: the
    dialogs, the page's items and the storage are as before and the
    last thing the user saw is the alert [failure].  Or it is done: the
    dialogs are [closed], the last thing the user saw is the alert
    [success], and the items on the page are the items of the
    collection that is now stored. *)
Definition handled (success failure : string) (closed d : AdminPage.Dialogs) (w : World)
    (outcome : result AdminPage.Dialogs * World) : Prop :=
  (fst outcome = Ok d
   /\ localStorage (snd outcome) = localStorage w
   /\ admin_items (snd outcome) = admin_items w
   /\ last (effects (snd outcome)) = Some (Alerted failure))
  \/ (fst outcome = Ok closed
      /\ last (effects (snd outcome)) = Some (Alerted success)
      /\ exists updated items,
           localStorage (snd outcome)
           = <[DataWriter.LOCAL_STORAGE_KEY := JSON_stringify updated]> (localStorage w)
           /\ DataWriter.isValidNavigationData updated = true
           /\ prop updated "items" = Some (JArr items)
           /\ admin_items (snd outcome) = Some (JArr items)).

Lemma loaded_admin_items n w : admin_items (advance n (loaded w)) = admin_items w.
Proof. unfold loaded. destruct (overlay w), (bundled w); reflexivity. Qed.

(** A mutation does not touch the page. *)
Definition off_page (w : World) (outcome : result (list json) * World) : Prop :=
  admin_items (snd outcome) = admin_items w.

Lemma addItem_off_page w itemData : off_page w (DataWriter.addItem itemData w).
Proof.
  unfold off_page. rewrite addItem_steps'. cbv zeta.
  destruct (DataWriter.some_has_id _ _) as [[]|e]; try apply loaded_admin_items.
  destruct (fits _ _); apply loaded_admin_items.
Qed.

Lemma updateItem_off_page w itemId itemData :
  off_page w (DataWriter.updateItem itemId itemData w).
Proof.
  unfold off_page. rewrite updateItem_steps.
  destruct (DataWriter.findIndex_id _ _) as [[i|]|e]; try apply (loaded_admin_items 0 w).
  cbv zeta. destruct (fits _ _); apply loaded_admin_items.
Qed.

Lemma deleteItem_off_page w itemId : off_page w (DataWriter.deleteItem itemId w).
Proof.
  unfold off_page. rewrite deleteItem_steps.
  destruct (DataWriter.filter_not_id _ _) as [kept|e]; [|apply (loaded_admin_items 0 w)].
  cbv zeta. destruct (length kept =? _)%nat; [apply (loaded_admin_items 0 w)|].
  destruct (fits _ _); apply loaded_admin_items.
Qed.

Lemma last_alert es message : last (es ++ [Alerted message]) = Some (Alerted message).
Proof. apply last_snoc. Qed.

(** A handler that runs [mutation], shows its items, alerts and closes
    its dialog, or alerts the failure. *)
Lemma around_mutation (mutation : M (list json)) success failure closed d w :
  all_or_nothing w (mutation w) ->
  off_page w (mutation w) ->
  handled success failure closed d w
    (try_catch
       (updatedItems ← mutation;
        AdminPage.setItems (Some (JArr updatedItems));;
        alert success;;
        mret closed)
       (fun _ => alert failure;; mret d) w).
Proof.
  unfold all_or_nothing, off_page, handled, try_catch, mbind, M_bind, AdminPage.setItems, alert.
  destruct (mutation w) as [[items|e] w1]; cbn [fst snd]; intros Hall Hpage.
  - right. split; [reflexivity|]. split; [apply last_alert|].
    destruct Hall as (updated & Hstore & Hvalid & Hitems & _).
    exists updated, items. repeat split; assumption.
  - left. split; [reflexivity|]. split; [exact Hall|]. split; [exact Hpage|apply last_alert].
Qed.

(** X25.  The form and the confirmation keep the page and the storage
    in step, and never throw.  Either the handler fails: it alerts the
    failure, and the dialogs, the items on the page and the storage are
    as before.  Or it succeeds: it alerts the success and closes its
    dialog, the overlay, and nothing else in the storage, now holds a
    collection that passes the check, and the items on the page are
    that collection's items.  The confirmation is the one for the item
    [handleDeleteItem] has selected; without a selected item it does
    nothing. *)
Theorem handlers_keep_page_and_storage_in_step (d : AdminPage.Dialogs) (w : World) :
  (forall formData,
     handled "Operation successful!" "Failed to save item. Please try again."
       (AdminPage.handleFormCancel d) d w (AdminPage.handleFormSubmit formData d w))
  /\ (forall item,
        handled "Item deleted successfully!" "Failed to delete item. Please try again."
          (AdminPage.mkDialogs (AdminPage.showForm d) (AdminPage.editingItem d) false None)
          (AdminPage.handleDeleteItem item d) w
          (AdminPage.confirmDeleteItem (AdminPage.handleDeleteItem item d) w))
  /\ (AdminPage.selectedItem d = None -> AdminPage.confirmDeleteItem d w = (Ok d, w)).
Proof.
  split; [|split].
  - intros formData. unfold AdminPage.handleFormSubmit, AdminPage.handleFormCancel.
    apply around_mutation; destruct (AdminPage.editingItem d) as [id|].
    + apply updateItem_all_or_nothing.
    + apply addItem_all_or_nothing.
    + apply updateItem_off_page.
    + apply addItem_off_page.
  - intros item. unfold AdminPage.confirmDeleteItem, AdminPage.handleDeleteItem.
    cbn [AdminPage.selectedItem AdminPage.showForm AdminPage.editingItem].
    apply around_mutation; [apply deleteItem_all_or_nothing|apply deleteItem_off_page].
  - intros Hsel. unfold AdminPage.confirmDeleteItem. rewrite Hsel. reflexivity.
Qed.

End Handlers.

(** * Runs on concrete browsers

    The theorems above at particular worlds, with the reference codec as
    the platform's, and the runs that show where the program departs from
    the specification. *)

(** A decidable form of [records], for concrete collections. *)
Definition recordsb (items : list json) : bool :=
  forallb (fun item => negb (is_null item)) items.

Lemma recordsb_records items : recordsb items = true -> records items.
Proof.
  unfold recordsb, records. rewrite forallb_forall, Forall_forall.
  intros Hall item Hin Hnull. subst item.
  apply list_elem_of_In, Hall in Hin. discriminate.
Qed.

Module Examples.
#[local] Existing Instance RefJSON.codec.

(** A collection with nothing but its two required properties. *)
Definition collection (items : list json) (stamp : string) : json :=
  JObj (<["lastUpdated" := JStr stamp]> (<["items" := JArr items]> ∅)).

(** A record as [addItem] would have built it, with a GitHub handle. *)
Definition record (id name handle stamp : string) : json :=
  JObj (<["github" := JStr handle]>
        (spread
           (Some (DataWriter.newItem
                    (mkAgentInput name "https://example.org" "an entry" ["tools"] false
                       None None None)
                    id (DataWriter.generateDefaultLogo name) stamp)))).

(** A clock that advances by one millisecond at each reading, from
    2023-11-14T22:13:20.000Z. *)
Definition ticking (n : nat) : Z := (Z.of_nat n + 1700000000000)%Z.

(** A browser whose overlay holds [stored], if any, and whose server
    gives [answer]. *)
Definition browser (stored : option json) (answer : option Response) : World :=
  mkWorld
    (match stored with
     | Some data => {[DataWriter.LOCAL_STORAGE_KEY := JSON_stringify data]}
     | None => ∅
     end)
    4000 answer ticking 0 [] None.

Definition alpha : json := record "alpha-1" "Alpha" "alpha-dev" "2099-01-01T00:00:00.000Z".
Definition beta : json := record "beta-2" "Beta" "beta-dev" "2024-05-01T00:00:00.000Z".
Definition alpha' : json := record "alpha-1" "Alpha Two" "alpha-two" "2024-06-01T00:00:00.000Z".

(** A record with an id and nothing else. *)
Definition stub : json := JObj {["id" := JStr "stub-1"]}.

Definition edit : AgentInput :=
  mkAgentInput "Alpha" "https://alpha.example" "edited" ["tools"; "chat"] true None None None.

Definition seeded : World := browser (Some (collection [alpha; beta] "2024-05-01T00:00:00.000Z")) None.
Definition doubled : World :=
  browser (Some (collection [alpha; beta; alpha'] "2024-06-01T00:00:00.000Z")) None.
Definition fresh : World := browser None None.

Lemma resolveCollection_precedence_witness :
  overlay seeded = Some (collection [alpha; beta] "2024-05-01T00:00:00.000Z")
  /\ DataLoader.loadNavigationData seeded =
     (Ok (collection [alpha; beta] "2024-05-01T00:00:00.000Z"), seeded).
Proof.
  assert (Ho : overlay seeded = Some (collection [alpha; beta] "2024-05-01T00:00:00.000Z"))
    by (vm_compute; reflexivity).
  split; [exact Ho|].
  exact (proj1 (resolveCollection_precedence seeded) _ Ho seeded eq_refl).
Defined.

Lemma mutation_fallback_witness :
  overlay fresh = None /\ bundled fresh = None
  /\ fst (DataWriter.deleteItem "alpha-1" fresh) = Throw (notFound "alpha-1").
Proof.
  assert (Ho : overlay fresh = None) by reflexivity.
  assert (Hb : bundled fresh = None) by reflexivity.
  split; [exact Ho|]. split; [exact Hb|].
  destruct (mutation_fallback fresh) as (_ & _ & _ & _ & _ & _ & Hnone).
  destruct (Hnone Ho Hb) as (_ & _ & _ & Hdel).
  exact (Hdel "alpha-1").
Defined.

Lemma create_contract_witness :
  records (currentItems fresh)
  /\ exists item,
       fst (DataWriter.addItem Echo fresh) = Ok [item]
       /\ prop item "id" = Some (JStr "echo-loyw3v29")
       /\ logo_text item = Some (JStr "E").
Proof.
  assert (Hrec : records (currentItems fresh)) by (apply recordsb_records; reflexivity).
  split; [exact Hrec|].
  destruct (create_contract Echo fresh Hrec) as (_ & _ & Hnew).
  destruct Hnew as (_ & _ & _ & _ & HEcho);
    [vm_compute; reflexivity|vm_compute; reflexivity|].
  destruct (HEcho eq_refl eq_refl) as (Hrun & Hid & Htext).
  eexists. split; [exact Hrun|]. split; [exact Hid|exact Htext].
Defined.

(** The record [updateItem] puts in place of [alpha] for the input
    [edit], at the first reading of [ticking]. *)
Definition edited : json :=
  DataWriter.updatedItem (Some alpha) edit "2023-11-14T22:13:20.000Z".

(** C3 as the specification states it fails in [seeded]: the update of
    [alpha] succeeds, but the new [lastUpdated] is before the old one, and
    the GitHub handle, which the input does not carry, is still the
    record's. *)
Lemma update_not_as_stated :
  currentItems seeded = [alpha; beta]
  /\ fst (DataWriter.updateItem "alpha-1" edit seeded) = Ok [edited; beta]
  /\ prop alpha "lastUpdated" = Some (JStr "2099-01-01T00:00:00.000Z")
  /\ prop edited "lastUpdated" = Some (JStr "2023-11-14T22:13:20.000Z")
  /\ before "2023-11-14T22:13:20.000Z" "2099-01-01T00:00:00.000Z" = true
  /\ github edit = None
  /\ prop edited "github" = Some (JStr "alpha-dev").
Proof. repeat split; vm_compute; reflexivity. Qed.

Lemma update_contract_witness :
  records (currentItems seeded)
  /\ DataWriter.updateItem "alpha-1" edit seeded =
     (Ok [edited; beta],
      stored (DataWriter.updatedData (resolved seeded) [edited; beta] "2023-11-14T22:13:20.001Z")
        (advance 2 seeded))
  /\ prop edited "id" = prop alpha "id"
  /\ prop edited "logo" = prop alpha "logo".
Proof.
  assert (Hrec : records (currentItems seeded))
    by (apply recordsb_records; vm_compute; reflexivity).
  split; [exact Hrec|].
  destruct (update_contract "alpha-1" edit seeded Hrec) as (_ & Hfound).
  assert (Hcur : currentItems seeded !! 0%nat = Some alpha) by (vm_compute; reflexivity).
  destruct (Hfound 0%nat alpha Hcur) as (Hrun & Hid & Hlogo & _).
  - vm_compute; reflexivity.
  - intros j other _ Hj. inversion Hj.
  - vm_compute; reflexivity.
  - split; [|split; [exact Hid|exact Hlogo]].
    rewrite Hrun. vm_compute. reflexivity.
Defined.

Lemma delete_contract_witness :
  records (currentItems seeded)
  /\ fst (DataWriter.deleteItem "alpha-1" seeded) = Ok [beta]
  /\ fst (DataWriter.deleteItem "alpha-1" (snd (DataWriter.deleteItem "alpha-1" seeded)))
     = Throw (notFound "alpha-1").
Proof.
  assert (Hrec : records (currentItems seeded))
    by (apply recordsb_records; vm_compute; reflexivity).
  split; [exact Hrec|].
  destruct (delete_contract "alpha-1" seeded Hrec) as (Hfirst & _ & _ & Hsecond & _);
    try (vm_compute; reflexivity).
  rewrite Hfirst. cbn [fst snd]. rewrite Hsecond. split; [|reflexivity].
  vm_compute. reflexivity.
Defined.

Lemma delete_removes_every_match_witness :
  records (currentItems doubled)
  /\ currentItems doubled = [alpha; beta; alpha']
  /\ fst (DataWriter.deleteItem "alpha-1" doubled) = Ok [beta].
Proof.
  assert (Hrec : records (currentItems doubled))
    by (apply recordsb_records; vm_compute; reflexivity).
  split; [exact Hrec|]. split; [vm_compute; reflexivity|].
  destruct (delete_removes_every_match "alpha-1" doubled Hrec) as ((Hrun & _) & _).
  - vm_compute. lia.
  - vm_compute; reflexivity.
  - rewrite Hrun. vm_compute. reflexivity.
Defined.

Lemma export_import_roundtrip_witness :
  DataWriter.uploadFromJsonFile
    (mkFile (Some (JSON_stringify_indent (collection [alpha; beta] "2024-05-01T00:00:00.000Z"))))
  = Ok (collection [alpha; beta] "2024-05-01T00:00:00.000Z").
Proof.
  destruct (export_import_roundtrip (collection [alpha; beta] "2024-05-01T00:00:00.000Z") fresh)
    as (_ & imported & Hup & -> & _).
  - reflexivity.
  - exact Hup.
Defined.

(** C6 as the specification states it fails: a file whose only item has
    an id and nothing else is imported, and so is an overlay that holds
    it; [addItem] then stores the item again with the record it adds. *)
Lemma unchecked_record_accepted :
  DataWriter.isValidItem stub = false
  /\ DataWriter.uploadFromJsonFile (mkFile (Some (JSON_stringify_indent (collection [stub] "x"))))
     = Ok (collection [stub] "x")
  /\ fst (DataLoader.loadNavigationData (browser (Some (collection [stub] "x")) None))
     = Ok (collection [stub] "x")
  /\ head (currentItems (snd (DataWriter.addItem Echo (browser (Some (collection [stub] "x")) None))))
     = Some stub
  /\ length (currentItems (snd (DataWriter.addItem Echo (browser (Some (collection [stub] "x")) None))))
     = 2%nat.
Proof. repeat split; vm_compute; reflexivity. Qed.

(** C7: what the import handler does in [seeded] with a file that holds
    [alpha'] alone.  The page shows the imported items and announces
    success, but the storage is as before: the next read and the next
    mutation see [alpha] and [beta], and the imported collection is
    nowhere. *)
Theorem import_is_not_persisted :
  let file := mkFile (Some (JSON_stringify_indent (collection [alpha'] "2024-06-01T00:00:00.000Z"))) in
  let w' := snd (AdminPage.handleImportData (Some file) seeded) in
  DataWriter.uploadFromJsonFile file = Ok (collection [alpha'] "2024-06-01T00:00:00.000Z")
  /\ effects w' = [Alerted "Data imported successfully!"]
  /\ admin_items w' = Some (JArr [alpha'])
  /\ localStorage w' = localStorage seeded
  /\ fst (DataLoader.loadNavigationData w') = Ok (collection [alpha; beta] "2024-05-01T00:00:00.000Z")
  /\ currentItems w' = [alpha; beta]
  /\ fst (DataWriter.deleteItem "beta-2" w') = Ok [alpha].
Proof. repeat split; vm_compute; reflexivity. Qed.

Definition Echo' : AgentInput :=
  mkAgentInput "Echo" "https://echo.example" "another" ["voice"] false (Some "echo") None None.

(** A name of two words, the second a sharp s. *)
Definition sharp : string := "a " +:+ String (ascii_of_nat 223) EmptyString.

Definition Sharp : AgentInput :=
  mkAgentInput sharp "https://sharp.example" "desc" ["tools"] false None None None.

(** C9 as the specification states it fails for the name [sharp]: the
    first letters of its two words, upper-cased, are A and SS, and the
    initials of the record are AS. *)
Lemma initials_not_as_stated :
  Spec.words sharp = ["a"; String (ascii_of_nat 223) EmptyString]
  /\ Spec.initials sharp = Some "ASS"
  /\ DataWriter.getInitials sharp = "AS"
  /\ exists item,
       fst (DataWriter.addItem Sharp fresh) = Ok [item]
       /\ logo_text item = Some (JStr "AS").
Proof.
  split; [vm_compute; reflexivity|]. split; [vm_compute; reflexivity|].
  split; [vm_compute; reflexivity|].
  eexists. split; vm_compute; reflexivity.
Qed.

Lemma logo_pure_function_witness :
  exists ia ib,
    last (currentItems (snd (DataWriter.addItem Echo fresh))) = Some ia
    /\ last (currentItems (snd (DataWriter.addItem Echo' seeded))) = Some ib
    /\ logo_color ia = logo_color ib
    /\ logo_text ia = logo_text ib.
Proof.
  destruct (logo_pure_function Echo Echo' fresh seeded
              (currentItems (snd (DataWriter.addItem Echo fresh)))
              (currentItems (snd (DataWriter.addItem Echo' seeded))))
    as (ia & ib & Ha & Hb & Hcolor & Htext & _);
    try (vm_compute; reflexivity).
  exists ia, ib. repeat split; assumption.
Defined.

End Examples.

(** * More runs

    The theorems of the second part at particular inputs, with the
    reference codec as the platform's. *)

Module Scenarios.
#[local] Existing Instance RefJSON.codec.
Import Examples.

(** An agent with nothing but its categories. *)
Definition tagged (cs : list string) : json := JObj {["category" := JArr (JStr <$> cs)]}.

Definition painter : json := tagged ["tools"; "chat"].
Definition singer : json := tagged ["chat"; "audio"].

Lemma getUniqueCategories_sorted_set_witness :
  Forall2 has_categories [painter; singer] [["tools"; "chat"]; ["chat"; "audio"]]
  /\ exists result,
       DataLoader.getUniqueCategories [painter; singer] = Ok (JStr <$> result)
       /\ Sorted (fun a b => String.ltb a b = true) result
       /\ NoDup result
       /\ forall c, c ∈ result <->
            exists cs, cs ∈ [["tools"; "chat"]; ["chat"; "audio"]] /\ c ∈ cs.
Proof.
  assert (Hall : Forall2 has_categories [painter; singer] [["tools"; "chat"]; ["chat"; "audio"]]).
  { repeat constructor; discriminate. }
  split; [exact Hall|]. exact (getUniqueCategories_sorted_set _ _ Hall).
Defined.

Lemma accepted_collection_without_categories_witness :
  DataLoader.isValidNavigationData (collection [painter; stub] "2024-05-01T00:00:00.000Z") = true
  /\ DataLoader.getUniqueCategories [painter; stub] = Throw TypeError.
Proof.
  apply (accepted_collection_without_categories _ [painter; stub] "2024-05-01T00:00:00.000Z").
  - vm_compute. reflexivity.
  - vm_compute. reflexivity.
  - apply Exists_cons_tl, Exists_cons_hd. reflexivity.
Defined.

(** A clock that advances by one millisecond at every eighth reading. *)
Definition coarse (n : nat) : Z := (Z.of_nat (n / 8) + 1700000000000)%Z.

(** A browser with an empty storage, no server and the coarse clock. *)
Definition hasty : World := mkWorld ∅ 4000 None coarse 0 [] None.

Lemma create_twice_in_one_millisecond_witness :
  exists id,
    fst (DataWriter.addItem Echo' (snd (DataWriter.addItem Echo hasty))) = Throw (duplicateId id)
    /\ length (currentItems (snd (DataWriter.addItem Echo' (snd (DataWriter.addItem Echo hasty)))))
       = 1%nat.
Proof.
  destruct (create_twice_in_one_millisecond Echo Echo' hasty) as (Hfirst & Hsecond & Hitems);
    [apply recordsb_records|..|]; [vm_compute; reflexivity..|].
  - rewrite Hfirst. cbn [snd]. rewrite Hsecond. cbn [fst snd]. rewrite Hitems.
    eexists. split; reflexivity.
Defined.

Lemma mutations_keep_ids_unique_witness :
  unique_ids (currentItems seeded)
  /\ exists result,
       fst (DataWriter.addItem Echo seeded) = Ok result /\ unique_ids result.
Proof.
  assert (Hids : omap string_id (currentItems seeded) = ["alpha-1"; "beta-2"])
    by (vm_compute; reflexivity).
  assert (Huniq : unique_ids (currentItems seeded)).
  { unfold unique_ids. rewrite Hids. apply NoDup_cons. split; [|apply NoDup_singleton].
    intros Hin. apply list_elem_of_singleton in Hin. discriminate. }
  split; [exact Huniq|].
  destruct (mutations_keep_ids_unique seeded Huniq) as (Hadd & _).
  specialize (Hadd Echo).
  destruct (fst (DataWriter.addItem Echo seeded)) as [result|e] eqn:Hrun.
  - exists result. split; [reflexivity|]. apply Hadd. reflexivity.
  - vm_compute in Hrun. discriminate.
Defined.

Lemma save_then_load_witness :
  DataWriter.loadFromLocalStorage
    (snd (DataWriter.saveToLocalStorage (collection [alpha; beta] "2024-05-01T00:00:00.000Z") fresh))
  = (Ok (Some (collection [alpha; beta] "2024-05-01T00:00:00.000Z")),
     stored (collection [alpha; beta] "2024-05-01T00:00:00.000Z") fresh).
Proof.
  destruct (save_then_load (collection [alpha; beta] "2024-05-01T00:00:00.000Z") fresh)
    as (Hsave & Hload & _); [vm_compute; reflexivity..|].
  rewrite Hsave. cbn [snd]. rewrite Hload. reflexivity.
Defined.

(** The 32 bytes of a token. *)
Definition bytes : list ascii := list_ascii_of_string "0123456789abcdef0123456789abcdef".

(** No text is a number. *)
Definition never (now : Z) (text : string) : bool := false.

Lemma login_session_witness :
  fst (AuthUtils.login (Some "s3cret") bytes "guess" fresh) = Ok false
  /\ fst (AuthUtils.login (Some "s3cret") bytes "s3cret" fresh) = Ok true
  /\ fst (AuthGuard never (Some tt) (snd (AuthUtils.login (Some "s3cret") bytes "s3cret" fresh)))
     = Ok (Children tt).
Proof.
  destruct (login_session (Some "s3cret") never bytes "guess" fresh) as (Hwrong & _);
    [discriminate|discriminate|vm_compute; reflexivity..|].
  destruct (login_session (Some "s3cret") never bytes "s3cret" fresh) as (_ & Hright);
    [discriminate|discriminate|vm_compute; reflexivity..|].
  destruct (Hright eq_refl) as (Hrun & Hlater).
  split; [rewrite Hwrong; [reflexivity|discriminate]|].
  split; [rewrite Hrun; reflexivity|].
  rewrite Hrun. cbn [snd].
  specialize (Hlater _ eq_refl). cbv zeta in Hlater.
  replace (reading fresh 0 + AuthUtils.TOKEN_EXPIRY <? _)%Z with false in Hlater
    by (vm_compute; reflexivity).
  destruct Hlater as (_ & Hguard). rewrite Hguard. reflexivity.
Defined.

(** A stored session without an expiry. *)
Definition timeless : World :=
  mkWorld
    {[AuthUtils.STORAGE_KEY :=
        JSON_stringify (JObj (<["isAuthenticated" := JBool true]> {["token" := JStr "t"]}))]}
    4000 None ticking 0 [] None.

Lemma session_without_expiry_witness :
  AuthUtils.isAuthenticated never (advance 1000 timeless) = (Ok true, advance 1000 timeless).
Proof.
  destruct (session_without_expiry never timeless) with (w' := advance 1000 timeless)
    as (Hrun & _); [vm_compute; reflexivity..|].
  exact Hrun.
Defined.

Lemma import_of_unnamed_breaks_search_witness :
  let file := mkFile (Some (JSON_stringify_indent (collection [alpha; stub] "x"))) in
  let w' := snd (AdminPage.handleImportData (Some file) seeded) in
  effects w' = [Alerted "Data imported successfully!"]
  /\ fst (AdminPage.filterEffect "alpha" w') = Throw TypeError.
Proof.
  intros file w'.
  destruct (import_of_unnamed_breaks_search file (collection [alpha; stub] "x") [alpha; stub]
              "alpha" seeded) as (_ & Heffects & Hsearch).
  - vm_compute. reflexivity.
  - vm_compute. reflexivity.
  - apply Exists_cons_tl, Exists_cons_hd. reflexivity.
  - split; [exact Heffects|exact Hsearch].
Defined.

Lemma category_buttons_witness :
  DataLoader.getUniqueCategories [painter; singer] = Ok [JStr "audio"; JStr "chat"; JStr "tools"]
  /\ HomePage.filteredAgents (Some "audio") EmptyString [painter; singer] = Ok [singer].
Proof.
  assert (Hbuttons : DataLoader.getUniqueCategories [painter; singer]
                     = Ok [JStr "audio"; JStr "chat"; JStr "tools"]) by (vm_compute; reflexivity).
  split; [exact Hbuttons|].
  destruct (category_buttons [painter; singer] [["tools"; "chat"]; ["chat"; "audio"]]
              [JStr "audio"; JStr "chat"; JStr "tools"] "audio") as (_ & _ & Hshown).
  - repeat constructor; discriminate.
  - exact Hbuttons.
  - apply list_elem_of_here.
  - destruct Hshown as (Hrun & _); [discriminate|]. rewrite Hrun. vm_compute. reflexivity.
Defined.

(** A form that has been filled in. *)
Definition filled : gmap string json :=
  <["id" := JStr ""%string]>
    (<["name" := JStr "Echo"]>
       (<["website" := JStr "https://echo.ai"]>
          (<["description" := JStr "desc"]>
             (<["category" := JArr [JStr "chatbots"]]>
                (<["isOpenSource" := JBool false]>
                   {["lastUpdated" := JStr "2024-05-01T00:00:00.000Z"]}))))).

Lemma form_categories_witness :
  NavigationForm.handleAddCategory "  voice " filled
  = Ok (<["category" := JArr [JStr "chatbots"; JStr "voice"]]> filled, EmptyString)
  /\ NavigationForm.handleRemoveCategory "chatbots" filled
     = Ok (<["category" := JArr []]> filled).
Proof.
  destruct (form_categories filled ["chatbots"] "  voice " "chatbots")
    as (Hadd & _ & Hremove & _).
  - vm_compute. reflexivity.
  - split; [apply NoDup_singleton|]. constructor; [|constructor].
    split; [discriminate|vm_compute; reflexivity].
  - split; [rewrite Hadd|rewrite Hremove]; reflexivity.
Defined.

(** A text with a scheme. *)
Definition with_scheme (text : string) : bool :=
  String.prefix "https://" text || String.prefix "http://" text.

Lemma submitted_form_witness :
  NavigationForm.handleSubmit with_scheme filled = Ok (Some (delete "id" filled))
  /\ delete "id" filled !! "id" = None
  /\ delete "id" filled !! "name" = Some (JStr "Echo").
Proof.
  assert (Hrun : NavigationForm.handleSubmit with_scheme filled = Ok (Some (delete "id" filled)))
    by (vm_compute; reflexivity).
  split; [exact Hrun|].
  destruct (submitted_form with_scheme filled _ Hrun) as (Hid & _ & Hkeep & _).
  split; [exact Hid|]. rewrite Hkeep by discriminate. reflexivity.
Defined.

Lemma mutations_keep_items_valid_witness :
  all_valid (currentItems seeded)
  /\ exists result,
       fst (DataWriter.updateItem "alpha-1" edit seeded) = Ok result /\ all_valid result.
Proof.
  assert (Hcur : currentItems seeded = [alpha; beta]) by (vm_compute; reflexivity).
  assert (Hall : all_valid (currentItems seeded)).
  { rewrite Hcur. constructor; [vm_compute; reflexivity|].
    constructor; [vm_compute; reflexivity|constructor]. }
  split; [exact Hall|].
  destruct (mutations_keep_items_valid seeded Hall) as (_ & Hupdate & _).
  specialize (Hupdate "alpha-1" edit).
  destruct (fst (DataWriter.updateItem "alpha-1" edit seeded)) as [result|e] eqn:Hrun.
  - exists result. split; [reflexivity|]. apply Hupdate. reflexivity.
  - vm_compute in Hrun. discriminate.
Defined.

Lemma valid_items_never_throw_witness :
  all_valid [alpha; beta]
  /\ (exists categories, DataLoader.getUniqueCategories [alpha; beta] = Ok (JStr <$> categories))
  /\ (exists shown, HomePage.filteredAgents (Some "tools") "ALPHA" [alpha; beta] = Ok shown).
Proof.
  assert (Hall : all_valid [alpha; beta]).
  { constructor; [vm_compute; reflexivity|].
    constructor; [vm_compute; reflexivity|constructor]. }
  split; [exact Hall|].
  exact (proj2 (valid_items_never_throw [alpha; beta] "ALPHA" (Some "tools") fresh Hall)).
Defined.

End Scenarios.
